(** * repmgrd: the replication manager daemon (repmgrd.c)

    A shallow embedding of the daemon's position arithmetic
    ([walLocationToBytes]), of the election ([do_failover]), of the
    monitoring tick ([MonitorExecute]) and of the self-registration check
    ([checkNodeConfiguration]), followed by the properties proved of them.

    Conventions.
    - C integers are [Z] with the wrap-around written out ([wrap32],
      [wrap64], [signed64]).
    - Everything the daemon does to the outside (log lines, statements
      handed to libpq, sleeps, shell commands) is an [event]; a run is a
      [result] together with the events in program order.
    - [exit] ends a run with [Exit]; a step to which C gives no meaning and
      from which no value can be carried on (a null string handed to
      [sscanf], a store past the end of [nodes]) ends it with [Crash].
    - A read of an object that was never stored to, or through a result
      handle that was already released, yields the value the
      [indeterminate] record supplies and leaves an [EvIndeterminate]
      event, so such reads stay visible in the trace. *)

From Stdlib Require Import ZArith Lia Ascii String List Bool.
From stdpp Require Import base list strings.

Open Scope Z_scope.

(* ===================================================================== *)
(** ** Machine integers *)
(* ===================================================================== *)

(** [unsigned int] *)
Definition wrap32 (z : Z) : Z := z mod 2 ^ 32.

(** [unsigned long long int] *)
Definition wrap64 (z : Z) : Z := z mod 2 ^ 64.

(** [long long]: the two's complement reading of the low 64 bits. *)
Definition signed64 (z : Z) : Z :=
  let u := wrap64 z in if u <? 2 ^ 63 then u else u - 2 ^ 64.

(* ===================================================================== *)
(** ** Log positions *)
(* ===================================================================== *)

(** [XLogRecPtr] of access/xlogdefs.h: two [uint32] words. *)
Record XLogRecPtr : Type := mkXLogRecPtr { xlogid : Z; xrecoff : Z }.

(** Modelled from the spec: the macro [XLByteLT] comes from
    access/xlogdefs.h, which is not part of the sources at hand; the
    specification gives the comparison as lexicographic, first by segment
    id, then by record offset. *)
Definition XLByteLT (a b : XLogRecPtr) : bool :=
  (xlogid a <? xlogid b) || ((xlogid a =? xlogid b) && (xrecoff a <? xrecoff b)).

(* ===================================================================== *)
(** ** [sscanf (text, "%X/%X", &a, &b)] *)
(* ===================================================================== *)

Definition code (c : ascii) : Z := Z.of_N (N_of_ascii c).

(** [isspace] in the C locale. *)
Definition isspace (c : ascii) : bool :=
  let n := code c in (n =? 32) || ((9 <=? n) && (n <=? 13)).

Definition hexval (c : ascii) : option Z :=
  let n := code c in
  if (48 <=? n) && (n <=? 57) then Some (n - 48)
  else if (65 <=? n) && (n <=? 70) then Some (n - 55)
  else if (97 <=? n) && (n <=? 102) then Some (n - 87)
  else None.

Definition is_xdigit (c : ascii) : bool :=
  match hexval c with Some _ => true | None => false end.

Fixpoint skip_space (s : string) : string :=
  match s with
  | String c t => if isspace c then skip_space t else s
  | EmptyString => s
  end.

(** The longest run of hexadecimal digits at the head of [s], folded into
    [acc], and what follows it. *)
Fixpoint xdigits (acc : Z) (s : string) : Z * string :=
  match s with
  | String c t =>
      match hexval c with
      | Some d => xdigits (16 * acc + d) t
      | None => (acc, s)
      end
  | EmptyString => (acc, s)
  end.

Inductive conversion : Type :=
| InputFailure
| MatchingFailure
| Converted (value : Z) (rest : string).

Definition starts_with_xdigit (s : string) : bool :=
  match s with
  | String c _ => is_xdigit c
  | EmptyString => false
  end.

(** Does [s] open with [0x] or [0X]? *)
Definition has_0x (s : string) : bool :=
  match s with
  | String c (String x _) => (code c =? 48) && ((code x =? 120) || (code x =? 88))
  | _ => false
  end.

Definition tail2 (s : string) : string :=
  match s with
  | String _ (String _ t) => t
  | _ => s
  end.

(** The digits of a [%X] item, once white space and sign are gone: [0x] or
    [0X] with the hexadecimal digits that follow it, or at least one
    hexadecimal digit.  The C library the daemon is built against (glibc
    before 2.38) reads a [0x] that no digit follows as the number zero and
    takes both characters; ISO C 7.21.6.2 would have it a matching
    failure. *)
Definition scan_magnitude (s : string) : option (Z * string) :=
  if has_0x s then Some (xdigits 0 (tail2 s))
  else if starts_with_xdigit s then Some (xdigits 0 s)
  else None.

(** [strtoul] in base 16 on the digits read, as the library calls it for a
    [%X] item: [ULONG_MAX] when the number does not fit 64 bits, else the
    number, negated in [unsigned long] after a minus sign. *)
Definition strtoul_value (negative : bool) (v : Z) : Z :=
  if 2 ^ 64 <=? v then 2 ^ 64 - 1
  else (if negative then - v else v) mod 2 ^ 64.

(** One [%X] directive stored through an [unsigned int *]: white space is
    skipped, a sign is allowed, the [unsigned long] is reduced to 32
    bits. *)
Definition scan_X (s : string) : conversion :=
  match skip_space s with
  | EmptyString => InputFailure
  | String c t as s1 =>
      let '(negative, s2) :=
        if (code c =? 45) then (true, t)
        else if (code c =? 43) then (false, t)
        else (false, s1) in
      match scan_magnitude s2 with
      | Some (v, rest) => Converted (wrap32 (strtoul_value negative v)) rest
      | None => MatchingFailure
      end
  end.

(** What the call leaves behind: the returned count and the stores made. *)
Inductive scanned : Type :=
| ScanEOF                  (* returns EOF, nothing stored *)
| ScanNone                 (* returns 0, nothing stored *)
| ScanOne (a : Z)          (* returns 1, first argument stored *)
| ScanTwo (a b : Z).       (* returns 2, both stored *)

Definition sscanf_XX (text : string) : scanned :=
  match scan_X text with
  | InputFailure => ScanEOF
  | MatchingFailure => ScanNone
  | Converted a rest =>
      match rest with
      | String "/" rest' =>
          match scan_X rest' with
          | Converted b _ => ScanTwo a b
          | _ => ScanOne a
          end
      | _ => ScanOne a
      end
  end.

Definition sscanf_return (r : scanned) : Z :=
  match r with
  | ScanEOF => -1
  | ScanNone => 0
  | ScanOne _ => 1
  | ScanTwo _ _ => 2
  end.

(* ===================================================================== *)
(** ** Configuration and constants of the headers *)
(* ===================================================================== *)

(** Modelled from the spec: the exit codes are defined in repmgr.h, which
    is not part of the sources at hand; the specification names them and
    leaves their numbers open. *)
Inductive exit_status : Type :=
| SUCCESS
| ERR_BAD_CONFIG
| ERR_BAD_QUERY
| ERR_DB_CON
| ERR_DB_QUERY
| ERR_PROMOTED
| ERR_FAILOVER_FAIL.

Inductive server_mode : Type := STANDBY_MODE | PRIMARY_MODE.

Inductive failover_policy : Type := MANUAL_FAILOVER | AUTOMATIC_FAILOVER.

(** [t_configuration_options] of config.h, the fields the daemon reads. *)
Record t_configuration_options : Type := mkOptions {
  cluster_name : string;
  node : Z;
  conninfo : string;
  failover : failover_policy
}.

(** [repl_nodes (id, cluster, conninfo)] *)
Record node_row : Type := mkNode {
  n_id : Z;
  n_cluster : string;
  n_conninfo : string
}.

(** The values of one [INSERT INTO repl_monitor], in the order of the
    statement; the last two are printed with [%lld]. *)
Record monitor_row : Type := mkMonitor {
  m_primary_node : Z;
  m_standby_node : Z;
  m_timestamp : string;
  m_primary_location : string;
  m_standby_received : string;
  m_behind_receive : Z;
  m_behind_apply : Z
}.

(* ===================================================================== *)
(** ** Events and runs *)
(* ===================================================================== *)

Inductive conn : Type :=
| LocalConn                        (* myLocalConn *)
| PrimaryConn                      (* primaryConn *)
| PeerConn (info : string).        (* nodeConn of do_failover *)

(** The statements the daemon builds, with the values it formats in. *)
Inductive query : Type :=
| q_last_replay_location
| q_update_standby_location (location : string)
| q_list_standbys (excluded : Z) (cluster : string)
| q_get_last_standby_location
| q_local_positions
| q_current_location
| q_insert_monitor (r : monitor_row)
| q_find_tables
| q_select_node (id : Z) (cluster : string)
| q_insert_node (r : node_row).

Inductive level : Type := LOG_ERR | LOG_WARNING | LOG_NOTICE | LOG_INFO.

Inductive message : Type :=
| wrong_log_location_format (text : string)
| could_not_parse_location (text : string)
| pqexec_failed
| report_invalid_value
| cannot_get_nodes_info
| cannot_get_standby_location
| cannot_reach_most_nodes
| connection_lost
| connection_restored
| checking_for_promoted_node
| connected_to_node (id : Z)
| no_new_master_yet
| could_not_reconnect
| seems_promoted
| query_not_sent
| cannot_stop_query
| checking_node (id : Z) (cluster : string)
| adding_node (id : Z) (cluster : string)
| cannot_insert_node
| node_information_missing
| connecting_to_database
| checking_state
| needs_postgres_9
| connecting_to_primary
| checking_cluster_configuration
| cluster_not_configured
| starting_monitoring
| primary_node_exiting.

Inductive command : Type := promote_command | follow_command.

(** Objects that can be read before anything was stored in them. *)
Inductive place : Type :=
| var_uxlogid
| var_uxrecoff
| nodes_is_ready (i : nat)
| nodes_nodeId (i : nat)
| nodes_xlog_location (i : nat)
| handle_res2
| handle_res.

Inductive event : Type :=
| EvLog (l : level) (m : message)
| EvSleep (seconds : Z)
| EvConnect (info : string)            (* establishDBConnection *)
| EvDiscover                            (* getMasterConnection *)
| EvReset                               (* PQreset (primaryConn) *)
| EvFinish (c : conn)                   (* PQfinish *)
| EvExec (c : conn) (q : query)         (* PQexec *)
| EvSend (accepted : bool) (q : query)  (* PQsendQuery (primaryConn, ...) *)
| EvCancel (stopped : bool)             (* CancelQuery *)
| EvSystem (c : command)                (* system *)
| EvIndeterminate (p : place).

(** The points at which a run leaves what C defines.  A run is followed
    up to such a point and no further: what a build does from there on (the
    system ends a process that hands [sscanf] a null pointer; a store past
    the end of [nodes] lands elsewhere in the frame and the process may
    carry on) is not part of the model. *)
Inductive fault : Type :=
| NullString                            (* sscanf on a null pointer *)
| StoreOutOfBounds (i : nat).           (* nodes[i] = ... with i >= 50 *)

Inductive result (A : Type) : Type :=
| Ret (a : A)
| Exit (status : exit_status)
| Crash (f : fault).
Arguments Ret {A} a.
Arguments Exit {A} status.
Arguments Crash {A} f.

Record run (A : Type) : Type := mkRun { outcome : result A; events : list event }.
Arguments mkRun {A} outcome events.
Arguments outcome {A} r.
Arguments events {A} r.

#[global] Instance run_ret : MRet run := fun A a => mkRun (Ret a) [].

#[global] Instance run_bind : MBind run := fun A B k m =>
  match outcome m with
  | Ret a => let r := k a in mkRun (outcome r) (events m ++ events r)
  | Exit st => mkRun (Exit st) (events m)
  | Crash f => mkRun (Crash f) (events m)
  end.

Definition emit (e : event) : run unit := mkRun (Ret tt) [e].
Definition exit {A} (st : exit_status) : run A := mkRun (Exit st) [].
Definition crash {A} (f : fault) : run A := mkRun (Crash f) [].

Definition log_err (m : message) : run unit := emit (EvLog LOG_ERR m).
Definition log_warning (m : message) : run unit := emit (EvLog LOG_WARNING m).
Definition log_notice (m : message) : run unit := emit (EvLog LOG_NOTICE m).
Definition log_info (m : message) : run unit := emit (EvLog LOG_INFO m).

(** A read of [stored]; [junk] is what the object holds when nothing was
    stored. *)
Definition load {A} (p : place) (stored : option A) (junk : A) : run A :=
  match stored with
  | Some v => mret v
  | None => emit (EvIndeterminate p);; mret junk
  end.

(* ===================================================================== *)
(** ** [walLocationToBytes] *)
(* ===================================================================== *)

(** [long long] product and sum. *)
Definition mul_ll (a b : Z) : Z := signed64 (a * b).
Definition add_ll (a b : Z) : Z := signed64 (a + b).

(** Lines 650-662.  The value is computed in [long long], left to right,
    and converted to the [unsigned long long] return type. *)
Definition walLocationToBytes (wal_location : string) : run Z :=
  match sscanf_XX wal_location with
  | ScanTwo xlogid xrecoff =>
      mret (wrap64
              (add_ll (mul_ll (mul_ll (mul_ll (mul_ll xlogid 16) 1024) 1024) 255)
                      xrecoff))
  | _ =>
      log_err (wrong_log_location_format wal_location);;
      mret 0
  end.

(* ===================================================================== *)
(** ** The daemon's globals *)
(* ===================================================================== *)

(** What the daemon knows of its connection to the primary: the number of
    statements handed over with [PQsendQuery] on the current session whose
    end the daemon has neither waited for nor brought about by a cancel. *)
Record primary_link : Type := mkLink { pending : nat }.

Record daemon : Type := mkDaemon {
  local_options : t_configuration_options;
  primary_node : Z;                      (* primary_options.node *)
  myLocalMode : server_mode;
  myLocalId : Z;
  myClusterName : string;
  primaryConn : primary_link
}.

(** The file-scope initialisers (lines 49-61): [myLocalMode =
    STANDBY_MODE], [myLocalId = -1]; [myClusterName], [local_options] and
    [primary_options] have static storage and start zeroed. *)
Definition at_load : daemon :=
  {| local_options :=
       {| cluster_name := ""; node := 0; conninfo := "";
          failover := MANUAL_FAILOVER |};
     primary_node := 0;
     myLocalMode := STANDBY_MODE;
     myLocalId := -1;
     myClusterName := "";
     primaryConn := mkLink 0 |}.

Definition set_local_options (o : t_configuration_options) (d : daemon) : daemon :=
  {| local_options := o; primary_node := primary_node d;
     myLocalMode := myLocalMode d; myLocalId := myLocalId d;
     myClusterName := myClusterName d; primaryConn := primaryConn d |}.

Definition set_mode (m : server_mode) (d : daemon) : daemon :=
  {| local_options := local_options d; primary_node := primary_node d;
     myLocalMode := m; myLocalId := myLocalId d;
     myClusterName := myClusterName d; primaryConn := primaryConn d |}.

(** A new session to the primary [id]: nothing is pending on it. *)
Definition set_primary (id : Z) (d : daemon) : daemon :=
  {| local_options := local_options d; primary_node := id;
     myLocalMode := myLocalMode d; myLocalId := myLocalId d;
     myClusterName := myClusterName d; primaryConn := mkLink 0 |}.

Definition set_pending (n : nat) (d : daemon) : daemon :=
  {| local_options := local_options d; primary_node := primary_node d;
     myLocalMode := myLocalMode d; myLocalId := myLocalId d;
     myClusterName := myClusterName d; primaryConn := mkLink n |}.

(* ===================================================================== *)
(** ** [do_failover] *)
(* ===================================================================== *)

(** [struct nodeInfo] *)
Record nodeInfo : Type := mkNodeInfo {
  nodeId : Z;
  xlog_location : XLogRecPtr;
  is_ready : bool
}.

(** What a peer answers when it is probed. *)
Inductive probe : Type :=
| Unreachable                       (* PQstatus (nodeConn) != CONNECTION_OK *)
| NoTuples                          (* PQresultStatus (res2) != PGRES_TUPLES_OK *)
| Tuples (column0 : list string).   (* the rows of res2, first column *)

(** What the source leaves open: the contents of locals before the first
    store, and what [PQgetvalue] gives through [res2] once the result was
    released (a null pointer, or some text). *)
Record indeterminate : Type := mkIndeterminate {
  stack_uxlogid : Z;
  stack_uxrecoff : Z;
  stack_nodes : nat -> nodeInfo;
  stale_res2 : option string
}.

(** The surroundings of one election. *)
Record world : Type := mkWorld {
  replay_location : option string;  (* pg_last_xlog_replay_location (), if PGRES_TUPLES_OK *)
  standbys_listed : bool;           (* the listing statement gives PGRES_TUPLES_OK *)
  repl_nodes : list node_row;
  repl_status : list Z;             (* column standby_node *)
  answer : string -> probe;         (* by conninfo *)
  garbage : indeterminate
}.

(** [SELECT * FROM repl_nodes WHERE id IN (SELECT standby_node FROM
    repl_status WHERE standby_node <> excluded) AND cluster = 'cluster'] *)
Definition list_standbys (w : world) (excluded : Z) (cluster : string) : list node_row :=
  List.filter
    (fun r =>
       existsb (Z.eqb (n_id r))
               (List.filter (fun s => negb (s =? excluded)) (repl_status w))
       && String.eqb (n_cluster r) cluster)
    (repl_nodes w).

(** [PQgetvalue (res, row, 0)]: a null pointer when the row does not
    exist. *)
Definition PQgetvalue0 (column0 : list string) (row : nat) : option string :=
  column0 !! row.

(** One element of [nodes]; [None] marks a member nothing was stored in. *)
Record cell : Type := mkCell {
  c_nodeId : option Z;
  c_xlog_location : option XLogRecPtr;
  c_is_ready : option bool
}.

Definition blank : cell := mkCell None None None.

(** The locals of [do_failover] that the loops change. *)
Record frame : Type := mkFrame {
  visible_nodes : Z;
  uxlogid : option Z;
  uxrecoff : option Z;
  nodes : list cell
}.

(** [int visible_nodes = 1; nodeInfo nodes[50];] *)
Definition entry_frame : frame :=
  {| visible_nodes := 1; uxlogid := None; uxrecoff := None;
     nodes := replicate 50 blank |}.

(** A store into [nodes[i]].  The array has 50 elements; a store past its
    end is where the run is no longer followed (see [fault]). *)
Definition store_cell (i : nat) (change : cell -> cell) (f : frame) : run frame :=
  match nodes f !! i with
  | Some c =>
      mret {| visible_nodes := visible_nodes f; uxlogid := uxlogid f;
              uxrecoff := uxrecoff f; nodes := <[i := change c]> (nodes f) |}
  | None => crash (StoreOutOfBounds i)
  end.

(** [nodes[i]] as a read sees it; past the end of the array nothing was
    ever stored. *)
Definition cell_at (f : frame) (i : nat) : cell := default blank (nodes f !! i).

(** [if (sscanf (text, "%X/%X", &uxlogid, &uxrecoff) != 2) log_info (...)],
    on the pointer [PQgetvalue] returned. *)
Definition scan_location (text : option string) (f : frame) : run frame :=
  match text with
  | None => crash NullString
  | Some t =>
      match sscanf_XX t with
      | ScanTwo a b =>
          mret {| visible_nodes := visible_nodes f; uxlogid := Some a;
                  uxrecoff := Some b; nodes := nodes f |}
      | ScanOne a =>
          log_info (could_not_parse_location t);;
          mret {| visible_nodes := visible_nodes f; uxlogid := Some a;
                  uxrecoff := uxrecoff f; nodes := nodes f |}
      | _ =>
          log_info (could_not_parse_location t);;
          mret f
      end
  end.

(** The value of [uxlogid] and [uxrecoff] as a pair. *)
Definition load_location (w : world) (f : frame) : run XLogRecPtr :=
  a ← load var_uxlogid (uxlogid f) (wrap32 (stack_uxlogid (garbage w)));
  b ← load var_uxrecoff (uxrecoff f) (wrap32 (stack_uxrecoff (garbage w)));
  mret (mkXLogRecPtr a b).

Definition count_visible (f : frame) : frame :=
  {| visible_nodes := visible_nodes f + 1; uxlogid := uxlogid f;
     uxrecoff := uxrecoff f; nodes := nodes f |}.

(** Lines 472-505: the loop that asks the other nodes for their
    positions; [i] is the row of [res1] the loop is at, [res1] the rows
    from there on.  The answer of a peer is read at row [i] of [res2]. *)
Fixpoint probe_nodes (w : world) (res1 : list node_row) (i : nat) (f : frame)
  : run frame :=
  match res1 with
  | [] => mret f
  | row :: rest =>
      let node := n_id row in
      f ← store_cell i (fun c => mkCell (c_nodeId c) (c_xlog_location c) (Some false)) f;
      emit (EvConnect (n_conninfo row));;
      match answer w (n_conninfo row) with
      | Unreachable => probe_nodes w rest (S i) f
      | NoTuples =>
          emit (EvExec (PeerConn (n_conninfo row)) q_get_last_standby_location);;
          log_info cannot_get_standby_location;;
          emit (EvFinish (PeerConn (n_conninfo row)));;
          probe_nodes w rest (S i) f
      | Tuples column0 =>
          emit (EvExec (PeerConn (n_conninfo row)) q_get_last_standby_location);;
          f ← scan_location (PQgetvalue0 column0 i) (count_visible f);
          l ← load_location w f;
          f ← store_cell i (fun _ => mkCell (Some node) (Some l) (Some true)) f;
          emit (EvFinish (PeerConn (n_conninfo row)));;
          probe_nodes w rest (S i) f
      end
  end.

Definition junk_location (w : world) (i : nat) : XLogRecPtr :=
  let l := xlog_location (stack_nodes (garbage w) i) in
  mkXLogRecPtr (wrap32 (xlogid l)) (wrap32 (xrecoff l)).

(** Lines 534-547: the loop that picks the best candidate, [count] passes
    from index [i] on.  The members of [nodes[i]] that the body reads
    several times are loaded once. *)
Fixpoint pick_best (w : world) (f : frame) (i count : nat) (best_candidate : nodeInfo)
  : run nodeInfo :=
  match count with
  | O => mret best_candidate
  | S count' =>
      let c := cell_at f i in
      ready ← load (nodes_is_ready i) (c_is_ready c)
                   (is_ready (stack_nodes (garbage w) i));
      if negb ready then pick_best w f (S i) count' best_candidate
      else
        l ← load (nodes_xlog_location i) (c_xlog_location c) (junk_location w i);
        if XLByteLT (xlog_location best_candidate) l then
          id ← load (nodes_nodeId i) (c_nodeId c)
                    (nodeId (stack_nodes (garbage w) i));
          pick_best w f (S i) count' (mkNodeInfo id l ready)
        else pick_best w f (S i) count' best_candidate
  end.

(** Lines 471-556: [do_failover] from the listing of the standbys on;
    [res1] holds the rows of the listing.  The loop over the candidates
    runs while [i <= numelm].  At line 525 the candidate to start from is
    scanned through [res2], which by then was released on every path that
    assigned it (lines 488 and 503) or was never assigned. *)
Definition elect (d : daemon) (w : world) (res1 : list node_row) : run unit :=
  f ← probe_nodes w res1 0 entry_frame;
  emit (EvFinish LocalConn);;
  let i := Z.of_nat (length res1) in
  let total_nodes := 1 + i in
  let numelm := length res1 in
  if visible_nodes f <? Z.quot total_nodes 2 then
    log_err cannot_reach_most_nodes;;
    exit ERR_FAILOVER_FAIL
  else
    emit (EvIndeterminate handle_res2);;
    f ← scan_location (stale_res2 (garbage w)) f;
    l ← load_location w f;
    best ← pick_best w f 0 (S numelm) (mkNodeInfo (myLocalId d) l true);
    (if nodeId best =? myLocalId d
     then emit (EvSystem promote_command)
     else emit (EvSystem follow_command));;
    emit (EvConnect (conninfo (local_options d))).

(** Lines 402-470: the local position is read and published, the standbys
    are listed with the values of [myLocalId] and [myClusterName]. *)
Definition do_failover (d : daemon) (w : world) : run unit :=
  emit (EvExec LocalConn q_last_replay_location);;
  match replay_location w with
  | None =>
      log_err report_invalid_value;;
      emit (EvExec LocalConn (q_update_standby_location "0/0"));;
      exit ERR_DB_QUERY
  | Some last_wal_standby_applied =>
      emit (EvExec LocalConn (q_update_standby_location last_wal_standby_applied));;
      emit (EvExec LocalConn (q_list_standbys (myLocalId d) (myClusterName d)));;
      if standbys_listed w then
        elect d w (list_standbys w (myLocalId d) (myClusterName d))
      else
        log_err cannot_get_nodes_info;;
        emit (EvFinish LocalConn);;
        exit ERR_BAD_QUERY
  end.

(* ===================================================================== *)
(** ** [CancelQuery], [CloseConnections] *)
(* ===================================================================== *)

(** Lines 701-713 and 91-97.  [busy] is the answer of [PQisBusy
    (primaryConn) == 1], [stops] whether [PQgetCancel] and [PQcancel] both
    succeed. *)
Definition CancelQuery (stops : bool) (d : daemon) : run daemon :=
  emit (EvCancel stops);;
  if stops then mret (set_pending 0 d)
  else
    log_warning cannot_stop_query;;
    mret d.

Definition CloseConnections (busy stops : bool) (d : daemon) : run unit :=
  (if busy then CancelQuery stops d else mret d);;
  emit (EvFinish LocalConn);;
  match myLocalMode d with
  | STANDBY_MODE => emit (EvFinish PrimaryConn)
  | PRIMARY_MODE => mret tt          (* primaryConn == myLocalConn *)
  end.

(* ===================================================================== *)
(** ** [MonitorExecute] and the monitoring loop *)
(* ===================================================================== *)

(** The surroundings of one tick. *)
Record tick : Type := mkTick {
  status_after : nat -> bool;   (* PQstatus (primaryConn) == CONNECTION_OK once
                                   PQreset was called that many times in this tick *)
  discovered : nat -> option Z; (* getMasterConnection, by attempt: the primary found *)
  election : world;
  is_standby : bool;            (* is_standby (myLocalConn) *)
  unread_result : bool;         (* libpq still holds the unread result of a
                                   statement that is over *)
  cancel_stops : bool;
  local_positions : option (string * string * string);
                                (* timestamp, received, applied, if PGRES_TUPLES_OK *)
  primary_location : option string;
                                (* pg_current_xlog_location (), if PGRES_TUPLES_OK *)
  send_accepted : bool          (* PQsendQuery != 0 *)
}.

(** [PQisBusy (primaryConn) == 1]: libpq is waiting for a result as long
    as a statement sent with [PQsendQuery] is pending; it may also say so
    when the statement is over and its result was never read. *)
Definition PQisBusy (t : tick) (d : daemon) : bool :=
  (0 <? pending (primaryConn d))%nat || unread_result t.

(** Lines 265-283: the loop of up to 15 checks; [left] passes remain.  The result carries
    the number of times [PQreset] was called, which is the value of
    [connection_retries] at the end.  [PQreset] opens a new session, on
    which nothing is pending. *)
Fixpoint retry_primary (t : tick) (connection_retries left : nat) (d : daemon)
  : run (daemon * nat) :=
  match left with
  | O => mret (d, connection_retries)
  | S left' =>
      if status_after t connection_retries then
        (if (0 <? connection_retries)%nat then log_notice connection_restored
         else mret tt);;
        mret (d, connection_retries)
      else
        log_warning connection_lost;;
        emit (EvSleep 20);;
        emit EvReset;;
        retry_primary t (S connection_retries) left' (set_pending 0 d)
  end.

(** Lines 289-305: the loop of up to 6 calls of [getMasterConnection];
    [None] when none of them gave a connection.  Each call replaces [primaryConn], by a new
    connection or by a null pointer. *)
Fixpoint rediscover (t : tick) (connection_retries left : nat) (d : daemon)
  : run (option daemon) :=
  match left with
  | O => mret None
  | S left' =>
      emit EvDiscover;;
      match discovered t connection_retries with
      | Some id =>
          log_err (connected_to_node id);;
          mret (Some (set_primary id d))
      | None =>
          log_err no_new_master_yet;;
          emit (EvSleep 300);;
          rediscover t (S connection_retries) left' (set_pending 0 d)
      end
  end.

(** Lines 261-321, the first half of [MonitorExecute]: is the primary
    still there, and if not, what the configured policy does about it. *)
Definition check_primary (t : tick) (d : daemon) : run daemon :=
  '(d, resets) ← retry_primary t 0 15 d;
  if status_after t resets then mret d
  else
    match failover (local_options d) with
    | MANUAL_FAILOVER =>
        log_err checking_for_promoted_node;;
        found ← rediscover t 0 6 d;
        match found with
        | Some d' => mret d'
        | None =>
            log_err could_not_reconnect;;
            exit ERR_DB_CON
        end
    | AUTOMATIC_FAILOVER =>
        do_failover d (election t);;
        mret d
    end.

(** [%lld] of the [unsigned long long] difference [a - b]. *)
Definition lag (a b : Z) : Z := signed64 (wrap64 (a - b)).

(** Lines 331-398, the second half of [MonitorExecute]: cancel what is
    still pending, sample the positions, send the row.  [PQexec] on the primary connection first
    waits for the end of whatever statement is still open on it, so
    nothing is pending once it returns. *)
Definition sample (t : tick) (d : daemon) : run daemon :=
  d ← (if PQisBusy t d then CancelQuery (cancel_stops t) d else mret d);
  emit (EvExec LocalConn q_local_positions);;
  match local_positions t with
  | None =>
      log_err pqexec_failed;;
      mret d
  | Some (monitor_standby_timestamp, last_wal_standby_received,
          last_wal_standby_applied) =>
      emit (EvExec PrimaryConn q_current_location);;
      let d := set_pending 0 d in
      match primary_location t with
      | None =>
          log_err pqexec_failed;;
          mret d
      | Some last_wal_primary_location =>
          lsn_primary ← walLocationToBytes last_wal_primary_location;
          lsn_standby_received ← walLocationToBytes last_wal_standby_received;
          lsn_standby_applied ← walLocationToBytes last_wal_standby_applied;
          let row :=
            {| m_primary_node := primary_node d;
               m_standby_node := node (local_options d);
               m_timestamp := monitor_standby_timestamp;
               m_primary_location := last_wal_primary_location;
               m_standby_received := last_wal_standby_received;
               m_behind_receive := lag lsn_primary lsn_standby_received;
               m_behind_apply := lag lsn_standby_received lsn_standby_applied |} in
          emit (EvSend (send_accepted t) (q_insert_monitor row));;
          if send_accepted t
          then mret (set_pending (S (pending (primaryConn d))) d)
          else
            log_warning query_not_sent;;
            mret d
      end
  end.

(** Lines 246-399; the role is checked again between the two halves
    (lines 323-329). *)
Definition MonitorExecute (t : tick) (d : daemon) : run daemon :=
  d ← check_primary t d;
  if is_standby t then sample t d
  else
    log_err seems_promoted;;
    CloseConnections (PQisBusy t d) (cancel_stops t) d;;
    exit ERR_PROMOTED.

(** Lines 102-107: [MonitorCheck ()] never returns; its runs are followed
    tick by tick, as far as the list of ticks goes. *)
Fixpoint MonitorCheck (ticks : list tick) (d : daemon) : run daemon :=
  match ticks with
  | [] => mret d
  | t :: rest =>
      d ← MonitorExecute t d;
      emit (EvSleep 3);;
      MonitorCheck rest d
  end.

(* ===================================================================== *)
(** ** [checkClusterConfiguration], [checkNodeConfiguration], [main] *)
(* ===================================================================== *)

(** The table [repl_nodes] of the cluster's schema, as the primary holds
    it and as the standby this daemon runs on has replayed it. *)
Record node_tables : Type := mkTables {
  primary_copy : list node_row;
  standby_copy : list node_row
}.

(** What a statement on [myLocalConn] sees: on the primary, [myLocalConn]
    and [primaryConn] are the same connection. *)
Definition local_view (d : daemon) (db : node_tables) : list node_row :=
  match myLocalMode d with
  | PRIMARY_MODE => primary_copy db
  | STANDBY_MODE => standby_copy db
  end.

(** [INSERT INTO repl_nodes VALUES (...)] executed on the primary. *)
Definition insert_node (r : node_row) (db : node_tables) : node_tables :=
  {| primary_copy := primary_copy db ++ [r]; standby_copy := standby_copy db |}.

(** The standby has replayed everything the primary wrote. *)
Definition replay (db : node_tables) : node_tables :=
  {| primary_copy := primary_copy db; standby_copy := primary_copy db |}.

(** [SELECT * FROM repl_nodes WHERE id = ... AND cluster = '...'] *)
Definition select_node (id : Z) (cluster : string) (rows : list node_row)
  : list node_row :=
  List.filter (fun r => (n_id r =? id) && String.eqb (n_cluster r) cluster) rows.

(** What [PQexec] gives for the [INSERT]: a null pointer, a result that
    reports an error, or the result of the executed statement. *)
Inductive insert_answer : Type := InsertNull | InsertError | InsertDone.

Record registration : Type := mkRegistration {
  select_ok : bool;             (* PGRES_TUPLES_OK *)
  inserted : insert_answer
}.

Record boot : Type := mkBoot {
  parsed : t_configuration_options;   (* parse_config *)
  version_ok : bool;                  (* pg_version gives a version *)
  standby : bool;                     (* is_standby (myLocalConn) *)
  master : option Z;                  (* getMasterConnection *)
  tables_query_ok : bool;             (* PGRES_TUPLES_OK *)
  tables_found : bool;                (* PQntuples (res) != 0 *)
  reg : registration;
  ticks : list tick
}.

(** Lines 560-594. *)
Definition checkClusterConfiguration (b : boot) (d : daemon) : run unit :=
  log_info checking_cluster_configuration;;
  emit (EvExec LocalConn q_find_tables);;
  if negb (tables_query_ok b) then
    log_err pqexec_failed;;
    CloseConnections false false d;;
    exit ERR_DB_QUERY
  else if negb (tables_found b) then
    log_err cluster_not_configured;;
    CloseConnections false false d;;
    exit ERR_BAD_CONFIG
  else mret tt.

(** Lines 597-647.  The row is looked for through [myLocalConn] and
    inserted through [primaryConn]; only a null pointer from [PQexec] counts as a failed
    insert.  On the inserting path [res] is released a second time at
    the end. *)
Definition checkNodeConfiguration (e : registration) (d : daemon) (db : node_tables)
  : run node_tables :=
  let o := local_options d in
  log_info (checking_node (node o) (cluster_name o));;
  emit (EvExec LocalConn (q_select_node (node o) (cluster_name o)));;
  if negb (select_ok e) then
    log_err pqexec_failed;;
    CloseConnections false false d;;
    exit ERR_BAD_CONFIG
  else
    match select_node (node o) (cluster_name o) (local_view d db) with
    | [] =>
        let row := mkNode (node o) (cluster_name o) (conninfo o) in
        log_info (adding_node (node o) (cluster_name o));;
        emit (EvExec PrimaryConn (q_insert_node row));;
        match inserted e with
        | InsertNull =>
            log_err cannot_insert_node;;
            CloseConnections false false d;;
            exit ERR_BAD_CONFIG
        | InsertError =>
            emit (EvIndeterminate handle_res);;
            mret db
        | InsertDone =>
            emit (EvIndeterminate handle_res);;
            mret (insert_node row db)
        end
    | _ :: _ => mret db
    end.

(** Lines 159-237: [main], from [parse_config] on.  [establishDBConnection] with
    [exit_on_error] set does not return without a connection; the run is
    followed from its return. *)
Definition main (b : boot) (db : node_tables) : run (daemon * node_tables) :=
  let d := set_local_options (parsed b) at_load in
  if node (local_options d) =? -1 then
    log_err node_information_missing;;
    exit ERR_BAD_CONFIG
  else
    log_info connecting_to_database;;
    emit (EvConnect (conninfo (local_options d)));;
    log_info checking_state;;
    if negb (version_ok b) then
      emit (EvFinish LocalConn);;
      log_err needs_postgres_9;;
      exit ERR_BAD_CONFIG
    else
      let d := set_mode (if standby b then STANDBY_MODE else PRIMARY_MODE) d in
      d ← match myLocalMode d with
          | PRIMARY_MODE => mret (set_primary (node (local_options d)) d)
          | STANDBY_MODE =>
              log_info connecting_to_primary;;
              emit EvDiscover;;
              match master b with
              | Some id => mret (set_primary id d)
              | None =>
                  emit (EvFinish LocalConn);;   (* primaryConn is null *)
                  exit ERR_BAD_CONFIG
              end
          end;
      checkClusterConfiguration b d;;
      db ← checkNodeConfiguration (reg b) d db;
      match myLocalMode d with
      | STANDBY_MODE =>
          log_info starting_monitoring;;
          d ← MonitorCheck (ticks b) d;
          mret (d, db)
      | PRIMARY_MODE =>
          log_info primary_node_exiting;;
          emit (EvFinish PrimaryConn);;        (* myLocalConn was set to null *)
          mret (d, db)
      end.

(* ===================================================================== *)
(** ** Notions used in the statements *)
(* ===================================================================== *)

(** *** Well-formed positions: two fields of one to eight hexadecimal
    digits with a slash between them, and nothing else. *)

Fixpoint all_xdigits (s : string) : bool :=
  match s with
  | String c t => is_xdigit c && all_xdigits t
  | EmptyString => true
  end.

Definition hex_field (s : string) : bool :=
  all_xdigits s && (1 <=? String.length s)%nat && (String.length s <=? 8)%nat.

(** The number a field of hexadecimal digits writes, most significant
    digit first. *)
Fixpoint hex_number (s : string) : Z :=
  match s with
  | String c t =>
      default 0 (hexval c) * 16 ^ Z.of_nat (String.length t) + hex_number t
  | EmptyString => 0
  end.

Fixpoint before_slash (s : string) : string :=
  match s with
  | String c t => if code c =? 47 then EmptyString else String c (before_slash t)
  | EmptyString => EmptyString
  end.

Fixpoint after_slash (s : string) : option string :=
  match s with
  | String c t => if code c =? 47 then Some t else after_slash t
  | EmptyString => None
  end.

Definition well_formed_location (s : string) : bool :=
  hex_field (before_slash s)
  && match after_slash s with
     | Some o => hex_field o
     | None => false
     end.

Definition segment_of (s : string) : Z := hex_number (before_slash s).
Definition offset_of (s : string) : Z := hex_number (default EmptyString (after_slash s)).

(** The byte position [walLocationToBytes] returns for a text. *)
Definition bytes_of (s : string) : Z :=
  match outcome (walLocationToBytes s) with
  | Ret v => v
  | _ => 0
  end.

(** *** Texts that begin with a position, in the words of the format
    ["%X/%X"]: each of the two numbers may come after white space and a
    sign; a number is [0x] or [0X] with the hexadecimal digits that follow
    it, or at least one hexadecimal digit; a slash comes right after the
    first number, and anything may follow the second. *)

Fixpoint all_space (s : string) : bool :=
  match s with
  | String c t => isspace c && all_space t
  | EmptyString => true
  end.

Definition is_sign (s : string) : bool :=
  match s with
  | EmptyString | String "+" EmptyString | String "-" EmptyString => true
  | _ => false
  end.

Definition prefix_0x (s : string) : bool :=
  match s with
  | String c (String x _) =>
      Ascii.eqb c "0" && (Ascii.eqb x "x" || Ascii.eqb x "X")
  | _ => false
  end.

Definition is_number (s : string) : bool :=
  (prefix_0x s && all_xdigits (tail2 s))
  || (all_xdigits s && (1 <=? String.length s)%nat).

Definition begins_with_position (s : string) : Prop :=
  exists b1 g1 n1 b2 g2 n2 rest,
    s = b1 +:+ g1 +:+ n1 +:+ String "/" (b2 +:+ g2 +:+ n2 +:+ rest)
    /\ all_space b1 = true /\ is_sign g1 = true /\ is_number n1 = true
    /\ all_space b2 = true /\ is_sign g2 = true /\ is_number n2 = true.

(** The second field of a text, and text after it that the scan would take
    for more of the field: a hexadecimal digit, or the [x] that makes a
    [0x] of the field [0]. *)
Definition second_field (s : string) : string := default EmptyString (after_slash s).

Definition continues_field (field tail : string) : bool :=
  match tail with
  | String c _ =>
      is_xdigit c || (String.eqb field "0" && ((code c =? 120) || (code c =? 88)))
  | EmptyString => false
  end.

(** *** Elections *)

(** A peer counts as seen when the connection and the position query both
    succeed. *)
Definition seen (w : world) (r : node_row) : bool :=
  match answer w (n_conninfo r) with
  | Tuples _ => true
  | _ => false
  end.

Definition count_seen (w : world) (rows : list node_row) : Z :=
  Z.of_nat (length (List.filter (seen w) rows)).

Definition with_replay (l : option string) (w : world) : world :=
  {| replay_location := l; standbys_listed := standbys_listed w;
     repl_nodes := repl_nodes w; repl_status := repl_status w;
     answer := answer w; garbage := garbage w |}.

Definition is_dispatch (e : event) : bool :=
  match e with
  | EvSystem _ => true
  | _ => false
  end.

(** The standbys the election is meant to ask: those registered for the
    configured cluster, the local node left out. *)
Definition intended_peers (o : t_configuration_options) (w : world) : list node_row :=
  list_standbys w (node o) (cluster_name o).

(** *** The pipeline to the primary *)

(** The number of inserts handed to the primary and not known to be over,
    replayed from the events: an accepted [PQsendQuery] adds one; a cancel
    that went through, a [PQexec] on the same connection, [PQreset] and a
    replaced connection leave none. *)
Definition step_depth (n : nat) (e : event) : nat :=
  match e with
  | EvSend true _ => S n
  | EvCancel true => 0%nat
  | EvExec PrimaryConn _ => 0%nat
  | EvReset => 0%nat
  | EvDiscover => 0%nat
  | _ => n
  end.

Definition depth_from (n : nat) (l : list event) : nat := fold_left step_depth l n.

Definition depth (l : list event) : nat := depth_from 0 l.

(** *** Registration *)

Definition rows_for (o : t_configuration_options) (rows : list node_row) : nat :=
  length (select_node (node o) (cluster_name o) rows).

Definition is_insert_node (e : event) : bool :=
  match e with
  | EvExec _ (q_insert_node _) => true
  | _ => false
  end.

(** *** Runs *)

(** A run that does not end in [exit]. *)
Definition never_exits {A} (r : run A) : Prop := forall st, outcome r <> Exit st.

(** The events of the probing and of the selection loop. *)
Definition probing_event (e : event) : Prop :=
  match e with
  | EvLog _ _ | EvConnect _ | EvIndeterminate _ | EvFinish (PeerConn _)
  | EvExec (PeerConn _) q_get_last_standby_location => True
  | _ => False
  end.

(** The events an election leaves: log lines, statements on the local and
    the peers' connections, connections opened and closed, the command,
    and indeterminate reads; nothing on the connection to the primary. *)
Definition election_event (e : event) : Prop :=
  match e with
  | EvLog _ _ | EvConnect _ | EvFinish _ | EvSystem _ | EvIndeterminate _
  | EvExec LocalConn _ | EvExec (PeerConn _) _ => True
  | _ => False
  end.

(** What the reconnecting and rediscovering loops leave. *)
Definition supervisor_event (e : event) : Prop :=
  match e with
  | EvLog _ _ | EvSleep _ | EvReset | EvDiscover => True
  | _ => False
  end.

(** A listing statement, if [e] is one, names the node [id] and the
    cluster [c]. *)
Definition listing_names (id : Z) (c : string) (e : event) : Prop :=
  match e with
  | EvExec _ (q_list_standbys id' c') => id' = id /\ c' = c
  | _ => True
  end.

(** Two states of the daemon with the same configuration. *)
Definition same_config (d d' : daemon) : Prop :=
  myLocalId d' = myLocalId d /\ myClusterName d' = myClusterName d
  /\ local_options d' = local_options d /\ myLocalMode d' = myLocalMode d.

(** *** Sample surroundings *)

Definition sample_options : t_configuration_options :=
  {| cluster_name := "test"; node := 2; conninfo := "host=two";
     failover := AUTOMATIC_FAILOVER |}.

(** The daemon of node 2 as [main] leaves it on a standby whose primary is
    node 1. *)
Definition sample_daemon : daemon :=
  set_primary 1 (set_mode STANDBY_MODE (set_local_options sample_options at_load)).

Definition idle_stack : nat -> nodeInfo :=
  fun _ => mkNodeInfo 0 (mkXLogRecPtr 0 0) false.

(** Three standbys are listed and none of them can be reached. *)
Definition partitioned_world : world :=
  {| replay_location := Some "2/0";
     standbys_listed := true;
     repl_nodes := [mkNode 5 "" "host=five"; mkNode 6 "" "host=six";
                    mkNode 7 "" "host=seven"];
     repl_status := [5; 6; 7];
     answer := fun _ => Unreachable;
     garbage := mkIndeterminate 0 0 idle_stack None |}.

(** One standby is listed and answers with the position 2/100; the read
    through the released [res2] gives [stale]. *)
Definition one_peer_world (local : option string) (stale : option string) : world :=
  {| replay_location := local;
     standbys_listed := true;
     repl_nodes := [mkNode 5 "" "host=five"];
     repl_status := [5];
     answer := fun _ => Tuples ["2/100"];
     garbage := mkIndeterminate 0 0 idle_stack stale |}.

(** Two standbys are listed and both answer, each with the one row its
    query has: node 5 with 2/100, node 7 with 1/FFFFFFFF. *)
Definition two_peer_world : world :=
  {| replay_location := Some "2/0";
     standbys_listed := true;
     repl_nodes := [mkNode 5 "" "host=five"; mkNode 7 "" "host=seven"];
     repl_status := [5; 7];
     answer := fun c => if String.eqb c "host=five" then Tuples ["2/100"]
                        else Tuples ["1/FFFFFFFF"];
     garbage := mkIndeterminate 0 0 idle_stack None |}.

(** The only standby listed answers with an empty text (its position is
    null); the two scan variables hold 9 before any store, and the read
    through the released [res2] gives the text 0/0. *)
Definition null_position_world : world :=
  {| replay_location := Some "2/0";
     standbys_listed := true;
     repl_nodes := [mkNode 5 "" "host=five"];
     repl_status := [5];
     answer := fun _ => Tuples [""];
     garbage := mkIndeterminate 9 9 idle_stack (Some "0/0") |}.

(** Node 2 of the cluster test runs the daemon; nodes 2 and 3 are its
    cluster's standbys, node 4 is a standby registered under an empty
    cluster name.  Nobody answers. *)
Definition registry_world : world :=
  {| replay_location := Some "2/0";
     standbys_listed := true;
     repl_nodes := [mkNode 1 "test" "host=one"; mkNode 2 "test" "host=two";
                    mkNode 3 "test" "host=three"; mkNode 4 "" "host=four"];
     repl_status := [2; 3; 4];
     answer := fun _ => Unreachable;
     garbage := mkIndeterminate 0 0 idle_stack None |}.

(** The run goes on to list the standbys. *)
Definition election_proceeds (r : run unit) : Prop :=
  exists id c, In (EvExec LocalConn (q_list_standbys id c)) (events r).

(** The events of [do_failover] for a daemon whose [myLocalId] is [id]
    and whose [myClusterName] is [c]. *)
Definition failover_event (id : Z) (c : string) (e : event) : Prop :=
  match e with
  | EvFinish LocalConn | EvSystem _
  | EvExec LocalConn q_last_replay_location
  | EvExec LocalConn (q_update_standby_location _) => True
  | EvExec LocalConn (q_list_standbys id' c') => id' = id /\ c' = c
  | _ => probing_event e
  end.

(** The events of the first half of a tick. *)
Definition supervising_event (id : Z) (c : string) (e : event) : Prop :=
  match e with
  | EvSleep _ | EvReset | EvDiscover => True
  | _ => failover_event id c e
  end.

(** The events of a tick of the monitoring loop. *)
Definition monitoring_event (id : Z) (c : string) (e : event) : Prop :=
  match e with
  | EvCancel _ | EvFinish _
  | EvSend _ (q_insert_monitor _)
  | EvExec LocalConn q_local_positions
  | EvExec PrimaryConn q_current_location => True
  | _ => supervising_event id c e
  end.

(** The events of the daemon, start included. *)
Definition daemon_event (id : Z) (c : string) (e : event) : Prop :=
  match e with
  | EvExec LocalConn q_find_tables
  | EvExec LocalConn (q_select_node _ _)
  | EvExec PrimaryConn (q_insert_node _) => True
  | _ => monitoring_event id c e
  end.

(** A tick that finds the primary gone for good: no reset restores the
    connection, and the election of [w] follows. *)
Definition lost_primary_tick (w : world) : tick :=
  {| status_after := fun _ => false;
     discovered := fun _ => None;
     election := w;
     is_standby := true;
     unread_result := false;
     cancel_stops := true;
     local_positions := None;
     primary_location := None;
     send_accepted := true |}.

(** A quiet tick: the primary is there and reports [primary]; the standby
    has received and applied up to [local]. *)
Definition quiet_tick (primary local : string) : tick :=
  {| status_after := fun _ => true;
     discovered := fun _ => None;
     election := partitioned_world;
     is_standby := true;
     unread_result := false;
     cancel_stops := true;
     local_positions := Some ("2011-02-10 12:00:00+00", local, local);
     primary_location := Some primary;
     send_accepted := true |}.

Definition registry_tables : node_tables :=
  mkTables (repl_nodes registry_world) (repl_nodes registry_world).

(** Node 2 starts its daemon with the configuration [sample_options] and
    goes through [ticks]. *)
Definition sample_boot (ticks : list tick) : boot :=
  {| parsed := sample_options;
     version_ok := true;
     standby := true;
     master := Some 1;
     tables_query_ok := true;
     tables_found := true;
     reg := mkRegistration true InsertDone;
     ticks := ticks |}.

(** Every accepted [PQsendQuery] of [l] comes when nothing is pending,
    [n] being what is pending before the first event. *)
Fixpoint orderly (n : nat) (l : list event) : Prop :=
  match l with
  | [] => True
  | e :: l' =>
      match e with
      | EvSend true _ => n = 0%nat
      | _ => True
      end
      /\ orderly (step_depth n e) l'
  end.

(** An event that leaves the pipeline to the primary as it is. *)
Definition quiet_on_primary (e : event) : Prop :=
  match e with
  | EvSend true _ | EvCancel true | EvExec PrimaryConn _ | EvReset | EvDiscover => False
  | _ => True
  end.

(** An event that is not an accepted [PQsendQuery]. *)
Definition sends_nothing (e : event) : Prop :=
  match e with
  | EvSend true _ => False
  | _ => True
  end.

(** The run [r], started with [n] statements pending, sends in order and,
    when it returns, [pend] of its result is what is pending then. *)
Definition follows (n : nat) {A} (r : run A) (pend : A -> nat) : Prop :=
  orderly n (events r)
  /\ forall a, outcome r = Ret a -> pend a = depth_from n (events r).

Definition pending_of (d : daemon) : nat := pending (primaryConn d).

(** *** Tactics *)

(** Membership of an event in the trace of a closed run. *)
Ltac find_event := vm_compute; repeat (first [left; reflexivity | right]).

Ltac no_such_event H :=
  vm_compute in H; repeat (destruct H as [H | H]; [discriminate H |]); exact H.
(** ** Notions used in the further properties *)

(** The run comes back to its caller. *)
Definition returns {A} (r : run A) : Prop := exists a, outcome r = Ret a.

(** The peers a run connects to, asks for their position and closes the
    connection to, each in the order of the events. *)
Definition connects (l : list event) : list string :=
  omap (fun e => match e with EvConnect c => Some c | _ => None end) l.

Definition peers_asked (l : list event) : list string :=
  omap (fun e => match e with
                 | EvExec (PeerConn c) q_get_last_standby_location => Some c
                 | _ => None
                 end) l.

Definition peers_finished (l : list event) : list string :=
  omap (fun e => match e with EvFinish (PeerConn c) => Some c | _ => None end) l.

(** The connection to the peer was established. *)
Definition connected (w : world) (r : node_row) : bool :=
  match answer w (n_conninfo r) with
  | Unreachable => false
  | _ => true
  end.

(** [nodes[i]] as the selection loop reads it, when it reads it as
    ready. *)
Definition candidate_at (w : world) (f : frame) (i : nat) : option nodeInfo :=
  let c := cell_at f i in
  if default (is_ready (stack_nodes (garbage w) i)) (c_is_ready c)
  then Some (mkNodeInfo (default (nodeId (stack_nodes (garbage w) i)) (c_nodeId c))
                        (default (junk_location w i) (c_xlog_location c)) true)
  else None.

(** Five standbys are listed and only the second, node 6, can be reached;
    it answers with the one row its query has, the position 2/100. *)
Definition second_peer_world : world :=
  {| replay_location := Some "2/0";
     standbys_listed := true;
     repl_nodes := [mkNode 5 "" "host=five"; mkNode 6 "" "host=six";
                    mkNode 7 "" "host=seven"; mkNode 8 "" "host=eight";
                    mkNode 9 "" "host=nine"];
     repl_status := [5; 6; 7; 8; 9];
     answer := fun c => if String.eqb c "host=six" then Tuples ["2/100"]
                        else Unreachable;
     garbage := mkIndeterminate 0 0 idle_stack None |}.

(** Three standbys are listed: node 5 answers with the position 2/100,
    node 6 cannot be reached, node 7 refuses the query. *)
Definition first_peer_world : world :=
  {| replay_location := Some "2/0";
     standbys_listed := true;
     repl_nodes := [mkNode 5 "" "host=five"; mkNode 6 "" "host=six";
                    mkNode 7 "" "host=seven"];
     repl_status := [5; 6; 7];
     answer := fun c => if String.eqb c "host=five" then Tuples ["2/100"]
                        else if String.eqb c "host=six" then Unreachable
                        else NoTuples;
     garbage := mkIndeterminate 0 0 idle_stack None |}.

(** The commands a run hands to [system], in the order of the events. *)
Definition dispatches (l : list event) : list command :=
  omap (fun e => match e with EvSystem c => Some c | _ => None end) l.

(** A run of an election is settled when it either comes back, having
    handed exactly one command to [system] and then reconnected to the
    database at [info], or does not come back and has handed over none. *)
Definition settled {A} (info : string) (r : run A) : Prop :=
  match outcome r with
  | Ret _ =>
      exists c pre,
        events r = pre ++ [EvSystem c; EvConnect info] /\ dispatches pre = []
  | _ => dispatches (events r) = []
  end.

(** The seconds a run sleeps, and the calls of [PQreset] and of
    [getMasterConnection] it makes. *)
Definition slept (l : list event) : Z :=
  foldr (fun e s => match e with EvSleep n => n + s | _ => s end) 0 l.

Definition count_resets (l : list event) : nat :=
  length (List.filter (fun e => match e with EvReset => true | _ => false end) l).

Definition count_discoveries (l : list event) : nat :=
  length (List.filter (fun e => match e with EvDiscover => true | _ => false end) l).

(** The daemon of node 2 under the manual policy. *)
Definition manual_daemon : daemon :=
  set_primary 1
    (set_mode STANDBY_MODE
       (set_local_options (mkOptions "test" 2 "host=two" MANUAL_FAILOVER) at_load)).

(** The primary is gone; the third call of [getMasterConnection] finds
    node 3 promoted. *)
Definition promoted_peer_tick : tick :=
  {| status_after := fun _ => false;
     discovered := fun k => if (k =? 2)%nat then Some 3 else None;
     election := partitioned_world;
     is_standby := true;
     unread_result := false;
     cancel_stops := true;
     local_positions := None;
     primary_location := None;
     send_accepted := true |}.

(** Two standbys are listed and neither can be reached; the read through
    [res2] gives the text 0/0. *)
Definition isolated_world : world :=
  {| replay_location := Some "2/0";
     standbys_listed := true;
     repl_nodes := [mkNode 5 "" "host=five"; mkNode 6 "" "host=six"];
     repl_status := [5; 6];
     answer := fun _ => Unreachable;
     garbage := mkIndeterminate 0 0 idle_stack (Some "0/0") |}.

(** A tick that finds the primary gone for good and goes through the
    election of [isolated_world]; the statements that follow succeed. *)
Definition failed_over_tick : tick :=
  {| status_after := fun _ => false;
     discovered := fun _ => None;
     election := isolated_world;
     is_standby := true;
     unread_result := false;
     cancel_stops := true;
     local_positions := Some ("2011-02-10 12:00:00+00", "2/0", "2/0");
     primary_location := Some "2/0";
     send_accepted := true |}.

(** The checks [main] makes before it looks for its own row: the node is
    configured, the server is recent enough, a standby finds its primary,
    the cluster's tables are there, and the query for the row succeeds. *)
Definition checks_pass (b : boot) : Prop :=
  node (parsed b) <> -1
  /\ version_ok b = true
  /\ (standby b = true -> is_Some (master b))
  /\ tables_query_ok b = true
  /\ tables_found b = true
  /\ select_ok (reg b) = true.

(** The rows for the configured node that the daemon sees through its
    local connection. *)
Definition own_rows (b : boot) (db : node_tables) : list node_row :=
  select_node (node (parsed b)) (cluster_name (parsed b))
    (if standby b then standby_copy db else primary_copy db).

(** The start goes through: the checks pass, and the row is found or the
    [INSERT] gives a result. *)
Definition startup_passes (b : boot) (db : node_tables) : Prop :=
  checks_pass b /\ (own_rows b db = [] -> inserted (reg b) <> InsertNull).

(** The line [main] logs once the start is through. *)
Definition settled_line (b : boot) : event :=
  EvLog LOG_INFO (if standby b then starting_monitoring else primary_node_exiting).

(** What the start of the daemon leaves, up to the line that settles it
    and the insert of the node's row. *)
Definition checking_event (e : event) : Prop :=
  match e with
  | EvLog LOG_INFO starting_monitoring | EvLog LOG_INFO primary_node_exiting => False
  | EvLog _ _ | EvConnect _ | EvDiscover | EvFinish _
  | EvExec LocalConn q_find_tables | EvExec LocalConn (q_select_node _ _) => True
  | _ => False
  end.

(** What a daemon started on a primary leaves: log lines, the statements
    of the checks and of the registration, connections opened and closed;
    no sleep, no row for [repl_monitor], no election. *)
Definition startup_event (e : event) : Prop :=
  match e with
  | EvLog _ _ | EvConnect _ | EvDiscover | EvFinish _ | EvIndeterminate handle_res
  | EvExec LocalConn q_find_tables | EvExec LocalConn (q_select_node _ _)
  | EvExec PrimaryConn (q_insert_node _) => True
  | _ => False
  end.

(** The row [checkNodeConfiguration] inserts for the configured node. *)
Definition own_row (b : boot) : node_row :=
  mkNode (node (parsed b)) (cluster_name (parsed b)) (conninfo (parsed b)).

Definition insert_own_row (b : boot) : event :=
  EvExec PrimaryConn (q_insert_node (own_row b)).

(** The daemon's globals once the start is through, and the tables. *)
Definition role_daemon (b : boot) : daemon :=
  let d := set_mode (if standby b then STANDBY_MODE else PRIMARY_MODE)
                    (set_local_options (parsed b) at_load) in
  set_primary (if standby b then default 0 (master b) else node (parsed b)) d.

Definition registered (b : boot) (db : node_tables) : node_tables :=
  match own_rows b db, inserted (reg b) with
  | [], InsertDone => insert_node (own_row b) db
  | _, _ => db
  end.

(** What [main] does after the line that settles the start. *)
Definition after_startup (b : boot) (db : node_tables) : run (daemon * node_tables) :=
  if standby b then
    d ← MonitorCheck (ticks b) (role_daemon b);
    mret (d, registered b db)
  else
    emit (EvFinish PrimaryConn);;
    mret (role_daemon b, registered b db).

(** The events of the start before that line. *)
Definition starting_event (b : boot) (e : event) : Prop :=
  checking_event e \/ e = EvIndeterminate handle_res \/ e = insert_own_row b.

(** The calls of [PQfinish] in a run. *)
Definition finishes (l : list event) : list conn :=
  omap (fun e => match e with EvFinish c => Some c | _ => None end) l.

(** The rows for [repl_monitor] a run hands to [PQsendQuery]. *)
Definition rows_sent (l : list event) : list monitor_row :=
  omap (fun e => match e with EvSend _ (q_insert_monitor r) => Some r | _ => None end) l.


(* ===================================================================== *)
(** * Properties *)
(* ===================================================================== *)

(** ** Runs *)

Lemma events_bind {A B} (m : run A) (k : A -> run B) :
  events (m ≫= k) =
  match outcome m with
  | Ret a => events m ++ events (k a)
  | _ => events m
  end.
Proof. unfold mbind, run_bind. destruct (outcome m); reflexivity. Qed.

Lemma outcome_bind {A B} (m : run A) (k : A -> run B) :
  outcome (m ≫= k) =
  match outcome m with
  | Ret a => outcome (k a)
  | Exit st => Exit st
  | Crash f => Crash f
  end.
Proof. unfold mbind, run_bind. destruct (outcome m); reflexivity. Qed.

Lemma bind_emit {B} (e : event) (k : unit -> run B) :
  emit e ≫= k = mkRun (outcome (k tt)) (e :: events (k tt)).
Proof. reflexivity. Qed.

Lemma bind_ret {A B} (a : A) (k : A -> run B) : mret a ≫= k = k a.
Proof. unfold mbind, run_bind, mret, run_ret. simpl. destruct (k a); reflexivity. Qed.

(** ** Machine integers *)

Lemma wrap64_signed64 (z : Z) : wrap64 (signed64 z) = wrap64 z.
Proof.
  unfold signed64, wrap64.
  destruct (z mod 2 ^ 64 <? 2 ^ 63).
  - apply Z.mod_mod. lia.
  - rewrite Zminus_mod, Z.mod_same, Z.sub_0_r, Z.mod_mod, Z.mod_mod by lia.
    reflexivity.
Qed.

Lemma wrap64_mul_ll (a b x : Z) :
  wrap64 a = wrap64 x -> wrap64 (mul_ll a b) = wrap64 (x * b).
Proof.
  unfold mul_ll. rewrite wrap64_signed64. unfold wrap64. intros H.
  rewrite <- (Z.mul_mod_idemp_l a), H, Z.mul_mod_idemp_l by lia. reflexivity.
Qed.

Lemma wrap64_add_ll (a b x : Z) :
  wrap64 a = wrap64 x -> wrap64 (add_ll a b) = wrap64 (x + b).
Proof.
  unfold add_ll. rewrite wrap64_signed64. unfold wrap64. intros H.
  rewrite <- (Z.add_mod_idemp_l a), H, Z.add_mod_idemp_l by lia. reflexivity.
Qed.

(** The [long long] arithmetic of [walLocationToBytes] loses nothing on
    two 32-bit words. *)
Lemma bytes_formula (s o : Z) :
  0 <= s < 2 ^ 32 -> 0 <= o < 2 ^ 32 ->
  wrap64 (add_ll (mul_ll (mul_ll (mul_ll (mul_ll s 16) 1024) 1024) 255) o)
  = s * 0xFF000000 + o.
Proof.
  intros Hs Ho.
  rewrite (wrap64_add_ll _ _ (s * 16 * 1024 * 1024 * 255)).
  - replace (s * 0xFF000000) with (s * 16 * 1024 * 1024 * 255) by ring.
    unfold wrap64. apply Z.mod_small.
    change (2 ^ 32) with 4294967296 in Hs, Ho.
    change (2 ^ 64) with 18446744073709551616.
    lia.
  - do 4 apply wrap64_mul_ll. reflexivity.
Qed.

Lemma signed64_small (z : Z) : - 2 ^ 63 <= z < 2 ^ 63 -> signed64 z = z.
Proof.
  intros H. unfold signed64, wrap64.
  destruct (Z_lt_le_dec z 0) as [Hn | Hp].
  - assert (E : z mod 2 ^ 64 = z + 2 ^ 64).
    { symmetry. apply Z.mod_unique with (q := -1); lia. }
    rewrite E. destruct (z + 2 ^ 64 <? 2 ^ 63) eqn:C.
    + apply Z.ltb_lt in C. lia.
    + lia.
  - rewrite Z.mod_small by lia.
    destruct (z <? 2 ^ 63) eqn:C; [reflexivity | apply Z.ltb_ge in C; lia].
Qed.

Lemma wrap64_idem (z : Z) : wrap64 (wrap64 z) = wrap64 z.
Proof. unfold wrap64. apply Z.mod_mod. lia. Qed.

Lemma lag_signed (a b : Z) : lag a b = signed64 (a - b).
Proof. unfold lag, signed64. rewrite wrap64_idem. reflexivity. Qed.

(** ** The scan *)

Lemma xdigit_plain (c : ascii) :
  is_xdigit c = true ->
  isspace c = false /\ (code c =? 45) = false /\ (code c =? 43) = false /\
  (code c =? 120) = false /\ (code c =? 88) = false /\ (code c =? 47) = false.
Proof.
  destruct c as [[] [] [] [] [] [] [] []]; intros H;
    solve [discriminate H | repeat split; reflexivity].
Qed.

Lemma hexval_range (c : ascii) (d : Z) : hexval c = Some d -> 0 <= d < 16.
Proof.
  unfold hexval. intros H.
  repeat match type of H with
         | (if ?b then _ else _) = _ => destruct b eqn:?
         end; inversion H; subst; lia.
Qed.

Lemma hex_number_range (s : string) :
  all_xdigits s = true -> 0 <= hex_number s < 16 ^ Z.of_nat (String.length s).
Proof.
  induction s as [| c t IH]; intros H.
  - simpl. lia.
  - simpl in H. apply andb_true_iff in H as [Hc Ht]. specialize (IH Ht).
    unfold is_xdigit in Hc. destruct (hexval c) as [d |] eqn:E; [| discriminate].
    pose proof (hexval_range _ _ E) as Hd.
    change (hex_number (String c t))
      with (default 0 (hexval c) * 16 ^ Z.of_nat (String.length t) + hex_number t).
    change (String.length (String c t)) with (S (String.length t)).
    rewrite E, Nat2Z.inj_succ, Z.pow_succ_r by lia. simpl default.
    nia.
Qed.

Lemma xdigits_field (s rest : string) (acc : Z) :
  all_xdigits s = true -> starts_with_xdigit rest = false ->
  xdigits acc (s +:+ rest)
  = (acc * 16 ^ Z.of_nat (String.length s) + hex_number s, rest).
Proof.
  revert acc. induction s as [| c t IH]; intros acc Hs Hr.
  - simpl. destruct rest as [| r rest']; simpl.
    + f_equal. lia.
    + simpl in Hr. unfold is_xdigit in Hr.
      destruct (hexval r); [discriminate |]. f_equal. lia.
  - simpl in Hs. apply andb_true_iff in Hs as [Hc Ht].
    unfold is_xdigit in Hc.
    destruct (hexval c) as [d |] eqn:E; [| discriminate].
    change (xdigits acc (String c t +:+ rest))
      with (match hexval c with
            | Some d => xdigits (16 * acc + d) (t +:+ rest)
            | None => (acc, String c (t +:+ rest))
            end).
    rewrite E, IH by assumption. f_equal.
    change (String.length (String c t)) with (S (String.length t)).
    change (hex_number (String c t))
      with (default 0 (hexval c) * 16 ^ Z.of_nat (String.length t) + hex_number t).
    rewrite E, Nat2Z.inj_succ, Z.pow_succ_r by lia. simpl default. ring.
Qed.

(** A field followed by a slash or by the end of the text converts to the
    number it writes. *)
Lemma scan_X_field (s rest : string) :
  hex_field s = true -> starts_with_xdigit rest = false -> has_0x (s +:+ rest) = false ->
  scan_X (s +:+ rest) = Converted (hex_number s) rest.
Proof.
  unfold hex_field. intros H Hr H0.
  apply andb_true_iff in H as [H H8]. apply andb_true_iff in H as [Hx H1].
  apply Nat.leb_le in H8. apply Nat.leb_le in H1.
  destruct s as [| c t]; [simpl in H1; lia |].
  pose proof Hx as Hx'. simpl in Hx'. apply andb_true_iff in Hx' as [Hc _].
  destruct (xdigit_plain c Hc) as (Hsp & Hm & Hp & _).
  unfold scan_X. simpl skip_space. rewrite Hsp. rewrite Hm, Hp.
  unfold scan_magnitude. change (String c (t +:+ rest)) with (String c t +:+ rest).
  rewrite H0.
  assert (Hst : starts_with_xdigit (String c t +:+ rest) = true) by exact Hc.
  rewrite Hst, xdigits_field by assumption.
  pose proof (hex_number_range _ Hx) as Hrange.
  assert (16 ^ Z.of_nat (String.length (String c t)) <= 16 ^ 8)
    by (apply Z.pow_le_mono_r; lia).
  unfold wrap32, strtoul_value.
  change (2 ^ 64) with 18446744073709551616.
  change (16 ^ 8) with 4294967296 in *.
  change (2 ^ 32) with 4294967296.
  destruct (18446744073709551616 <=? 0 * 16 ^ Z.of_nat (String.length (String c t))
                                     + hex_number (String c t)) eqn:Ov;
    [apply Z.leb_le in Ov; lia |].
  rewrite Z.mul_0_l, Z.add_0_l.
  rewrite (Z.mod_small _ 18446744073709551616) by lia.
  rewrite Z.mod_small by lia. reflexivity.
Qed.

Lemma field_no_0x (s rest : string) :
  all_xdigits s = true -> (rest = EmptyString \/ exists r, rest = String "/" r) ->
  has_0x (s +:+ rest) = false.
Proof.
  intros Hs Hr. destruct s as [| c [| x t]]; simpl.
  - destruct Hr as [-> | [r ->]]; [reflexivity |].
    destruct r; reflexivity.
  - destruct Hr as [-> | [r ->]]; [reflexivity |].
    simpl. rewrite andb_false_r. reflexivity.
  - simpl in Hs. apply andb_true_iff in Hs as [_ Hs]. apply andb_true_iff in Hs as [Hx _].
    destruct (xdigit_plain x Hx) as (_ & _ & _ & H1 & H2 & _).
    rewrite H1, H2. apply andb_false_r.
Qed.

Lemma split_at_slash (s o : string) :
  after_slash s = Some o -> s = before_slash s +:+ String "/" o.
Proof.
  induction s as [| c t IH]; simpl; [discriminate |].
  destruct (code c =? 47) eqn:E.
  - intros [= ->]. simpl.
    assert (c = "/"%char) as ->; [| reflexivity].
    destruct c as [[] [] [] [] [] [] [] []]; solve [discriminate E | reflexivity].
  - intros H.
    change (String c (before_slash t) +:+ String "/" o)
      with (String c (before_slash t +:+ String "/" o)).
    f_equal. apply IH, H.
Qed.

Lemma append_empty (s : string) : s +:+ EmptyString = s.
Proof.
  induction s as [| c t IH]; [reflexivity |].
  change (String c t +:+ EmptyString) with (String c (t +:+ EmptyString)).
  rewrite IH. reflexivity.
Qed.

Lemma sscanf_well_formed (s : string) :
  well_formed_location s = true ->
  sscanf_XX s = ScanTwo (segment_of s) (offset_of s).
Proof.
  unfold well_formed_location, segment_of, offset_of. intros H.
  apply andb_true_iff in H as [Hs Ho].
  destruct (after_slash s) as [o |] eqn:E; [| discriminate]. simpl.
  rewrite (split_at_slash s o E) at 1.
  assert (Hxs : all_xdigits (before_slash s) = true).
  { unfold hex_field in Hs. apply andb_true_iff in Hs as [Hs _].
    apply andb_true_iff in Hs as [Hs _]. exact Hs. }
  assert (Hxo : all_xdigits o = true).
  { unfold hex_field in Ho. apply andb_true_iff in Ho as [Ho _].
    apply andb_true_iff in Ho as [Ho _]. exact Ho. }
  unfold sscanf_XX.
  rewrite scan_X_field; [| assumption | reflexivity | apply field_no_0x; eauto].
  rewrite <- (append_empty o) at 1.
  rewrite scan_X_field; [reflexivity | assumption | reflexivity |].
  apply field_no_0x; auto.
Qed.

Lemma segment_range (s : string) :
  well_formed_location s = true -> 0 <= segment_of s < 2 ^ 32 /\ 0 <= offset_of s < 2 ^ 32.
Proof.
  unfold well_formed_location, segment_of, offset_of, hex_field. intros H.
  destruct (after_slash s) as [o |]; [| rewrite andb_false_r in H; discriminate].
  simpl. repeat (apply andb_true_iff in H as [H ?]).
  repeat match goal with
         | H : (_ && _) = true |- _ => apply andb_true_iff in H as [? ?]
         | H : (_ <=? _)%nat = true |- _ => apply Nat.leb_le in H
         end.
  split.
  - pose proof (hex_number_range (before_slash s) ltac:(assumption)).
    assert (16 ^ Z.of_nat (String.length (before_slash s)) <= 16 ^ 8)
      by (apply Z.pow_le_mono_r; lia).
    lia.
  - pose proof (hex_number_range o ltac:(assumption)).
    assert (16 ^ Z.of_nat (String.length o) <= 16 ^ 8)
      by (apply Z.pow_le_mono_r; lia).
    lia.
Qed.

(** C3. For every well-formed position text, two fields of hexadecimal
    digits with a slash between them, [walLocationToBytes] returns the
    segment times 0xFF000000 plus the offset, and logs nothing. *)
Theorem walLocationToBytes_well_formed (s : string) :
  well_formed_location s = true ->
  walLocationToBytes s = mkRun (Ret (segment_of s * 0xFF000000 + offset_of s)) [].
Proof.
  intros H. unfold walLocationToBytes.
  rewrite (sscanf_well_formed s H).
  destruct (segment_range s H) as [Hs Ho].
  rewrite bytes_formula by assumption. reflexivity.
Qed.

Lemma walLocationToBytes_well_formed_witness :
  well_formed_location "1/A0B0C0D0" = true /\
  walLocationToBytes "1/A0B0C0D0" = mkRun (Ret (1 * 0xFF000000 + 0xA0B0C0D0)) [].
Proof.
  split; [reflexivity |].
  exact (walLocationToBytes_well_formed "1/A0B0C0D0" eq_refl).
Defined.

Example scan_of_a_position :
  sscanf_XX "1/A0B0C0D0" = ScanTwo 1 0xA0B0C0D0
  /\ bytes_of "1/A0B0C0D0" = 0x19FB0C0D0
  /\ sscanf_XX "7/zz" = ScanOne 7
  /\ sscanf_XX "" = ScanEOF
  /\ sscanf_XX " 0x1f/-1" = ScanTwo 31 0xFFFFFFFF.
Proof. repeat split. Qed.

(** ** Texts the scan turns down *)

Lemma sscanf_return_two (s : string) :
  sscanf_return (sscanf_XX s) = 2 <-> exists a b, sscanf_XX s = ScanTwo a b.
Proof.
  split.
  - destruct (sscanf_XX s); simpl; intros H; try discriminate H. eauto.
  - intros (a & b & ->). reflexivity.
Qed.

(** ** Texts that begin with a position *)

Lemma append_assoc (a b c : string) : (a +:+ b) +:+ c = a +:+ (b +:+ c).
Proof.
  induction a as [| x a IH]; [reflexivity |].
  change (String x ((a +:+ b) +:+ c) = String x (a +:+ (b +:+ c))).
  rewrite IH. reflexivity.
Qed.

Lemma code_inj (c : ascii) (z : Z) : code c = z -> c = ascii_of_N (Z.to_N z).
Proof.
  unfold code. intros <-. rewrite N2Z.id, ascii_N_embedding. reflexivity.
Qed.

Lemma has_0x_prefix (s : string) : has_0x s = prefix_0x s.
Proof.
  destruct s as [| c [| x t]]; try reflexivity. cbn [has_0x prefix_0x].
  assert (E : forall (a : ascii) (z : Z) (k : ascii),
             k = ascii_of_N (Z.to_N z) -> code k = z ->
             (code a =? z) = Ascii.eqb a k).
  { intros a z k Hk Hz. destruct (code a =? z) eqn:Ea.
    - apply Z.eqb_eq, code_inj in Ea. rewrite Ea, Hk. symmetry. apply Ascii.eqb_refl.
    - symmetry. apply Ascii.eqb_neq. intros ->. rewrite Hz in Ea.
      rewrite Z.eqb_refl in Ea. discriminate Ea. }
  rewrite (E c 48 "0"%char), (E x 120 "x"%char), (E x 88 "X"%char); reflexivity.
Qed.

Lemma skip_space_split (s : string) :
  exists b, s = b +:+ skip_space s /\ all_space b = true.
Proof.
  induction s as [| c t (b & Hb & Sb)]; [exists EmptyString; split; reflexivity |].
  cbn [skip_space]. destruct (isspace c) eqn:Ec.
  - exists (String c b). split.
    + change (String c t = String c (b +:+ skip_space t)). rewrite <- Hb. reflexivity.
    + cbn [all_space]. rewrite Ec, Sb. reflexivity.
  - exists EmptyString. split; reflexivity.
Qed.

Lemma skip_space_blanks (b t : string) :
  all_space b = true -> skip_space (b +:+ t) = skip_space t.
Proof.
  induction b as [| c b IH]; [reflexivity |].
  cbn [all_space]. intros H. apply andb_true_iff in H as [Hc Hb].
  change (skip_space (String c (b +:+ t)) = skip_space t).
  cbn [skip_space]. rewrite Hc. apply IH, Hb.
Qed.

Lemma xdigits_split (s : string) (acc : Z) :
  exists ds, s = ds +:+ snd (xdigits acc s) /\ all_xdigits ds = true
             /\ (starts_with_xdigit s = true -> (1 <= String.length ds)%nat).
Proof.
  revert acc. induction s as [| c t IH]; intros acc.
  - exists EmptyString. repeat split. discriminate.
  - cbn [xdigits starts_with_xdigit]. unfold is_xdigit.
    destruct (hexval c) as [d |] eqn:E.
    + destruct (IH (16 * acc + d)) as (ds & Hs & Hd & _).
      exists (String c ds). split; [| split].
      * change (String c t = String c (ds +:+ snd (xdigits (16 * acc + d) t))).
        rewrite <- Hs. reflexivity.
      * cbn [all_xdigits]. unfold is_xdigit. rewrite E, Hd. reflexivity.
      * intros _. cbn. lia.
    + exists EmptyString. repeat split. discriminate.
Qed.

Lemma xdigits_stops (ds rest : string) (acc : Z) :
  all_xdigits ds = true -> starts_with_xdigit rest = false ->
  snd (xdigits acc (ds +:+ rest)) = rest.
Proof. intros Hd Hr. rewrite xdigits_field by assumption. reflexivity. Qed.

Lemma scan_magnitude_split (s : string) (v : Z) (r : string) :
  scan_magnitude s = Some (v, r) -> exists n, s = n +:+ r /\ is_number n = true.
Proof.
  unfold scan_magnitude. destruct (has_0x s) eqn:H0.
  - intros [= E]. rewrite has_0x_prefix in H0.
    destruct s as [| c [| x t]]; try discriminate H0.
    cbn [tail2] in E.
    destruct (xdigits_split t 0) as (ds & Ht & Hd & _).
    assert (Er : snd (xdigits 0 t) = r) by (rewrite E; reflexivity).
    rewrite Er in Ht.
    exists (String c (String x ds)). split.
    + rewrite Ht at 1. reflexivity.
    + unfold is_number. cbn [prefix_0x] in H0 |- *. rewrite H0. cbn [tail2 andb].
      rewrite Hd. reflexivity.
  - destruct (starts_with_xdigit s) eqn:Hs; [| discriminate].
    intros [= E].
    destruct (xdigits_split s 0) as (ds & Ht & Hd & Hl).
    assert (Er : snd (xdigits 0 s) = r) by (rewrite E; reflexivity).
    rewrite Er in Ht. exists ds. split; [exact Ht |].
    unfold is_number. rewrite Hd. cbn [andb].
    specialize (Hl Hs). apply Nat.leb_le in Hl. rewrite Hl. apply orb_true_r.
Qed.

Lemma scan_X_split (s : string) (v : Z) (r : string) :
  scan_X s = Converted v r ->
  exists b g n,
    s = b +:+ g +:+ n +:+ r
    /\ all_space b = true /\ is_sign g = true /\ is_number n = true.
Proof.
  unfold scan_X. destruct (skip_space_split s) as (b & Hb & Sb).
  destruct (skip_space s) as [| c t]; [discriminate |].
  destruct (code c =? 45) eqn:Em.
  - destruct (scan_magnitude t) as [[v' r'] |] eqn:E; [| discriminate].
    intros [= _ <-]. apply scan_magnitude_split in E as (n & -> & Hn).
    apply Z.eqb_eq, code_inj in Em. subst c.
    exists b, "-"%string, n. repeat split; assumption.
  - destruct (code c =? 43) eqn:Ep.
    + destruct (scan_magnitude t) as [[v' r'] |] eqn:E; [| discriminate].
      intros [= _ <-]. apply scan_magnitude_split in E as (n & -> & Hn).
      apply Z.eqb_eq, code_inj in Ep. subst c.
      exists b, "+"%string, n. repeat split; assumption.
    + destruct (scan_magnitude (String c t)) as [[v' r'] |] eqn:E; [| discriminate].
      intros [= _ <-]. apply scan_magnitude_split in E as (n & En & Hn).
      exists b, EmptyString, n. rewrite <- En. repeat split; assumption.
Qed.

(** The head of a number is a hexadecimal digit. *)
Lemma is_number_head (n : string) :
  is_number n = true -> exists c t, n = String c t /\ is_xdigit c = true.
Proof.
  unfold is_number. intros H. apply orb_true_iff in H as [H | H].
  - apply andb_true_iff in H as [H _].
    destruct n as [| c [| x t]]; try discriminate H. cbn [prefix_0x] in H.
    apply andb_true_iff in H as [H _]. apply Ascii.eqb_eq in H. subst c.
    eexists _, _. split; reflexivity.
  - apply andb_true_iff in H as [Hd Hl]. destruct n as [| c t]; [discriminate Hl |].
    cbn [all_xdigits] in Hd. apply andb_true_iff in Hd as [Hc _].
    eexists _, _. split; [reflexivity | exact Hc].
Qed.

Lemma scan_magnitude_number (n rest : string) :
  is_number n = true ->
  exists v r, scan_magnitude (n +:+ rest) = Some (v, r)
              /\ (starts_with_xdigit rest = false ->
                  (forall c, has_0x (String c rest) = false) -> r = rest).
Proof.
  intros Hn. unfold scan_magnitude.
  destruct (is_number_head n Hn) as (c & t & -> & Hc).
  destruct (has_0x (String c t +:+ rest)) eqn:H0.
  - destruct (xdigits 0 (tail2 (String c t +:+ rest))) as [v r] eqn:E.
    exists v, r. split; [reflexivity |]. intros Hr Hk.
    unfold is_number in Hn. apply orb_true_iff in Hn as [Hn | Hn].
    + apply andb_true_iff in Hn as [Hp Hd].
      destruct t as [| x t']; [discriminate Hp |]. cbn [tail2] in Hd.
      change (tail2 (String c (String x t') +:+ rest)) with (t' +:+ rest) in E.
      rewrite xdigits_field in E by assumption. injection E as _ <-. reflexivity.
    + apply andb_true_iff in Hn as [Hd _].
      destruct t as [| x t'].
      * exfalso. change (has_0x (String c rest) = true) in H0.
        rewrite (Hk c) in H0. discriminate H0.
      * exfalso.
        cbn [all_xdigits] in Hd. apply andb_true_iff in Hd as [_ Hd].
        apply andb_true_iff in Hd as [Hx _].
        destruct (xdigit_plain x Hx) as (_ & _ & _ & H1 & H2 & _).
        change (has_0x (String c (String x (t' +:+ rest))) = true) in H0.
        cbn [has_0x] in H0. rewrite H1, H2, andb_false_r in H0. discriminate H0.
  - assert (Hst : starts_with_xdigit (String c t +:+ rest) = true) by exact Hc.
    rewrite Hst.
    destruct (xdigits 0 (String c t +:+ rest)) as [v r] eqn:E.
    exists v, r. split; [reflexivity |]. intros Hr _.
    unfold is_number in Hn. apply orb_true_iff in Hn as [Hn | Hn].
    + exfalso. apply andb_true_iff in Hn as [Hp _].
      destruct t as [| x t']; [discriminate Hp |].
      rewrite has_0x_prefix in H0.
      change (prefix_0x (String c (String x (t' +:+ rest))) = false) in H0.
      cbn [prefix_0x] in H0, Hp. rewrite Hp in H0. discriminate H0.
    + apply andb_true_iff in Hn as [Hd _].
      rewrite xdigits_field in E by assumption. injection E as _ <-. reflexivity.
Qed.

Lemma is_sign_inv (g : string) :
  is_sign g = true -> g = EmptyString \/ g = "+"%string \/ g = "-"%string.
Proof.
  destruct g as [| c [| x g']]; [auto | | ].
  - destruct c as [[] [] [] [] [] [] [] []]; intros H;
      solve [discriminate H | auto].
  - destruct c as [[] [] [] [] [] [] [] []]; intros H; discriminate H.
Qed.

Lemma scan_X_blanks (b u : string) :
  all_space b = true -> scan_X (b +:+ u) = scan_X u.
Proof. intros Hb. unfold scan_X. rewrite (skip_space_blanks b u Hb). reflexivity. Qed.

Lemma scan_X_signed (negative : bool) (u : string) :
  scan_X (String (if negative then "-" else "+")%char u)
  = match scan_magnitude u with
    | Some (v, r) => Converted (wrap32 (strtoul_value negative v)) r
    | None => MatchingFailure
    end.
Proof. destruct negative; reflexivity. Qed.

Lemma scan_X_number (b g n rest : string) :
  all_space b = true -> is_sign g = true -> is_number n = true ->
  exists v r, scan_X (b +:+ g +:+ n +:+ rest) = Converted v r
              /\ (starts_with_xdigit rest = false ->
                  (forall c, has_0x (String c rest) = false) -> r = rest).
Proof.
  intros Hb Hg Hn.
  destruct (scan_magnitude_number n rest Hn) as (v & r & Hm & Hr).
  destruct (is_number_head n Hn) as (c & t & En & Hc).
  destruct (xdigit_plain c Hc) as (Hsp & Hmi & Hpl & _).
  rewrite (scan_X_blanks b _ Hb).
  destruct (is_sign_inv g Hg) as [-> | [-> | ->]].
  - change (EmptyString +:+ n +:+ rest) with (n +:+ rest).
    unfold scan_X. rewrite En in Hm |- *.
    change (String c t +:+ rest) with (String c (t +:+ rest)) in Hm |- *.
    cbn [skip_space]. rewrite Hsp, Hmi, Hpl, Hm. eauto.
  - change ("+" +:+ n +:+ rest) with (String "+" (n +:+ rest)).
    rewrite (scan_X_signed false), Hm. eauto.
  - change ("-" +:+ n +:+ rest) with (String "-" (n +:+ rest)).
    rewrite (scan_X_signed true), Hm. eauto.
Qed.

Lemma sscanf_two_iff (s : string) :
  (exists a b, sscanf_XX s = ScanTwo a b) <-> begins_with_position s.
Proof.
  split.
  - intros (a & b & H). unfold sscanf_XX in H.
    destruct (scan_X s) as [| | a' rest] eqn:E1; try discriminate H.
    destruct rest as [| c rest']; [discriminate H |].
    destruct c as [[] [] [] [] [] [] [] []]; try discriminate H.
    destruct (scan_X rest') as [| | b' r2] eqn:E2; try discriminate H.
    apply scan_X_split in E1 as (b1 & g1 & n1 & -> & Hb1 & Hg1 & Hn1).
    apply scan_X_split in E2 as (b2 & g2 & n2 & -> & Hb2 & Hg2 & Hn2).
    exists b1, g1, n1, b2, g2, n2, r2. repeat split; assumption.
  - intros (b1 & g1 & n1 & b2 & g2 & n2 & rest & -> & Hb1 & Hg1 & Hn1 & Hb2 & Hg2 & Hn2).
    destruct (scan_X_number b1 g1 n1 (String "/" (b2 +:+ g2 +:+ n2 +:+ rest))
                Hb1 Hg1 Hn1) as (a & r & Ha & Hr).
    rewrite (Hr eq_refl (fun c => andb_false_r _)) in Ha.
    destruct (scan_X_number b2 g2 n2 rest Hb2 Hg2 Hn2) as (b & r2 & Hb & _).
    exists a, b. unfold sscanf_XX. rewrite Ha, Hb. reflexivity.
Qed.

Lemma field_tail_no_0x (o tail : string) :
  all_xdigits o = true -> (1 <= String.length o)%nat ->
  continues_field o tail = false ->
  starts_with_xdigit tail = false /\ has_0x (o +:+ tail) = false.
Proof.
  intros Ho Hl Ht. destruct o as [| c [| x t]]; [cbn in Hl; lia | |].
  - destruct tail as [| y tail']; [split; reflexivity |].
    cbn [continues_field] in Ht. apply orb_false_iff in Ht as [Hy Ht].
    split; [exact Hy |].
    change (has_0x (String c (String y tail')) = false). cbn [has_0x].
    destruct (code c =? 48) eqn:E; [| reflexivity].
    apply Z.eqb_eq, code_inj in E. subst c. exact Ht.
  - split.
    + destruct tail as [| y tail']; [reflexivity |].
      cbn [continues_field] in Ht. apply orb_false_iff in Ht as [Hy _]. exact Hy.
    + cbn [all_xdigits] in Ho. apply andb_true_iff in Ho as [_ Ho].
      apply andb_true_iff in Ho as [Hx _].
      destruct (xdigit_plain x Hx) as (_ & _ & _ & H1 & H2 & _).
      change (has_0x (String c (String x (t +:+ tail))) = false).
      cbn [has_0x]. rewrite H1, H2. apply andb_false_r.
Qed.

(** Text after the second field is left unread. *)
Lemma sscanf_trailing (s tail : string) :
  well_formed_location s = true -> continues_field (second_field s) tail = false ->
  sscanf_XX (s +:+ tail) = ScanTwo (segment_of s) (offset_of s).
Proof.
  unfold well_formed_location, segment_of, offset_of, second_field. intros H Ht.
  apply andb_true_iff in H as [Hs Ho].
  destruct (after_slash s) as [o |] eqn:E; [| discriminate]. cbn [default] in Ht |- *.
  rewrite (split_at_slash s o E) at 1.
  assert (Hxs : all_xdigits (before_slash s) = true).
  { unfold hex_field in Hs. apply andb_true_iff in Hs as [Hs _].
    apply andb_true_iff in Hs as [Hs _]. exact Hs. }
  assert (Hxo : all_xdigits o = true).
  { unfold hex_field in Ho. apply andb_true_iff in Ho as [Ho _].
    apply andb_true_iff in Ho as [Ho _]. exact Ho. }
  rewrite append_assoc.
  change (String "/" o +:+ tail) with (String "/" (o +:+ tail)).
  unfold sscanf_XX.
  rewrite scan_X_field; [| assumption | reflexivity | apply field_no_0x; eauto].
  assert (Hlo : (1 <= String.length o)%nat).
  { unfold hex_field in Ho. apply andb_true_iff in Ho as [Ho _].
    apply andb_true_iff in Ho as [_ Ho]. apply Nat.leb_le, Ho. }
  destruct (field_tail_no_0x o tail Hxo Hlo Ht) as [T1 T2].
  rewrite scan_X_field; [reflexivity | assumption | exact T1 | exact T2].
Qed.

(** C5, as the code has it.  The texts [walLocationToBytes] turns down are
    exactly those that do not begin with a position as the format
    ["%X/%X"] reads one (white space, a sign and [0x] allowed before the
    digits of each field): for these it returns zero and logs one error
    line naming the text, and in an election the scan of such an answer
    logs one information line naming the text and stops nothing.  Every
    other text is converted without a word, whatever follows its second
    field; a well-formed text followed by text that does not continue the
    field converts like the well-formed text itself. *)
Theorem malformed_text_is_logged (s : string) :
  (~ begins_with_position s ->
   walLocationToBytes s
   = mkRun (Ret 0) [EvLog LOG_ERR (wrong_log_location_format s)]
   /\ forall f : frame,
        events (scan_location (Some s) f)
        = [EvLog LOG_INFO (could_not_parse_location s)]
        /\ exists f', outcome (scan_location (Some s) f) = Ret f')
  /\ (begins_with_position s ->
      (exists v, walLocationToBytes s = mkRun (Ret v) [])
      /\ forall f : frame, events (scan_location (Some s) f) = [])
  /\ (forall tail : string,
        well_formed_location s = true ->
        continues_field (second_field s) tail = false ->
        walLocationToBytes (s +:+ tail)
        = mkRun (Ret (segment_of s * 0xFF000000 + offset_of s)) []).
Proof.
  split; [| split].
  - intros N. unfold walLocationToBytes, scan_location.
    destruct (sscanf_XX s) as [| | a | a b] eqn:E;
      try (split; [reflexivity | intros f; split; [reflexivity | eexists; reflexivity]]).
    destruct N. apply sscanf_two_iff. eauto.
  - intros H. apply sscanf_two_iff in H as (a & b & E).
    unfold walLocationToBytes, scan_location. rewrite E.
    split; [eexists; reflexivity | intros f; reflexivity].
  - intros tail H Ht. unfold walLocationToBytes.
    rewrite (sscanf_trailing s tail H Ht).
    destruct (segment_range s H) as [Hs Ho].
    rewrite bytes_formula by assumption. reflexivity.
Qed.

Lemma malformed_text_is_logged_witness :
  walLocationToBytes "7/zz" = mkRun (Ret 0) [EvLog LOG_ERR (wrong_log_location_format "7/zz")]
  /\ (exists v, walLocationToBytes " +1f/-0X2 and more" = mkRun (Ret v) [])
  /\ walLocationToBytes "1/2xyz" = mkRun (Ret (1 * 0xFF000000 + 2)) [].
Proof.
  split; [| split].
  - apply (proj1 (malformed_text_is_logged "7/zz")).
    intros H. apply sscanf_two_iff in H as (a & b & H). discriminate H.
  - apply (proj1 (proj2 (malformed_text_is_logged " +1f/-0X2 and more"))).
    exists " "%string, "+"%string, "1f"%string, EmptyString, "-"%string, "0X2"%string,
      " and more"%string.
    repeat split.
  - exact (proj2 (proj2 (malformed_text_is_logged "1/2")) "xyz"%string eq_refl eq_refl).
Defined.

(** The scan as the C library at hand does it: a [0x] that no digit
    follows reads as zero; a number that does not fit 64 bits is stored as
    0xFFFFFFFF. *)
Example scan_as_the_library_does :
  walLocationToBytes "1/0x" = mkRun (Ret 0xFF000000) []
  /\ sscanf_XX "0x/0xg" = ScanTwo 0 0
  /\ sscanf_XX "10000000000000000/0" = ScanTwo 0xFFFFFFFF 0
  /\ sscanf_XX "0000000000000000A/B" = ScanTwo 10 11
  /\ sscanf_XX "1FFFFFFFF/0" = ScanTwo 0xFFFFFFFF 0.
Proof. repeat split. Qed.

(** ** Reasoning about runs *)

Lemma bind_Ret {A B} (m : run A) (k : A -> run B) (a : A) :
  outcome m = Ret a ->
  m ≫= k = mkRun (outcome (k a)) (events m ++ events (k a)).
Proof. intros H. unfold mbind, run_bind. rewrite H. reflexivity. Qed.

Lemma bind_Ret_inv {A B} (m : run A) (k : A -> run B) (b : B) :
  outcome (m ≫= k) = Ret b ->
  exists a, outcome m = Ret a /\ outcome (k a) = Ret b.
Proof.
  rewrite outcome_bind. destruct (outcome m) as [a | |]; try discriminate. eauto.
Qed.

Lemma Forall_bind {A B} (P : event -> Prop) (m : run A) (k : A -> run B) :
  Forall P (events m) ->
  (forall a, outcome m = Ret a -> Forall P (events (k a))) ->
  Forall P (events (m ≫= k)).
Proof.
  intros Hm Hk. rewrite events_bind.
  destruct (outcome m) as [a | |] eqn:E; try assumption.
  apply Forall_app. split; [assumption | apply Hk; reflexivity].
Qed.

Lemma never_exits_bind {A B} (m : run A) (k : A -> run B) :
  never_exits m -> (forall a, never_exits (k a)) -> never_exits (m ≫= k).
Proof.
  intros Hm Hk st. rewrite outcome_bind.
  destruct (outcome m) as [a | st' |] eqn:E.
  - apply Hk.
  - exfalso. exact (Hm st' E).
  - discriminate.
Qed.

Lemma never_exits_load {A} (p : place) (o : option A) (j : A) : never_exits (load p o j).
Proof. intros st. destruct o; discriminate. Qed.

Lemma Forall_load {A} (P : event -> Prop) (p : place) (o : option A) (j : A) :
  P (EvIndeterminate p) -> Forall P (events (load p o j)).
Proof. intros H. destruct o; simpl; auto. Qed.

Lemma load_returns {A} (p : place) (o : option A) (j : A) :
  exists v, outcome (load p o j) = Ret v.
Proof. destruct o; simpl; eauto. Qed.

(** ** The probing loop *)

Lemma store_cell_inv (i : nat) (g : cell -> cell) (f f' : frame) :
  outcome (store_cell i g f) = Ret f' ->
  visible_nodes f' = visible_nodes f /\ uxlogid f' = uxlogid f /\
  uxrecoff f' = uxrecoff f /\
  exists c, nodes f !! i = Some c /\ nodes f' = <[i := g c]> (nodes f).
Proof.
  unfold store_cell. destruct (nodes f !! i) as [c |] eqn:E; simpl; [| discriminate].
  intros [= <-]. simpl. eauto 6.
Qed.

Lemma store_cell_events (i : nat) (g : cell -> cell) (f : frame) :
  events (store_cell i g f) = [].
Proof. unfold store_cell. destruct (nodes f !! i); reflexivity. Qed.

Lemma never_exits_store_cell (i : nat) (g : cell -> cell) (f : frame) :
  never_exits (store_cell i g f).
Proof. intros st. unfold store_cell. destruct (nodes f !! i); discriminate. Qed.

Lemma scan_location_inv (t : option string) (f f' : frame) :
  outcome (scan_location t f) = Ret f' ->
  visible_nodes f' = visible_nodes f /\ nodes f' = nodes f.
Proof.
  unfold scan_location. destruct t as [t |]; [| discriminate].
  destruct (sscanf_XX t); simpl; intros [= <-]; auto.
Qed.

Lemma never_exits_scan_location (t : option string) (f : frame) :
  never_exits (scan_location t f).
Proof.
  intros st. unfold scan_location. destruct t as [t |]; [| discriminate].
  destruct (sscanf_XX t); discriminate.
Qed.

Lemma Forall_scan_location (P : event -> Prop) (t : option string) (f : frame) :
  (forall l m, P (EvLog l m)) -> Forall P (events (scan_location t f)).
Proof.
  intros H. unfold scan_location. destruct t as [t |]; [| constructor].
  destruct (sscanf_XX t); simpl; auto.
Qed.

Lemma load_location_returns (w : world) (f : frame) :
  exists l, outcome (load_location w f) = Ret l.
Proof.
  unfold load_location. destruct (uxlogid f), (uxrecoff f); simpl; eauto.
Qed.

Lemma never_exits_load_location (w : world) (f : frame) : never_exits (load_location w f).
Proof. intros st. destruct (load_location_returns w f) as [l E]. rewrite E. discriminate. Qed.

Lemma Forall_load_location (P : event -> Prop) (w : world) (f : frame) :
  (forall p, P (EvIndeterminate p)) -> Forall P (events (load_location w f)).
Proof.
  intros H. unfold load_location. destruct (uxlogid f), (uxrecoff f); simpl; auto.
Qed.

Lemma probe_nodes_events (w : world) (res1 : list node_row) (i : nat) (f : frame) :
  Forall probing_event (events (probe_nodes w res1 i f)).
Proof.
  assert (Hlog : forall l m, probing_event (EvLog l m)) by (intros; exact I).
  assert (Hind : forall p, probing_event (EvIndeterminate p)) by (intros; exact I).
  revert i f. induction res1 as [| row rest IH]; intros i f.
  - constructor.
  - cbn [probe_nodes].
    apply Forall_bind; [rewrite store_cell_events; constructor | intros f1 _].
    apply Forall_bind; [repeat constructor | intros _ _].
    destruct (answer w (n_conninfo row)).
    + apply IH.
    + repeat (apply Forall_bind; [repeat constructor | intros _ _]). apply IH.
    + apply Forall_bind; [repeat constructor | intros _ _].
      apply Forall_bind; [apply Forall_scan_location, Hlog | intros f2 _].
      apply Forall_bind; [apply Forall_load_location, Hind | intros l _].
      apply Forall_bind; [rewrite store_cell_events; constructor | intros f3 _].
      apply Forall_bind; [repeat constructor | intros _ _].
      apply IH.
Qed.

Lemma never_exits_probe_nodes (w : world) (res1 : list node_row) (i : nat) (f : frame) :
  never_exits (probe_nodes w res1 i f).
Proof.
  revert i f. induction res1 as [| row rest IH]; intros i f; simpl.
  - discriminate.
  - apply never_exits_bind; [apply never_exits_store_cell | intros f1].
    apply never_exits_bind; [discriminate | intros _].
    destruct (answer w (n_conninfo row)).
    + apply IH.
    + repeat (apply never_exits_bind; [discriminate | intros _]). apply IH.
    + apply never_exits_bind; [discriminate | intros _].
      apply never_exits_bind; [apply never_exits_scan_location | intros f2].
      apply never_exits_bind; [apply never_exits_load_location | intros l].
      apply never_exits_bind; [apply never_exits_store_cell | intros f3].
      apply never_exits_bind; [discriminate | intros _]. apply IH.
Qed.

(** What a completed probing loop leaves in the frame: one more visible
    node for each peer seen, and no store beyond the rows it went over. *)
Lemma probe_nodes_frame (w : world) (res1 : list node_row) (i : nat) (f f' : frame) :
  outcome (probe_nodes w res1 i f) = Ret f' ->
  visible_nodes f' = visible_nodes f + count_seen w res1
  /\ forall j, (i + length res1 <= j)%nat -> nodes f' !! j = nodes f !! j.
Proof.
  unfold count_seen.
  revert i f. induction res1 as [| row rest IH]; intros i f; simpl.
  - intros [= <-]. split; [lia | auto].
  - intros H.
    apply bind_Ret_inv in H as (f1 & Hs1 & H).
    apply store_cell_inv in Hs1 as (Hv1 & _ & _ & c1 & Hc1 & Hn1).
    apply bind_Ret_inv in H as ([] & _ & H).
    unfold seen at 1.
    destruct (answer w (n_conninfo row)) as [| | column0].
    + apply IH in H as [Hv Hn]. split; [lia |].
      intros j Hj. rewrite Hn, Hn1 by lia. apply list_lookup_insert_ne. lia.
    + apply bind_Ret_inv in H as ([] & _ & H).
      apply bind_Ret_inv in H as ([] & _ & H).
      apply bind_Ret_inv in H as ([] & _ & H).
      apply IH in H as [Hv Hn]. split; [lia |].
      intros j Hj. rewrite Hn, Hn1 by lia. apply list_lookup_insert_ne. lia.
    + apply bind_Ret_inv in H as ([] & _ & H).
      apply bind_Ret_inv in H as (f2 & Hs2 & H).
      apply scan_location_inv in Hs2 as [Hv2 Hn2].
      apply bind_Ret_inv in H as (l & _ & H).
      apply bind_Ret_inv in H as (f3 & Hs3 & H).
      apply store_cell_inv in Hs3 as (Hv3 & _ & _ & c3 & Hc3 & Hn3).
      apply bind_Ret_inv in H as ([] & _ & H).
      apply IH in H as [Hv Hn]. simpl in Hv2. simpl length. split; [lia |].
      intros j Hj. rewrite Hn, Hn3, Hn2 by lia. simpl nodes. rewrite Hn1.
      rewrite !list_lookup_insert_ne by lia. reflexivity.
Qed.

(** ** The selection loop *)

Lemma pick_best_returns (w : world) (f : frame) (count i : nat) (best : nodeInfo) :
  exists b, outcome (pick_best w f i count best) = Ret b.
Proof.
  revert i best. induction count as [| count IH]; intros i best; simpl.
  - eauto.
  - destruct (load_returns (nodes_is_ready i) (c_is_ready (cell_at f i))
                (is_ready (stack_nodes (garbage w) i))) as [ready Er].
    rewrite outcome_bind, Er.
    destruct (negb ready); [apply IH |].
    destruct (load_returns (nodes_xlog_location i) (c_xlog_location (cell_at f i))
                (junk_location w i)) as [l El].
    rewrite outcome_bind, El.
    destruct (XLByteLT (xlog_location best) l); [| apply IH].
    destruct (load_returns (nodes_nodeId i) (c_nodeId (cell_at f i))
                (nodeId (stack_nodes (garbage w) i))) as [id Ei].
    rewrite outcome_bind, Ei. apply IH.
Qed.

Lemma pick_best_events (w : world) (f : frame) (count i : nat) (best : nodeInfo) :
  Forall probing_event (events (pick_best w f i count best)).
Proof.
  revert i best. induction count as [| count IH]; intros i best; simpl.
  - constructor.
  - apply Forall_bind; [apply Forall_load; exact I | intros ready _].
    destruct (negb ready); [apply IH |].
    apply Forall_bind; [apply Forall_load; exact I | intros l _].
    destruct (XLByteLT (xlog_location best) l); [| apply IH].
    apply Forall_bind; [apply Forall_load; exact I | intros id _].
    apply IH.
Qed.

(** Every index the loop passes over has its [is_ready] member read; when
    nothing was stored there the read is an indeterminate one. *)
Lemma pick_best_reads (w : world) (f : frame) (count i j : nat) (best : nodeInfo) :
  (i <= j < i + count)%nat ->
  c_is_ready (cell_at f j) = None ->
  In (EvIndeterminate (nodes_is_ready j)) (events (pick_best w f i count best)).
Proof.
  revert i best. induction count as [| count IH]; intros i best Hj Hc; [lia |].
  cbn [pick_best].
  destruct (Nat.eq_dec i j) as [-> | Hne].
  - rewrite Hc, events_bind. simpl. left. reflexivity.
  - assert (Hj' : (S i <= j < S i + count)%nat) by lia.
    destruct (load_returns (nodes_is_ready i) (c_is_ready (cell_at f i))
                (is_ready (stack_nodes (garbage w) i))) as [ready Er].
    rewrite events_bind, Er. apply in_or_app. right.
    destruct (negb ready); [apply IH; assumption |].
    destruct (load_returns (nodes_xlog_location i) (c_xlog_location (cell_at f i))
                (junk_location w i)) as [l El].
    rewrite events_bind, El. apply in_or_app. right.
    destruct (XLByteLT (xlog_location best) l); [| apply IH; assumption].
    destruct (load_returns (nodes_nodeId i) (c_nodeId (cell_at f i))
                (nodeId (stack_nodes (garbage w) i))) as [id Ei].
    rewrite events_bind, Ei. apply in_or_app. right. apply IH; assumption.
Qed.

Lemma entry_frame_blank (j : nat) : default blank (nodes entry_frame !! j) = blank.
Proof.
  unfold entry_frame. cbn [nodes].
  destruct (replicate 50 blank !! j) as [c |] eqn:E; [| reflexivity].
  apply lookup_replicate in E as [-> _]. reflexivity.
Qed.

(** ** The election *)

Lemma do_failover_listed (d : daemon) (w : world) (l : string) :
  replay_location w = Some l -> standbys_listed w = true ->
  let res1 := list_standbys w (myLocalId d) (myClusterName d) in
  outcome (do_failover d w) = outcome (elect d w res1)
  /\ events (do_failover d w)
     = [EvExec LocalConn q_last_replay_location;
        EvExec LocalConn (q_update_standby_location l);
        EvExec LocalConn (q_list_standbys (myLocalId d) (myClusterName d))]
       ++ events (elect d w res1).
Proof.
  intros Hl Hs. unfold do_failover. rewrite Hl, Hs. rewrite !bind_emit. simpl. auto.
Qed.

Lemma never_exits_pick_best (w : world) (f : frame) (count i : nat) (best : nodeInfo) :
  never_exits (pick_best w f i count best).
Proof.
  intros st. destruct (pick_best_returns w f count i best) as [b E].
  rewrite E. discriminate.
Qed.

(** Where the probing loop runs to its end, it leaves [visible_nodes] at
    one plus the number of peers whose connection and position query both
    succeeded; the run ends with the failover-fail status exactly when
    that number is strictly below (1 + P) / 2 in integer division, and
    then no command is handed to [system]. *)
Lemma quorum_test (d : daemon) (w : world) (l : string) (f : frame) :
  replay_location w = Some l ->
  standbys_listed w = true ->
  outcome (probe_nodes w (list_standbys w (myLocalId d) (myClusterName d)) 0 entry_frame)
  = Ret f ->
  let res1 := list_standbys w (myLocalId d) (myClusterName d) in
  let total_nodes := 1 + Z.of_nat (length res1) in
  visible_nodes f = 1 + count_seen w res1
  /\ (outcome (do_failover d w) = Exit ERR_FAILOVER_FAIL
      <-> visible_nodes f < total_nodes ÷ 2)
  /\ (visible_nodes f < total_nodes ÷ 2 ->
      Forall (fun e => is_dispatch e = false) (events (do_failover d w))).
Proof.
  intros Hl Hs Hp res1 total_nodes.
  destruct (do_failover_listed d w l Hl Hs) as [Ho He]. fold res1 in Ho, He.
  pose proof (probe_nodes_frame _ _ _ _ _ Hp) as [Hv _]. fold res1 in Hv.
  split; [exact Hv |].
  rewrite Ho, He. unfold elect. fold res1. rewrite (bind_Ret _ _ f Hp).
  rewrite bind_emit. cbn [outcome events]. fold total_nodes.
  destruct (visible_nodes f <? total_nodes ÷ 2) eqn:G.
  - apply Z.ltb_lt in G. split; [split; [intros _; exact G | reflexivity] |].
    intros _. apply Forall_app. split; [repeat constructor |].
    apply Forall_app. split.
    + eapply Forall_impl; [apply probe_nodes_events |].
      intros e H. destruct e; try reflexivity. destruct H.
    + repeat constructor.
  - apply Z.ltb_ge in G. split; [| lia].
    split; [| lia]. intros H. exfalso. revert H.
    apply never_exits_bind; [discriminate | intros _].
    apply never_exits_bind; [apply never_exits_scan_location | intros f2].
    apply never_exits_bind; [apply never_exits_load_location | intros l2].
    apply never_exits_bind; [apply never_exits_pick_best | intros best].
    apply never_exits_bind; [destruct (nodeId best =? myLocalId d); discriminate |].
    intros _. discriminate.
Qed.

Lemma quorum_test_witness :
  outcome (do_failover sample_daemon partitioned_world) = Exit ERR_FAILOVER_FAIL
  /\ Forall (fun e => is_dispatch e = false)
            (events (do_failover sample_daemon partitioned_world)).
Proof.
  assert (Hp : exists f,
             outcome (probe_nodes partitioned_world
                        (list_standbys partitioned_world (myLocalId sample_daemon)
                           (myClusterName sample_daemon)) 0 entry_frame) = Ret f
             /\ visible_nodes f < (1 + 3) ÷ 2).
  { eexists. split; [vm_compute; reflexivity | vm_compute; reflexivity]. }
  destruct Hp as (f & Hp & Hlt).
  destruct (quorum_test sample_daemon partitioned_world "2/0" f eq_refl eq_refl Hp)
    as (_ & Hexit & Hquiet).
  split; [apply Hexit, Hlt | apply Hquiet, Hlt].
Defined.

(** C10. Every election that gets as far as handing a command to
    [system] has, in its selection loop, read [nodes[P].is_ready], where
    P is the number of rows listed: an element nothing was stored in (the
    probing loop stores into the elements 0 to P - 1 only). *)
Theorem selection_reads_unprobed_element (d : daemon) (w : world) (res1 : list node_row) :
  outcome (elect d w res1) = Ret tt ->
  In (EvIndeterminate (nodes_is_ready (length res1))) (events (elect d w res1)).
Proof.
  unfold elect. intros H.
  apply bind_Ret_inv in H as (f & Hp & H).
  rewrite (bind_Ret _ _ f Hp).
  cbn [events]. apply in_or_app. right.
  rewrite bind_emit in H |- *. cbn [outcome events] in H |- *.
  destruct (visible_nodes f <? (1 + Z.of_nat (length res1)) ÷ 2).
  { discriminate H. }
  right.
  rewrite bind_emit in H |- *. cbn [outcome events] in H |- *.
  right.
  apply bind_Ret_inv in H as (f2 & Hs & H).
  rewrite (bind_Ret _ _ f2 Hs). cbn [events]. apply in_or_app. right.
  apply bind_Ret_inv in H as (l & Hl & H).
  rewrite (bind_Ret _ _ l Hl). cbn [events]. apply in_or_app. right.
  destruct (pick_best_returns w f2 (S (length res1)) 0
              (mkNodeInfo (myLocalId d) l true)) as [best Hb].
  rewrite (bind_Ret _ _ best Hb). cbn [events]. apply in_or_app. left.
  apply pick_best_reads; [lia |].
  unfold cell_at.
  apply scan_location_inv in Hs as [_ ->].
  apply probe_nodes_frame in Hp as [_ Hn].
  rewrite Hn by (simpl; lia).
  rewrite entry_frame_blank. reflexivity.
Qed.

Lemma selection_reads_unprobed_element_witness :
  In (EvIndeterminate (nodes_is_ready 1))
     (events (elect sample_daemon (one_peer_world (Some "2/0") (Some "0/0"))
                [mkNode 5 "" "host=five"])).
Proof.
  apply (selection_reads_unprobed_element sample_daemon
           (one_peer_world (Some "2/0") (Some "0/0")) [mkNode 5 "" "host=five"]).
  vm_compute. reflexivity.
Defined.

Lemma bind_ext {A B} (m : run A) (k k' : A -> run B) :
  (forall a, k a = k' a) -> m ≫= k = m ≫= k'.
Proof.
  intros H. unfold mbind, run_bind. destruct (outcome m) as [a | |]; [| reflexivity ..].
  rewrite H. reflexivity.
Qed.

Lemma probe_nodes_with_replay (l : option string) (w : world) (res1 : list node_row)
      (i : nat) (f : frame) :
  probe_nodes (with_replay l w) res1 i f = probe_nodes w res1 i f.
Proof.
  revert i f. induction res1 as [| row rest IH]; intros i f; [reflexivity |].
  cbn [probe_nodes]. apply bind_ext. intros f1. apply bind_ext. intros _.
  cbn [answer with_replay].
  destruct (answer w (n_conninfo row)).
  - apply IH.
  - repeat (apply bind_ext; intros _). apply IH.
  - apply bind_ext. intros _. apply bind_ext. intros f2.
    change (load_location (with_replay l w) f2) with (load_location w f2).
    apply bind_ext. intros l2. apply bind_ext. intros f3. apply bind_ext. intros _.
    apply IH.
Qed.

Lemma pick_best_with_replay (l : option string) (w : world) (f : frame)
      (count i : nat) (best : nodeInfo) :
  pick_best (with_replay l w) f i count best = pick_best w f i count best.
Proof.
  revert i best. induction count as [| count IH]; intros i best; [reflexivity |].
  cbn [pick_best]. cbn [garbage with_replay].
  apply bind_ext. intros ready. destruct (negb ready); [apply IH |].
  change (junk_location (with_replay l w) i) with (junk_location w i).
  apply bind_ext. intros l2.
  destruct (XLByteLT (xlog_location best) l2); [| apply IH].
  apply bind_ext. intros id. apply IH.
Qed.

Lemma elect_with_replay (l : option string) (d : daemon) (w : world)
      (res1 : list node_row) :
  elect d (with_replay l w) res1 = elect d w res1.
Proof.
  unfold elect. rewrite probe_nodes_with_replay.
  apply bind_ext. intros f. apply bind_ext. intros _.
  destruct (visible_nodes f <? (1 + Z.of_nat (length res1)) ÷ 2); [reflexivity |].
  apply bind_ext. intros _. cbn [garbage with_replay].
  apply bind_ext. intros f2.
  change (load_location (with_replay l w) f2) with (load_location w f2).
  apply bind_ext. intros l2. rewrite pick_best_with_replay. reflexivity.
Qed.

(** C2. The local node's own position has no part in the selection: two
    elections that differ only in the position the local node has just
    read end alike and leave the same events, but for the text that is
    published.  The candidate the selection starts from is scanned from
    what [PQgetvalue] gives through the released [res2].  So with the
    local node at 0/0 and its only peer at 2/100 the election stops in
    [sscanf] when that read gives a null pointer, and promotes the local
    node when it gives a text that does not scan (the peer's 2/100 is
    still in the scan variables, and a tie keeps the incumbent). *)
Theorem election_ignores_local_position :
  (forall (d : daemon) (w : world) (l1 l2 : string),
      exists rest,
        events (do_failover d (with_replay (Some l1) w))
        = [EvExec LocalConn q_last_replay_location;
           EvExec LocalConn (q_update_standby_location l1)] ++ rest
        /\ events (do_failover d (with_replay (Some l2) w))
           = [EvExec LocalConn q_last_replay_location;
              EvExec LocalConn (q_update_standby_location l2)] ++ rest
        /\ outcome (do_failover d (with_replay (Some l1) w))
           = outcome (do_failover d (with_replay (Some l2) w)))
  /\ outcome (do_failover sample_daemon (one_peer_world (Some "0/0") None))
     = Crash NullString
  /\ In (EvSystem promote_command)
        (events (do_failover sample_daemon (one_peer_world (Some "0/0") (Some "zz"))))
  /\ ~ In (EvSystem follow_command)
         (events (do_failover sample_daemon (one_peer_world (Some "0/0") (Some "zz")))).
Proof.
  split.
  { intros d w l1 l2.
    unfold do_failover. cbn [replay_location with_replay standbys_listed].
    change (list_standbys (with_replay (Some l1) w)) with (list_standbys w).
    change (list_standbys (with_replay (Some l2) w)) with (list_standbys w).
    rewrite !elect_with_replay, !bind_emit. cbn [outcome events].
    eexists. split; [reflexivity |]. split; reflexivity. }
  split; [reflexivity |]. split; [find_event |].
  intros H. no_such_event H.
Qed.

(** With two peers that both answer, the probing loop reads the second
    answer at row 1 of a result that has one row: [PQgetvalue] gives a
    null pointer and the run stops in [sscanf]. *)
Example second_answer_is_read_at_row_one :
  do_failover sample_daemon two_peer_world
  = mkRun (Crash NullString)
          [EvExec LocalConn q_last_replay_location;
           EvExec LocalConn (q_update_standby_location "2/0");
           EvExec LocalConn (q_list_standbys (-1) "");
           EvConnect "host=five";
           EvExec (PeerConn "host=five") q_get_last_standby_location;
           EvFinish (PeerConn "host=five");
           EvConnect "host=seven";
           EvExec (PeerConn "host=seven") q_get_last_standby_location].
Proof. reflexivity. Qed.

(** C7, as stated, fails: when the local position cannot be read the run
    ends with the query-error status right after publishing 0/0, and
    never lists the standbys. *)
Lemma lost_position_counterexample :
  outcome (do_failover sample_daemon (one_peer_world None None)) = Exit ERR_DB_QUERY
  /\ ~ election_proceeds (do_failover sample_daemon (one_peer_world None None)).
Proof.
  split; [reflexivity |].
  intros (id & c & H). vm_compute in H.
  repeat (destruct H as [H | H]; [discriminate H |]). exact H.
Qed.

Lemma XLByteLT_zero (a : XLogRecPtr) :
  0 <= xlogid a -> 0 <= xrecoff a -> XLByteLT a (mkXLogRecPtr 0 0) = false.
Proof.
  intros H1 H2. unfold XLByteLT. cbn [xlogid xrecoff].
  apply orb_false_iff. split; [apply Z.ltb_ge; assumption |].
  apply andb_false_iff. right. apply Z.ltb_ge. assumption.
Qed.

(** C7, as the code has it. When the local position cannot be read, the
    election logs the failure, publishes the text 0/0 and exits with the
    query-error status: no standby is listed or probed and no command is
    handed to [system].  The text 0/0 scans to the position (0, 0), which
    is strictly greater than no position, so a peer that reads it back
    never replaces its best candidate by this node. *)
Theorem lost_position_is_published_as_zero (d : daemon) (w : world) :
  replay_location w = None ->
  do_failover d w
  = mkRun (Exit ERR_DB_QUERY)
          [EvExec LocalConn q_last_replay_location;
           EvLog LOG_ERR report_invalid_value;
           EvExec LocalConn (q_update_standby_location "0/0")]
  /\ sscanf_XX "0/0" = ScanTwo 0 0
  /\ forall best : XLogRecPtr,
       0 <= xlogid best -> 0 <= xrecoff best ->
       XLByteLT best (mkXLogRecPtr 0 0) = false.
Proof.
  intros H. unfold do_failover. rewrite H.
  split; [reflexivity |]. split; [reflexivity |]. exact XLByteLT_zero.
Qed.

Lemma lost_position_is_published_as_zero_witness :
  do_failover sample_daemon (one_peer_world None None)
  = mkRun (Exit ERR_DB_QUERY)
          [EvExec LocalConn q_last_replay_location;
           EvLog LOG_ERR report_invalid_value;
           EvExec LocalConn (q_update_standby_location "0/0")].
Proof.
  exact (proj1 (lost_position_is_published_as_zero sample_daemon
                  (one_peer_world None None) eq_refl)).
Defined.

(** C5, as stated, fails twice.  A text that goes on after its second
    field is not well formed, and [walLocationToBytes] converts it without
    a word.  And a peer whose answer does not scan is still entered as a
    ready candidate, with whatever the scan variables held (here the 9s
    of the stack, not 0/0), and here wins the election. *)
Lemma malformed_location_counterexample :
  (well_formed_location "1/2xyz" = false
   /\ walLocationToBytes "1/2xyz" = mkRun (Ret (0xFF000000 + 2)) [])
  /\ (well_formed_location "" = false
      /\ (exists f,
            outcome (probe_nodes null_position_world [mkNode 5 "" "host=five"] 0
                       entry_frame) = Ret f
            /\ nodes f !! 0%nat
               = Some (mkCell (Some 5) (Some (mkXLogRecPtr 9 9)) (Some true)))
      /\ In (EvSystem follow_command)
            (events (do_failover sample_daemon null_position_world))).
Proof.
  split; [split; reflexivity |].
  split; [reflexivity |]. split.
  - eexists. split; [vm_compute; reflexivity | reflexivity].
  - vm_compute. tauto.
Qed.

(** ** What each part of the daemon leaves in the trace *)

Lemma probing_is_failover (id : Z) (c : string) (e : event) :
  probing_event e -> failover_event id c e.
Proof. destruct e as [| | | | | [] | [] [] | | | |]; simpl; tauto. Qed.

Lemma monitoring_is_daemon (id : Z) (c : string) (e : event) :
  monitoring_event id c e -> daemon_event id c e.
Proof.
  destruct e as [| | | | | [] | [] [] | ? [] | | |]; simpl; tauto.
Qed.

Lemma daemon_event_listing (id : Z) (c : string) (e : event) :
  daemon_event id c e -> listing_names id c e.
Proof.
  destruct e as [| | | | | [] | [] [] | ? [] | | |]; simpl; tauto.
Qed.

Lemma failover_is_election (id : Z) (c : string) (e : event) :
  failover_event id c e -> election_event e.
Proof.
  destruct e as [| | | | | [] | [] [] | ? [] | | |]; simpl; tauto.
Qed.

Lemma elect_events (d : daemon) (w : world) (res1 : list node_row) :
  Forall (failover_event (myLocalId d) (myClusterName d)) (events (elect d w res1)).
Proof.
  set (P := failover_event (myLocalId d) (myClusterName d)).
  assert (Hp : forall l, Forall probing_event l -> Forall P l).
  { intros l H. eapply Forall_impl; [exact H |]. apply probing_is_failover. }
  unfold elect.
  apply Forall_bind; [apply Hp, probe_nodes_events | intros f _].
  apply Forall_bind; [repeat constructor | intros _ _].
  destruct (visible_nodes f <? (1 + Z.of_nat (length res1)) ÷ 2).
  { apply Forall_bind; [repeat constructor | intros _ _]. constructor. }
  apply Forall_bind; [repeat constructor | intros _ _].
  apply Forall_bind; [apply Hp, Forall_scan_location; intros; exact I | intros f2 _].
  apply Forall_bind; [apply Hp, Forall_load_location; intros; exact I | intros l _].
  apply Forall_bind; [apply Hp, pick_best_events | intros best _].
  apply Forall_bind.
  - destruct (nodeId best =? myLocalId d); repeat constructor.
  - intros _ _. repeat constructor.
Qed.

Lemma do_failover_events (d : daemon) (w : world) :
  Forall (failover_event (myLocalId d) (myClusterName d)) (events (do_failover d w)).
Proof.
  unfold do_failover.
  apply Forall_bind; [repeat constructor | intros _ _].
  destruct (replay_location w) as [l |].
  - apply Forall_bind; [repeat constructor | intros _ _].
    apply Forall_bind; [constructor; [split; reflexivity | constructor] | intros _ _].
    destruct (standbys_listed w).
    + apply elect_events.
    + apply Forall_bind; [repeat constructor | intros _ _].
      apply Forall_bind; [repeat constructor | intros _ _]. constructor.
  - apply Forall_bind; [repeat constructor | intros _ _].
    apply Forall_bind; [repeat constructor | intros _ _]. constructor.
Qed.

(** *** The configuration is never touched *)

Lemma same_config_refl (d : daemon) : same_config d d.
Proof. repeat split. Qed.

Lemma same_config_trans (d1 d2 d3 : daemon) :
  same_config d1 d2 -> same_config d2 d3 -> same_config d1 d3.
Proof.
  intros (A1 & A2 & A3 & A4) (B1 & B2 & B3 & B4).
  repeat split; congruence.
Qed.

Lemma same_config_set_pending (n : nat) (d : daemon) : same_config d (set_pending n d).
Proof. repeat split. Qed.

Lemma same_config_set_primary (id : Z) (d : daemon) : same_config d (set_primary id d).
Proof. repeat split. Qed.

Lemma retry_primary_config (t : tick) (left k : nat) (d d' : daemon) (r : nat) :
  outcome (retry_primary t k left d) = Ret (d', r) -> same_config d d'.
Proof.
  revert k d. induction left as [| left IH]; intros k d; cbn [retry_primary].
  - intros [= <- _]. apply same_config_refl.
  - destruct (status_after t k).
    + intros H. apply bind_Ret_inv in H as (_ & _ & H).
      injection H as <- _. apply same_config_refl.
    + intros H.
      apply bind_Ret_inv in H as (_ & _ & H).
      apply bind_Ret_inv in H as (_ & _ & H).
      apply bind_Ret_inv in H as (_ & _ & H).
      apply IH in H. eapply same_config_trans; [apply (same_config_set_pending 0) | exact H].
Qed.

Lemma retry_primary_events (t : tick) (left k : nat) (d : daemon) :
  Forall supervisor_event (events (retry_primary t k left d)).
Proof.
  revert k d. induction left as [| left IH]; intros k d; cbn [retry_primary].
  - constructor.
  - destruct (status_after t k).
    + apply Forall_bind; [| intros _ _; constructor].
      destruct (0 <? k)%nat; repeat constructor.
    + repeat (apply Forall_bind; [repeat constructor | intros _ _]). apply IH.
Qed.

Lemma rediscover_config (t : tick) (left k : nat) (d d' : daemon) :
  outcome (rediscover t k left d) = Ret (Some d') -> same_config d d'.
Proof.
  revert k d. induction left as [| left IH]; intros k d; cbn [rediscover].
  - discriminate.
  - intros H. apply bind_Ret_inv in H as (_ & _ & H).
    destruct (discovered t k) as [id |].
    + apply bind_Ret_inv in H as (_ & _ & H). injection H as <-.
      apply same_config_set_primary.
    + apply bind_Ret_inv in H as (_ & _ & H).
      apply bind_Ret_inv in H as (_ & _ & H).
      apply IH in H. eapply same_config_trans; [apply (same_config_set_pending 0) | exact H].
Qed.

Lemma rediscover_events (t : tick) (left k : nat) (d : daemon) :
  Forall supervisor_event (events (rediscover t k left d)).
Proof.
  revert k d. induction left as [| left IH]; intros k d; cbn [rediscover].
  - constructor.
  - apply Forall_bind; [repeat constructor | intros _ _].
    destruct (discovered t k) as [id |].
    + apply Forall_bind; [repeat constructor | intros _ _]. constructor.
    + repeat (apply Forall_bind; [repeat constructor | intros _ _]). apply IH.
Qed.

Lemma supervisor_is_supervising (id : Z) (c : string) (e : event) :
  supervisor_event e -> supervising_event id c e.
Proof. destruct e; simpl; tauto. Qed.

Lemma failover_is_supervising (id : Z) (c : string) (e : event) :
  failover_event id c e -> supervising_event id c e.
Proof.
  destruct e as [| | | | | [] | [] [] | ? [] | | |]; simpl; tauto.
Qed.

Lemma supervising_is_monitoring (id : Z) (c : string) (e : event) :
  supervising_event id c e -> monitoring_event id c e.
Proof.
  destruct e as [| | | | | [] | [] [] | ? [] | | |]; simpl; tauto.
Qed.

Lemma check_primary_config (t : tick) (d d' : daemon) :
  outcome (check_primary t d) = Ret d' -> same_config d d'.
Proof.
  unfold check_primary. intros H.
  apply bind_Ret_inv in H as ([d1 r] & H1 & H).
  apply retry_primary_config in H1.
  destruct (status_after t r).
  - injection H as <-. exact H1.
  - destruct (failover (local_options d1)).
    + apply bind_Ret_inv in H as (_ & _ & H).
      apply bind_Ret_inv in H as (found & Hf & H).
      destruct found as [d2 |].
      * injection H as <-. apply rediscover_config in Hf.
        eapply same_config_trans; eassumption.
      * apply bind_Ret_inv in H as (_ & _ & H). discriminate H.
    + apply bind_Ret_inv in H as (_ & _ & H). injection H as <-. exact H1.
Qed.

Lemma check_primary_events (t : tick) (d : daemon) :
  Forall (supervising_event (myLocalId d) (myClusterName d)) (events (check_primary t d)).
Proof.
  set (P := supervising_event (myLocalId d) (myClusterName d)).
  assert (Hs : forall l, Forall supervisor_event l -> Forall P l).
  { intros l H. eapply Forall_impl; [exact H |]. apply supervisor_is_supervising. }
  unfold check_primary.
  apply Forall_bind; [apply Hs, retry_primary_events | intros [d1 r] H1].
  apply retry_primary_config in H1 as (E1 & E2 & _).
  destruct (status_after t r); [constructor |].
  destruct (failover (local_options d1)).
  - apply Forall_bind; [repeat constructor | intros _ _].
    apply Forall_bind; [apply Hs, rediscover_events | intros found _].
    destruct found; [constructor |].
    apply Forall_bind; [repeat constructor | intros _ _]. constructor.
  - apply Forall_bind; [| intros _ _; constructor].
    eapply Forall_impl; [apply do_failover_events |].
    rewrite E1, E2. apply failover_is_supervising.
Qed.

Lemma walLocationToBytes_events (s : string) :
  Forall (fun e => exists m, e = EvLog LOG_ERR m) (events (walLocationToBytes s)).
Proof.
  unfold walLocationToBytes.
  destruct (sscanf_XX s); repeat constructor; eauto.
Qed.

Lemma walLocationToBytes_returns (s : string) :
  outcome (walLocationToBytes s) = Ret (bytes_of s).
Proof.
  unfold bytes_of, walLocationToBytes. destruct (sscanf_XX s); reflexivity.
Qed.

Lemma CancelQuery_config (stops : bool) (d d' : daemon) :
  outcome (CancelQuery stops d) = Ret d' -> same_config d d'.
Proof.
  unfold CancelQuery. destruct stops; cbn; intros [= <-];
    [apply same_config_set_pending | apply same_config_refl].
Qed.

Lemma CancelQuery_events (id : Z) (c : string) (stops : bool) (d : daemon) :
  Forall (monitoring_event id c) (events (CancelQuery stops d)).
Proof. unfold CancelQuery. destruct stops; cbn; repeat constructor. Qed.

Lemma CloseConnections_events (id : Z) (c : string) (busy stops : bool) (d : daemon) :
  Forall (monitoring_event id c) (events (CloseConnections busy stops d)).
Proof.
  unfold CloseConnections.
  apply Forall_bind.
  - destruct busy; [apply CancelQuery_events | constructor].
  - intros _ _. apply Forall_bind; [repeat constructor | intros _ _].
    destruct (myLocalMode d); repeat constructor.
Qed.

Lemma sample_config (t : tick) (d d' : daemon) :
  outcome (sample t d) = Ret d' -> same_config d d'.
Proof.
  unfold sample. intros H.
  apply bind_Ret_inv in H as (d1 & H1 & H).
  assert (C1 : same_config d d1).
  { destruct (PQisBusy t d); [apply CancelQuery_config in H1; exact H1 |].
    injection H1 as <-. apply same_config_refl. }
  apply bind_Ret_inv in H as (_ & _ & H).
  destruct (local_positions t) as [[[ts received] applied] |].
  2:{ apply bind_Ret_inv in H as (_ & _ & H). injection H as <-. exact C1. }
  apply bind_Ret_inv in H as (_ & _ & H).
  assert (C2 : same_config d (set_pending 0 d1)).
  { eapply same_config_trans; [exact C1 | apply same_config_set_pending]. }
  destruct (primary_location t) as [primary |].
  2:{ apply bind_Ret_inv in H as (_ & _ & H). injection H as <-. exact C2. }
  apply bind_Ret_inv in H as (b1 & _ & H).
  apply bind_Ret_inv in H as (b2 & _ & H).
  apply bind_Ret_inv in H as (b3 & _ & H).
  apply bind_Ret_inv in H as (_ & _ & H).
  destruct (send_accepted t).
  - injection H as <-.
    eapply same_config_trans; [exact C2 | apply same_config_set_pending].
  - apply bind_Ret_inv in H as (_ & _ & H). injection H as <-. exact C2.
Qed.

Lemma sample_events (id : Z) (c : string) (t : tick) (d : daemon) :
  Forall (monitoring_event id c) (events (sample t d)).
Proof.
  assert (Hw : forall s, Forall (monitoring_event id c) (events (walLocationToBytes s))).
  { intros s. eapply Forall_impl; [apply walLocationToBytes_events |].
    intros e [m ->]. exact I. }
  unfold sample.
  apply Forall_bind.
  { destruct (PQisBusy t d); [apply CancelQuery_events | constructor]. }
  intros d1 _.
  apply Forall_bind; [repeat constructor | intros _ _].
  destruct (local_positions t) as [[[ts received] applied] |].
  2:{ apply Forall_bind; [repeat constructor | intros _ _]. constructor. }
  apply Forall_bind; [repeat constructor | intros _ _].
  destruct (primary_location t) as [primary |].
  2:{ apply Forall_bind; [repeat constructor | intros _ _]. constructor. }
  apply Forall_bind; [apply Hw | intros b1 _].
  apply Forall_bind; [apply Hw | intros b2 _].
  apply Forall_bind; [apply Hw | intros b3 _].
  apply Forall_bind; [repeat constructor | intros _ _].
  destruct (send_accepted t); [constructor |].
  apply Forall_bind; [repeat constructor | intros _ _]. constructor.
Qed.

Lemma MonitorExecute_config (t : tick) (d d' : daemon) :
  outcome (MonitorExecute t d) = Ret d' -> same_config d d'.
Proof.
  unfold MonitorExecute. intros H.
  apply bind_Ret_inv in H as (d1 & H1 & H).
  apply check_primary_config in H1.
  destruct (is_standby t).
  - apply sample_config in H. eapply same_config_trans; eassumption.
  - apply bind_Ret_inv in H as (_ & _ & H).
    apply bind_Ret_inv in H as (_ & _ & H). discriminate H.
Qed.

Lemma MonitorExecute_events (t : tick) (d : daemon) :
  Forall (monitoring_event (myLocalId d) (myClusterName d)) (events (MonitorExecute t d)).
Proof.
  unfold MonitorExecute.
  apply Forall_bind.
  { eapply Forall_impl; [apply check_primary_events |]. apply supervising_is_monitoring. }
  intros d1 H1.
  destruct (is_standby t); [apply sample_events |].
  apply Forall_bind; [repeat constructor | intros _ _].
  apply Forall_bind; [apply CloseConnections_events | intros _ _]. constructor.
Qed.

Lemma MonitorCheck_config (ticks : list tick) (d d' : daemon) :
  outcome (MonitorCheck ticks d) = Ret d' -> same_config d d'.
Proof.
  revert d. induction ticks as [| t rest IH]; intros d; cbn [MonitorCheck].
  - intros [= <-]. apply same_config_refl.
  - intros H. apply bind_Ret_inv in H as (d1 & H1 & H).
    apply MonitorExecute_config in H1.
    apply bind_Ret_inv in H as (_ & _ & H). apply IH in H.
    eapply same_config_trans; eassumption.
Qed.

Lemma MonitorCheck_events (ticks : list tick) (d : daemon) :
  Forall (monitoring_event (myLocalId d) (myClusterName d)) (events (MonitorCheck ticks d)).
Proof.
  revert d. induction ticks as [| t rest IH]; intros d; cbn [MonitorCheck].
  - constructor.
  - apply Forall_bind; [apply MonitorExecute_events | intros d1 H1].
    apply MonitorExecute_config in H1 as (E1 & E2 & _).
    apply Forall_bind; [repeat constructor | intros _ _].
    rewrite <- E1, <- E2. apply IH.
Qed.

Lemma checkClusterConfiguration_events (id : Z) (c : string) (b : boot) (d : daemon) :
  Forall (daemon_event id c) (events (checkClusterConfiguration b d)).
Proof.
  assert (Hc : Forall (daemon_event id c) (events (CloseConnections false false d))).
  { eapply Forall_impl; [apply (CloseConnections_events id c) |].
    apply monitoring_is_daemon. }
  unfold checkClusterConfiguration.
  apply Forall_bind; [repeat constructor | intros _ _].
  apply Forall_bind; [repeat constructor | intros _ _].
  destruct (negb (tables_query_ok b)).
  { apply Forall_bind; [repeat constructor | intros _ _].
    apply Forall_bind; [exact Hc | intros _ _]. constructor. }
  destruct (negb (tables_found b)); [| constructor].
  apply Forall_bind; [repeat constructor | intros _ _].
  apply Forall_bind; [exact Hc | intros _ _]. constructor.
Qed.

Lemma checkNodeConfiguration_events (id : Z) (c : string) (e : registration)
      (d : daemon) (db : node_tables) :
  Forall (daemon_event id c) (events (checkNodeConfiguration e d db)).
Proof.
  assert (Hc : Forall (daemon_event id c) (events (CloseConnections false false d))).
  { eapply Forall_impl; [apply (CloseConnections_events id c) |].
    apply monitoring_is_daemon. }
  unfold checkNodeConfiguration.
  apply Forall_bind; [repeat constructor | intros _ _].
  apply Forall_bind; [repeat constructor | intros _ _].
  destruct (negb (select_ok e)).
  { apply Forall_bind; [repeat constructor | intros _ _].
    apply Forall_bind; [exact Hc | intros _ _]. constructor. }
  destruct (select_node _ _ _); [| constructor].
  apply Forall_bind; [repeat constructor | intros _ _].
  apply Forall_bind; [repeat constructor | intros _ _].
  destruct (inserted e).
  - apply Forall_bind; [repeat constructor | intros _ _].
    apply Forall_bind; [exact Hc | intros _ _]. constructor.
  - apply Forall_bind; [repeat constructor | intros _ _]. constructor.
  - apply Forall_bind; [repeat constructor | intros _ _]. constructor.
Qed.

(** Whatever the configuration file says, every event of the daemon is
    one of a daemon whose [myLocalId] is -1 and whose [myClusterName] is
    empty: [main] stores the configuration in [local_options] only. *)
Lemma main_events (b : boot) (db : node_tables) :
  Forall (daemon_event (-1) EmptyString) (events (main b db)).
Proof.
  set (P := daemon_event (-1) EmptyString).
  unfold main.
  destruct (node (local_options (set_local_options (parsed b) at_load)) =? -1).
  { apply Forall_bind; [repeat constructor | intros _ _]. constructor. }
  apply Forall_bind; [repeat constructor | intros _ _].
  apply Forall_bind; [repeat constructor | intros _ _].
  apply Forall_bind; [repeat constructor | intros _ _].
  destruct (negb (version_ok b)).
  { apply Forall_bind; [repeat constructor | intros _ _].
    apply Forall_bind; [repeat constructor | intros _ _]. constructor. }
  set (d0 := set_mode (if standby b then STANDBY_MODE else PRIMARY_MODE)
                      (set_local_options (parsed b) at_load)).
  apply Forall_bind.
  { destruct (myLocalMode d0); [| constructor].
    apply Forall_bind; [repeat constructor | intros _ _].
    apply Forall_bind; [repeat constructor | intros _ _].
    destruct (master b); [constructor |].
    apply Forall_bind; [repeat constructor | intros _ _]. constructor. }
  intros d1 H1.
  assert (E : myLocalId d1 = -1 /\ myClusterName d1 = EmptyString).
  { destruct (myLocalMode d0).
    - apply bind_Ret_inv in H1 as (_ & _ & H1).
      apply bind_Ret_inv in H1 as (_ & _ & H1).
      destruct (master b).
      + injection H1 as <-. split; reflexivity.
      + apply bind_Ret_inv in H1 as (_ & _ & H1). discriminate H1.
    - injection H1 as <-. split; reflexivity. }
  destruct E as [E1 E2].
  apply Forall_bind; [apply checkClusterConfiguration_events | intros _ _].
  apply Forall_bind; [apply checkNodeConfiguration_events | intros db1 _].
  destruct (myLocalMode d1).
  - apply Forall_bind; [repeat constructor | intros _ _].
    apply Forall_bind; [| intros d2 _; constructor].
    eapply Forall_impl; [apply MonitorCheck_events |].
    rewrite E1, E2. apply monitoring_is_daemon.
  - apply Forall_bind; [repeat constructor | intros _ _].
    apply Forall_bind; [repeat constructor | intros _ _]. constructor.
Qed.

(** [sample_daemon] is the state in which [main] enters the loop. *)
Example main_builds_sample_daemon :
  outcome (main (sample_boot []) registry_tables) = Ret (sample_daemon, registry_tables).
Proof. reflexivity. Qed.

(** C6. The listing statement of an election never names the configured
    node or cluster: in every run of the daemon it excludes node -1 and
    asks for the cluster with the empty name, the values [myLocalId] and
    [myClusterName] are loaded with.  For node 2 of the cluster test, with
    the standbys 2 and 3 registered for test and a standby 4 registered
    under the empty name, the election contacts node 4 and never node 3,
    the one standby it was meant to ask. *)
Theorem election_lists_by_defaults :
  (forall (b : boot) (db : node_tables),
      Forall (listing_names (-1) EmptyString) (events (main b db)))
  /\ intended_peers sample_options registry_world = [mkNode 3 "test" "host=three"]
  /\ list_standbys registry_world (myLocalId sample_daemon) (myClusterName sample_daemon)
     = [mkNode 4 "" "host=four"]
  /\ In (EvConnect "host=four")
        (events (main (sample_boot [lost_primary_tick registry_world]) registry_tables))
  /\ ~ In (EvConnect "host=three")
         (events (main (sample_boot [lost_primary_tick registry_world]) registry_tables)).
Proof.
  split.
  { intros b db. eapply Forall_impl; [apply main_events |]. apply daemon_event_listing. }
  split; [reflexivity |]. split; [reflexivity |]. split.
  - find_event.
  - intros H. no_such_event H.
Qed.

(** ** The recorded lag *)

Lemma In_events_bind {A B} (e : event) (m : run A) (k : A -> run B) :
  In e (events (m ≫= k)) ->
  In e (events m) \/ exists a, outcome m = Ret a /\ In e (events (k a)).
Proof.
  rewrite events_bind. destruct (outcome m) as [a | |]; auto.
  intros H. apply in_app_or in H as [H | H]; eauto.
Qed.

Lemma In_events_emit {B} (e e' : event) (k : unit -> run B) :
  In e (events (emit e' ≫= k)) -> e = e' \/ In e (events (k tt)).
Proof. rewrite bind_emit. cbn [events]. intros [H | H]; auto. Qed.

Lemma Forall_In {A} (P : A -> Prop) (l : list A) (x : A) :
  Forall P l -> In x l -> P x.
Proof.
  induction 1 as [| y l Hy _ IH]; intros H; [destruct H |].
  destruct H as [<- | H]; [exact Hy | exact (IH H)].
Qed.

Lemma walLocationToBytes_no_send (s : string) (a : bool) (q : query) :
  ~ In (EvSend a q) (events (walLocationToBytes s)).
Proof.
  intros H. destruct (Forall_In _ _ _ (walLocationToBytes_events s) H) as [m E].
  discriminate E.
Qed.

Lemma CloseConnections_no_send (busy stops : bool) (d : daemon) (a : bool) (q : query) :
  ~ In (EvSend a q) (events (CloseConnections busy stops d)).
Proof.
  unfold CloseConnections, CancelQuery. intros H.
  destruct busy, stops, (myLocalMode d); cbn in H;
    repeat (destruct H as [H | H]; [discriminate H |]); exact H.
Qed.

Lemma sample_sends (t : tick) (d : daemon) (a : bool) (row : monitor_row) :
  In (EvSend a (q_insert_monitor row)) (events (sample t d)) ->
  exists ts received applied primary,
    local_positions t = Some (ts, received, applied)
    /\ primary_location t = Some primary
    /\ m_primary_location row = primary
    /\ m_standby_received row = received
    /\ m_behind_receive row = lag (bytes_of primary) (bytes_of received)
    /\ m_behind_apply row = lag (bytes_of received) (bytes_of applied).
Proof.
  unfold sample. intros H.
  apply In_events_bind in H as [H | (d1 & _ & H)].
  { exfalso. destruct (PQisBusy t d); [| destruct H].
    unfold CancelQuery in H. destruct (cancel_stops t); cbn in H;
      repeat (destruct H as [H | H]; [discriminate H |]); exact H. }
  apply In_events_emit in H as [H | H]; [discriminate H |].
  destruct (local_positions t) as [[[ts received] applied] |].
  2:{ exfalso. cbn in H. destruct H as [H | H]; [discriminate H | exact H]. }
  apply In_events_emit in H as [H | H]; [discriminate H |].
  destruct (primary_location t) as [primary |].
  2:{ exfalso. cbn in H. destruct H as [H | H]; [discriminate H | exact H]. }
  rewrite (bind_Ret _ _ _ (walLocationToBytes_returns primary)) in H.
  cbn [events] in H. apply in_app_or in H as [H | H].
  { exfalso. exact (walLocationToBytes_no_send _ _ _ H). }
  rewrite (bind_Ret _ _ _ (walLocationToBytes_returns received)) in H.
  cbn [events] in H. apply in_app_or in H as [H | H].
  { exfalso. exact (walLocationToBytes_no_send _ _ _ H). }
  rewrite (bind_Ret _ _ _ (walLocationToBytes_returns applied)) in H.
  cbn [events] in H. apply in_app_or in H as [H | H].
  { exfalso. exact (walLocationToBytes_no_send _ _ _ H). }
  apply In_events_emit in H as [H | H].
  - injection H as _ Hrow. subst row. cbn. exists ts, received, applied, primary.
    repeat split; reflexivity.
  - exfalso. destruct (send_accepted t); cbn in H; [exact H |].
    destruct H as [H | H]; [discriminate H | exact H].
Qed.

(** C4, as stated, fails where the difference does not fit a signed
    64-bit integer: with the primary at FFFFFFFF/0 and the standby at 0/0
    the row carries a negative lag although the primary is ahead. *)
Lemma lag_counterexample :
  exists row,
    In (EvSend true (q_insert_monitor row))
       (events (MonitorExecute (quiet_tick "FFFFFFFF/0" "0/0") sample_daemon))
    /\ m_behind_receive row = -72057598316118016
    /\ bytes_of "FFFFFFFF/0" - bytes_of "0/0" = 18374686475393433600.
Proof.
  eexists. split; [find_event |]. split; reflexivity.
Qed.

(** ** Registration *)

Lemma select_node_app (id : Z) (c : string) (l1 l2 : list node_row) :
  select_node id c (l1 ++ l2) = select_node id c l1 ++ select_node id c l2.
Proof. unfold select_node. apply List.filter_app. Qed.

Lemma select_node_own (o : t_configuration_options) :
  select_node (node o) (cluster_name o) [mkNode (node o) (cluster_name o) (conninfo o)]
  = [mkNode (node o) (cluster_name o) (conninfo o)].
Proof.
  unfold select_node. cbn [List.filter n_id n_cluster].
  rewrite Z.eqb_refl, String.eqb_refl. reflexivity.
Qed.

Lemma local_view_replay (d : daemon) (db : node_tables) :
  local_view d (replay db) = primary_copy db.
Proof. unfold local_view, replay. destruct (myLocalMode d); reflexivity. Qed.

(** A run of the check on a table in which the local view shows a row for
    the node: nothing is inserted, the tables stay as they are. *)
Lemma checkNodeConfiguration_present (e : registration) (d : daemon) (db : node_tables)
      (r : node_row) (rs : list node_row) :
  select_ok e = true ->
  select_node (node (local_options d)) (cluster_name (local_options d)) (local_view d db)
  = r :: rs ->
  checkNodeConfiguration e d db
  = mkRun (Ret db)
          [EvLog LOG_INFO (checking_node (node (local_options d))
                                         (cluster_name (local_options d)));
           EvExec LocalConn (q_select_node (node (local_options d))
                                           (cluster_name (local_options d)))].
Proof.
  intros Hs Hr. unfold checkNodeConfiguration. rewrite Hs, Hr. reflexivity.
Qed.

(** C9, as the code has it. Take a table in which the view through the
    local connection agrees with the primary's copy (always so on the
    primary itself), and let the statements succeed.  The check returns;
    once the standby has replayed what the check wrote, a second run
    inserts nothing and leaves the tables as they are; the primary then
    holds as many rows for the node as before, and one if it held none:
    exactly one whenever it started with at most one. *)
Theorem registration_twice (e : registration) (d : daemon) (db : node_tables) :
  select_ok e = true ->
  inserted e = InsertDone ->
  local_view d db = primary_copy db ->
  exists db1,
    outcome (checkNodeConfiguration e d db) = Ret db1
    /\ outcome (checkNodeConfiguration e d (replay db1)) = Ret (replay db1)
    /\ Forall (fun ev => is_insert_node ev = false)
              (events (checkNodeConfiguration e d (replay db1)))
    /\ rows_for (local_options d) (primary_copy (replay db1))
       = Nat.max 1 (rows_for (local_options d) (primary_copy db))
    /\ ((rows_for (local_options d) (primary_copy db) <= 1)%nat ->
        rows_for (local_options d) (primary_copy (replay db1)) = 1%nat).
Proof.
  intros Hs Hi Hv.
  set (o := local_options d).
  set (row := mkNode (node o) (cluster_name o) (conninfo o)).
  destruct (select_node (node o) (cluster_name o) (local_view d db)) as [| r rs] eqn:E.
  - exists (insert_node row db).
    assert (E2 : select_node (node o) (cluster_name o) (local_view d (replay (insert_node row db)))
                 = [row]).
    { rewrite local_view_replay. cbn [insert_node primary_copy].
      rewrite select_node_app, <- Hv, E. apply select_node_own. }
    split.
    { unfold checkNodeConfiguration. fold o. rewrite Hs, E, Hi. reflexivity. }
    rewrite (checkNodeConfiguration_present e d _ row [] Hs E2).
    split; [reflexivity |]. split; [repeat constructor |].
    assert (R : rows_for o (primary_copy (replay (insert_node row db))) = 1%nat).
    { unfold rows_for. cbn [replay primary_copy insert_node].
      rewrite select_node_app, <- Hv, E. unfold row. rewrite select_node_own.
      reflexivity. }
    assert (R0 : rows_for o (primary_copy db) = 0%nat).
    { unfold rows_for. rewrite <- Hv, E. reflexivity. }
    rewrite R, R0. split; [reflexivity | intros _; reflexivity].
  - exists db.
    assert (E2 : select_node (node o) (cluster_name o) (local_view d (replay db)) = r :: rs).
    { rewrite local_view_replay, <- Hv. exact E. }
    split; [rewrite (checkNodeConfiguration_present e d db r rs Hs E); reflexivity |].
    rewrite (checkNodeConfiguration_present e d _ r rs Hs E2).
    split; [reflexivity |]. split; [repeat constructor |].
    assert (R : rows_for o (primary_copy db) = S (length rs)).
    { unfold rows_for. rewrite <- Hv, E. reflexivity. }
    cbn [replay primary_copy]. rewrite R. split; lia.
Qed.

Lemma registration_twice_witness :
  exists db1,
    outcome (checkNodeConfiguration (mkRegistration true InsertDone) sample_daemon
               (mkTables [] [])) = Ret db1
    /\ rows_for sample_options (primary_copy (replay db1)) = 1%nat.
Proof.
  destruct (registration_twice (mkRegistration true InsertDone) sample_daemon
              (mkTables [] []) eq_refl eq_refl eq_refl)
    as (db1 & H1 & _ & _ & _ & H5).
  exists db1. split; [exact H1 |]. apply H5. vm_compute. lia.
Defined.

(** C9, as stated, fails on a standby that has not yet replayed the first
    insert: the second run sees no row through the local connection,
    inserts again, and the primary holds two rows for the node. *)
Lemma registration_counterexample :
  exists db1 db2,
    outcome (checkNodeConfiguration (mkRegistration true InsertDone) sample_daemon
               (mkTables [] [])) = Ret db1
    /\ outcome (checkNodeConfiguration (mkRegistration true InsertDone) sample_daemon db1)
       = Ret db2
    /\ In (EvExec PrimaryConn (q_insert_node (mkNode 2 "test" "host=two")))
          (events (checkNodeConfiguration (mkRegistration true InsertDone)
                     sample_daemon db1))
    /\ rows_for sample_options (primary_copy db1) = 1%nat
    /\ rows_for sample_options (primary_copy db2) = 2%nat.
Proof.
  eexists. eexists. split; [vm_compute; reflexivity |].
  split; [vm_compute; reflexivity |].
  split; [find_event |]. split; reflexivity.
Qed.

(** ** The pipeline to the primary *)

Lemma depth_from_app (n : nat) (l1 l2 : list event) :
  depth_from n (l1 ++ l2) = depth_from (depth_from n l1) l2.
Proof. unfold depth_from. apply fold_left_app. Qed.

Lemma orderly_app (n : nat) (l1 l2 : list event) :
  orderly n (l1 ++ l2) <-> orderly n l1 /\ orderly (depth_from n l1) l2.
Proof.
  revert n. induction l1 as [| e l1 IH]; intros n.
  - simpl. tauto.
  - change ((e :: l1) ++ l2) with (e :: (l1 ++ l2)). cbn [orderly].
    change (depth_from n (e :: l1)) with (depth_from (step_depth n e) l1).
    rewrite IH. tauto.
Qed.

Lemma quiet_depth (n : nat) (l : list event) :
  Forall quiet_on_primary l -> depth_from n l = n /\ orderly n l.
Proof.
  induction 1 as [| e l He _ IH]; [split; [reflexivity | exact I] |].
  change (depth_from n (e :: l)) with (depth_from (step_depth n e) l).
  cbn [orderly].
  assert (E : step_depth n e = n).
  { destruct e as [| | | | | | [] | [] | [] | |]; try reflexivity; destruct He. }
  rewrite E. destruct IH as [IH1 IH2]. repeat split; try assumption.
  destruct e as [| | | | | | | [] | | |]; try exact I. destruct He.
Qed.

Lemma sendless_orderly (n : nat) (l : list event) :
  Forall sends_nothing l -> orderly n l.
Proof.
  intros H. revert n. induction H as [| e l He _ IH]; intros n; [exact I |].
  cbn [orderly]. split; [| apply IH].
  destruct e as [| | | | | | | [] | | |]; try exact I. destruct He.
Qed.

Lemma sendless_depth_zero (l : list event) :
  Forall sends_nothing l -> depth_from 0 l = 0%nat.
Proof.
  induction 1 as [| e l He _ IH]; [reflexivity |].
  change (depth_from 0 (e :: l)) with (depth_from (step_depth 0 e) l).
  replace (step_depth 0 e) with 0%nat; [exact IH |].
  destruct e as [| | | | | | [] | [] | [] | |]; try reflexivity. destruct He.
Qed.

Lemma orderly_bounded (n : nat) (l : list event) :
  (n <= 1)%nat -> orderly n l ->
  (forall k, (depth_from n (take k l) <= 1)%nat)
  /\ (forall k q, l !! k = Some (EvSend true q) -> depth_from n (take k l) = 0%nat).
Proof.
  revert n. induction l as [| e l IH]; intros n Hn Ho.
  - split; [intros k; destruct k; exact Hn | intros k q H; destruct k; discriminate H].
  - cbn [orderly] in Ho. destruct Ho as [He Ho].
    assert (Hs : (step_depth n e <= 1)%nat).
    { destruct e as [| | | | | | [] | [] | [] | |]; cbn; try lia. }
    destruct (IH _ Hs Ho) as [IH1 IH2]. split.
    + intros [| k]; [exact Hn |]. exact (IH1 k).
    + intros [| k] q H.
      * injection H as ->. exact He.
      * exact (IH2 k q H).
Qed.

Lemma follows_bind {A B} (n : nat) (m : run A) (k : A -> run B)
      (pm : A -> nat) (pk : B -> nat) :
  follows n m pm ->
  (forall a, outcome m = Ret a -> follows (pm a) (k a) pk) ->
  follows n (m ≫= k) pk.
Proof.
  intros [Hm1 Hm2] Hk. unfold follows.
  rewrite events_bind, outcome_bind.
  destruct (outcome m) as [a | |] eqn:E.
  - destruct (Hk a eq_refl) as [Hk1 Hk2]. rewrite (Hm2 a eq_refl) in Hk1, Hk2.
    split; [apply orderly_app; auto |].
    intros b Hb. rewrite depth_from_app. apply Hk2, Hb.
  - split; [exact Hm1 | discriminate].
  - split; [exact Hm1 | discriminate].
Qed.

Lemma follows_ret {A} (n : nat) (a : A) (pend : A -> nat) :
  pend a = n -> follows n (mret a) pend.
Proof. intros H. split; [exact I |]. intros a' [= <-]. exact H. Qed.

Lemma follows_emit (n : nat) (e : event) (pend : unit -> nat) :
  match e with EvSend true _ => n = 0%nat | _ => True end ->
  pend tt = step_depth n e ->
  follows n (emit e) pend.
Proof.
  intros H1 H2. split; [cbn [emit events orderly]; auto |].
  intros [] _. exact H2.
Qed.

Lemma follows_quiet {A} (n : nat) (r : run A) :
  Forall quiet_on_primary (events r) -> follows n r (fun _ => n).
Proof.
  intros H. destruct (quiet_depth n _ H) as [H1 H2].
  split; [exact H2 | intros a _; symmetry; exact H1].
Qed.

Lemma follows_stop {A} (n : nat) (r : run A) (pend : A -> nat) :
  orderly n (events r) -> (forall a, outcome r <> Ret a) -> follows n r pend.
Proof. intros H1 H2. split; [exact H1 |]. intros a Ha. destruct (H2 a Ha). Qed.

Lemma election_is_quiet (e : event) : election_event e -> quiet_on_primary e.
Proof. destruct e as [| | | | | | [] | [] | [] | |]; simpl; tauto. Qed.

Lemma follows_do_failover (n : nat) (d : daemon) (w : world) :
  follows n (do_failover d w) (fun _ => n).
Proof.
  apply follows_quiet.
  eapply Forall_impl; [apply do_failover_events |].
  intros e H. eapply election_is_quiet, failover_is_election, H.
Qed.

Lemma follows_log (n : nat) (l : level) (m : message) :
  follows n (emit (EvLog l m)) (fun _ => n).
Proof. apply follows_emit; [exact I | reflexivity]. Qed.

Lemma follows_walLocationToBytes (n : nat) (s : string) :
  follows n (walLocationToBytes s) (fun _ => n).
Proof.
  apply follows_quiet. eapply Forall_impl; [apply walLocationToBytes_events |].
  intros e [m ->]. exact I.
Qed.

Lemma follows_retry_primary (t : tick) (left k : nat) (d : daemon) :
  follows (pending_of d) (retry_primary t k left d) (fun p => pending_of (fst p)).
Proof.
  revert k d. induction left as [| left IH]; intros k d; cbn [retry_primary].
  - apply follows_ret. reflexivity.
  - destruct (status_after t k).
    + eapply follows_bind with (pm := fun _ => pending_of d).
      * destruct (0 <? k)%nat; [apply follows_log | apply follows_ret; reflexivity].
      * intros ? _; cbv beta. apply follows_ret. reflexivity.
    + eapply follows_bind; [apply follows_log | intros ? _; cbv beta].
      eapply follows_bind with (pm := fun _ => pending_of d);
        [apply follows_emit; [exact I | reflexivity] | intros ? _; cbv beta].
      eapply follows_bind with (pm := fun _ => 0%nat);
        [apply follows_emit; [exact I | reflexivity] | intros ? _; cbv beta].
      apply (IH (S k) (set_pending 0 d)).
Qed.

Lemma follows_rediscover (t : tick) (left k : nat) (d : daemon) :
  exists pend,
    follows (pending_of d) (rediscover t k left d) pend
    /\ forall d', pend (Some d') = pending_of d'.
Proof.
  revert k d. induction left as [| left IH]; intros k d; cbn [rediscover].
  - exists (fun o => match o with Some d' => pending_of d' | None => pending_of d end).
    split; [apply follows_ret; reflexivity | reflexivity].
  - destruct (discovered t k) as [id |].
    + exists (fun o => match o with Some d' => pending_of d' | None => 0%nat end).
      split; [| reflexivity].
      eapply follows_bind with (pm := fun _ => 0%nat);
        [apply follows_emit; [exact I | reflexivity] | intros ? _; cbv beta].
      eapply follows_bind; [apply follows_log | intros ? _; cbv beta].
      apply follows_ret. reflexivity.
    + destruct (IH (S k) (set_pending 0 d)) as (pend & Hp & Hs).
      exists pend. split; [| exact Hs].
      eapply follows_bind with (pm := fun _ => 0%nat);
        [apply follows_emit; [exact I | reflexivity] | intros ? _; cbv beta].
      eapply follows_bind; [apply follows_log | intros ? _; cbv beta].
      eapply follows_bind with (pm := fun _ => 0%nat);
        [apply follows_emit; [exact I | reflexivity] | intros ? _; cbv beta].
      exact Hp.
Qed.

Lemma follows_check_primary (t : tick) (d : daemon) :
  follows (pending_of d) (check_primary t d) pending_of.
Proof.
  unfold check_primary.
  eapply follows_bind; [apply follows_retry_primary | intros [d1 r] _; cbv beta].
  cbn [fst].
  destruct (status_after t r); [apply follows_ret; reflexivity |].
  destruct (failover (local_options d1)).
  - eapply follows_bind; [apply follows_log | intros ? _; cbv beta].
    destruct (follows_rediscover t 6 0 d1) as (pend & Hp & Hs).
    eapply follows_bind; [exact Hp | intros found _; cbv beta].
    destruct found as [d2 |].
    + apply follows_ret. symmetry. apply Hs.
    + apply follows_stop; [cbn; auto |].
      intros x. rewrite outcome_bind. cbn. discriminate.
  - eapply follows_bind; [apply follows_do_failover | intros ? _; cbv beta].
    apply follows_ret. reflexivity.
Qed.

Lemma follows_CancelQuery (stops : bool) (d : daemon) :
  follows (pending_of d) (CancelQuery stops d) pending_of.
Proof.
  unfold CancelQuery. destruct stops.
  - eapply follows_bind with (pm := fun _ => 0%nat);
      [apply follows_emit; [exact I | reflexivity] | intros ? _; cbv beta].
    apply follows_ret. reflexivity.
  - eapply follows_bind with (pm := fun _ => pending_of d);
      [apply follows_emit; [exact I | reflexivity] | intros ? _; cbv beta].
    eapply follows_bind; [apply follows_log | intros ? _; cbv beta].
    apply follows_ret. reflexivity.
Qed.

Lemma follows_sample (t : tick) (d : daemon) :
  follows (pending_of d) (sample t d) pending_of.
Proof.
  unfold sample.
  eapply follows_bind with (pm := pending_of).
  { destruct (PQisBusy t d); [apply follows_CancelQuery | apply follows_ret; reflexivity]. }
  intros d1 _.
  eapply follows_bind with (pm := fun _ => pending_of d1);
    [apply follows_emit; [exact I | reflexivity] | intros ? _; cbv beta].
  destruct (local_positions t) as [[[ts received] applied] |].
  2:{ eapply follows_bind; [apply follows_log | intros ? _; cbv beta]. apply follows_ret. reflexivity. }
  eapply follows_bind with (pm := fun _ => 0%nat);
    [apply follows_emit; [exact I | reflexivity] | intros ? _; cbv beta].
  destruct (primary_location t) as [primary |].
  2:{ eapply follows_bind; [apply follows_log | intros ? _; cbv beta]. apply follows_ret. reflexivity. }
  eapply follows_bind; [apply follows_walLocationToBytes | intros b1 _; cbv beta].
  eapply follows_bind; [apply follows_walLocationToBytes | intros b2 _; cbv beta].
  eapply follows_bind; [apply follows_walLocationToBytes | intros b3 _; cbv beta].
  destruct (send_accepted t).
  - eapply follows_bind with (pm := fun _ => 1%nat);
      [apply follows_emit; reflexivity | intros ? _; cbv beta].
    apply follows_ret. reflexivity.
  - eapply follows_bind with (pm := fun _ => 0%nat);
      [apply follows_emit; [exact I | reflexivity] | intros ? _; cbv beta].
    eapply follows_bind; [apply follows_log | intros ? _; cbv beta].
    apply follows_ret. reflexivity.
Qed.

Lemma orderly_CloseConnections (n : nat) (busy stops : bool) (d : daemon) :
  orderly n (events (CloseConnections busy stops d)).
Proof.
  apply sendless_orderly. unfold CloseConnections, CancelQuery.
  destruct busy, stops, (myLocalMode d); cbn; repeat constructor.
Qed.

Lemma follows_MonitorExecute (t : tick) (d : daemon) :
  follows (pending_of d) (MonitorExecute t d) pending_of.
Proof.
  unfold MonitorExecute.
  eapply follows_bind; [apply follows_check_primary | intros d1 _; cbv beta].
  destruct (is_standby t); [apply follows_sample |].
  eapply follows_bind; [apply follows_log | intros ? _; cbv beta].
  apply follows_stop.
  - rewrite events_bind.
    destruct (outcome (CloseConnections (PQisBusy t d1) (cancel_stops t) d1));
      [rewrite app_nil_r | |]; apply orderly_CloseConnections.
  - intros x. rewrite outcome_bind.
    destruct (outcome (CloseConnections (PQisBusy t d1) (cancel_stops t) d1)); discriminate.
Qed.

Lemma follows_MonitorCheck (ticks : list tick) (d : daemon) :
  follows (pending_of d) (MonitorCheck ticks d) pending_of.
Proof.
  revert d. induction ticks as [| t rest IH]; intros d; cbn [MonitorCheck].
  - apply follows_ret. reflexivity.
  - eapply follows_bind; [apply follows_MonitorExecute | intros d1 _; cbv beta].
    eapply follows_bind with (pm := fun _ => pending_of d1);
      [apply follows_emit; [exact I | reflexivity] | intros ? _; cbv beta].
    apply IH.
Qed.

Lemma follows_sendless {A} (r : run A) :
  Forall sends_nothing (events r) -> follows 0 r (fun _ => 0%nat).
Proof.
  intros H. split; [apply sendless_orderly, H |].
  intros a _. symmetry. apply sendless_depth_zero, H.
Qed.

Lemma checkClusterConfiguration_sendless (b : boot) (d : daemon) :
  Forall sends_nothing (events (checkClusterConfiguration b d)).
Proof.
  unfold checkClusterConfiguration, CloseConnections.
  destruct (tables_query_ok b), (tables_found b), (myLocalMode d); cbn;
    repeat constructor.
Qed.

Lemma checkNodeConfiguration_sendless (e : registration) (d : daemon) (db : node_tables) :
  Forall sends_nothing (events (checkNodeConfiguration e d db)).
Proof.
  unfold checkNodeConfiguration, CloseConnections.
  destruct (select_ok e), (select_node _ _ _), (inserted e), (myLocalMode d); cbn;
    repeat constructor.
Qed.

Lemma follows_main (b : boot) (db : node_tables) :
  follows 0 (main b db) (fun p => pending_of (fst p)).
Proof.
  unfold main.
  destruct (node (local_options (set_local_options (parsed b) at_load)) =? -1).
  { apply follows_stop; [cbn; auto | intros x; discriminate]. }
  eapply follows_bind; [apply follows_log | intros ? _; cbv beta].
  eapply follows_bind with (pm := fun _ => 0%nat);
    [apply follows_emit; [exact I | reflexivity] | intros ? _; cbv beta].
  eapply follows_bind; [apply follows_log | intros ? _; cbv beta].
  destruct (negb (version_ok b)).
  { apply follows_stop; [cbn; auto | intros x; discriminate]. }
  set (d0 := set_mode (if standby b then STANDBY_MODE else PRIMARY_MODE)
                      (set_local_options (parsed b) at_load)).
  eapply follows_bind with (pm := pending_of).
  { destruct (myLocalMode d0); [| apply follows_ret; reflexivity].
    eapply follows_bind; [apply follows_log | intros ? _; cbv beta].
    eapply follows_bind with (pm := fun _ => 0%nat);
      [apply follows_emit; [exact I | reflexivity] | intros ? _; cbv beta].
    destruct (master b); [apply follows_ret; reflexivity |].
    apply follows_stop; [cbn; auto | intros x; discriminate]. }
  intros d1 H1. 
  assert (E : pending_of d1 = 0%nat).
  { destruct (myLocalMode d0).
    - apply bind_Ret_inv in H1 as (? & _ & H1).
      apply bind_Ret_inv in H1 as (? & _ & H1).
      destruct (master b).
      + injection H1 as <-. reflexivity.
      + apply bind_Ret_inv in H1 as (? & _ & H1). discriminate H1.
    - injection H1 as <-. reflexivity. }
  rewrite E.
  eapply follows_bind;
    [apply follows_sendless, checkClusterConfiguration_sendless | intros ? _; cbv beta].
  eapply follows_bind;
    [apply follows_sendless, checkNodeConfiguration_sendless | intros db1 _; cbv beta].
  destruct (myLocalMode d1).
  - eapply follows_bind; [apply follows_log | intros ? _; cbv beta].
    eapply follows_bind with (pm := pending_of).
    + rewrite <- E. apply follows_MonitorCheck.
    + intros d2 _. apply follows_ret. reflexivity.
  - eapply follows_bind; [apply follows_log | intros ? _; cbv beta].
    eapply follows_bind with (pm := fun _ => 0%nat);
      [apply follows_emit; [exact I | reflexivity] | intros ? _; cbv beta].
    apply follows_ret. exact E.
Qed.

(** C8. In every run of the daemon, at every point of it, at most one
    insert is pending on the connection to the primary; every insert that
    libpq accepts is sent when none is pending; and a tick that finds the
    connection busy calls [CancelQuery] before anything else it does on
    the way to its own insert. *)
Theorem pipeline_depth (b : boot) (db : node_tables) :
  (forall k, (depth (take k (events (main b db))) <= 1)%nat)
  /\ (forall k q,
        events (main b db) !! k = Some (EvSend true q) ->
        depth (take k (events (main b db))) = 0%nat)
  /\ (forall (t : tick) (d : daemon),
        PQisBusy t d = true ->
        exists rest, events (sample t d) = EvCancel (cancel_stops t) :: rest).
Proof.
  destruct (follows_main b db) as [Ho _].
  destruct (orderly_bounded 0 _ (Nat.le_0_l 1) Ho) as [H1 H2].
  split; [exact H1 |]. split; [exact H2 |].
  intros t d Hb. unfold sample. rewrite Hb. unfold CancelQuery.
  rewrite events_bind, outcome_bind.
  destruct (cancel_stops t); cbn; eauto.
Qed.

(* ===================================================================== *)
(** * Further properties *)
(* ===================================================================== *)

(** ** The probing loop, continued *)

Lemma returns_bind {A B} (m : run A) (k : A -> run B) :
  returns (m ≫= k) <-> exists a, outcome m = Ret a /\ returns (k a).
Proof.
  unfold returns. split.
  - intros [b H]. apply bind_Ret_inv in H as (a & Ha & Hb). eauto.
  - intros (a & Ha & b & Hb). exists b. rewrite outcome_bind, Ha. exact Hb.
Qed.

Lemma returns_emit {B} (e : event) (k : unit -> run B) :
  returns (emit e ≫= k) <-> returns (k tt).
Proof.
  rewrite returns_bind. split.
  - intros ([] & _ & H). exact H.
  - intros H. exists tt. split; [reflexivity | exact H].
Qed.

Lemma store_cell_returns (i : nat) (g : cell -> cell) (f : frame) :
  (i < length (nodes f))%nat ->
  exists f', outcome (store_cell i g f) = Ret f'
             /\ length (nodes f') = length (nodes f)
             /\ nodes f' !! i = Some (g (default blank (nodes f !! i)))
             /\ visible_nodes f' = visible_nodes f.
Proof.
  intros H. unfold store_cell.
  destruct (lookup_lt_is_Some_2 (nodes f) i H) as [c Hc]. rewrite Hc.
  eexists. split; [reflexivity |]. cbn [nodes visible_nodes].
  rewrite length_insert, list_lookup_insert_eq by exact H. auto.
Qed.

Lemma store_cell_fails (i : nat) (g : cell -> cell) (f : frame) :
  (length (nodes f) <= i)%nat -> outcome (store_cell i g f) = Crash (StoreOutOfBounds i).
Proof.
  intros H. unfold store_cell. rewrite (lookup_ge_None_2 (nodes f) i H). reflexivity.
Qed.

Lemma store_cell_length (i : nat) (g : cell -> cell) (f f' : frame) :
  outcome (store_cell i g f) = Ret f' -> length (nodes f') = length (nodes f).
Proof.
  intros H. apply store_cell_inv in H as (_ & _ & _ & c & _ & ->).
  apply length_insert.
Qed.

Lemma scan_location_returns (t : option string) (f : frame) :
  returns (scan_location t f) <-> is_Some t.
Proof.
  unfold returns, scan_location. destruct t as [t |].
  - split; [eauto |]. intros _. destruct (sscanf_XX t); cbn; eauto.
  - split; [intros [f' H]; discriminate H | intros [x H]; discriminate H].
Qed.

Lemma probing_completes_from (w : world) (rows : list node_row) (i : nat) (f : frame) :
  length (nodes f) = 50%nat -> (i <= 50)%nat ->
  returns (probe_nodes w rows i f)
  <-> (i + length rows <= 50)%nat
      /\ forall j row column0,
           rows !! j = Some row ->
           answer w (n_conninfo row) = Tuples column0 ->
           is_Some (PQgetvalue0 column0 (i + j)).
Proof.
  revert i f. induction rows as [| row rest IH]; intros i f Hf Hi.
  - cbn [probe_nodes length]. split.
    + intros _. split; [lia |]. intros j r c H. destruct j; discriminate H.
    + intros _. exists f. reflexivity.
  - cbn [probe_nodes length]. split.
    + intros H. apply returns_bind in H as (f1 & H1 & H).
      assert (Hlt : (i < 50)%nat).
      { destruct (Nat.lt_ge_cases i 50) as [L | L]; [exact L |].
        rewrite store_cell_fails in H1 by lia. discriminate H1. }
      pose proof (store_cell_length _ _ _ _ H1) as L1. rewrite Hf in L1.
      apply returns_emit in H.
      assert (Hrest : forall f2, length (nodes f2) = 50%nat ->
                 returns (probe_nodes w rest (S i) f2) ->
                 (i + S (length rest) <= 50)%nat
                 /\ forall j r c, rest !! j = Some r ->
                      answer w (n_conninfo r) = Tuples c ->
                      is_Some (PQgetvalue0 c (i + S j))).
      { intros f2 L2 R. apply (IH (S i) f2 L2 Hlt) in R as [R1 R2].
        split; [lia |]. intros j r c Hj Ha.
        rewrite Nat.add_succ_r. exact (R2 j r c Hj Ha). }
      destruct (answer w (n_conninfo row)) as [| | column0] eqn:Ea.
      * destruct (Hrest f1 L1 H) as [R1 R2]. split; [exact R1 |].
        intros [| j] r c Hj Ha.
        -- injection Hj as <-. rewrite Ea in Ha. discriminate Ha.
        -- exact (R2 j r c Hj Ha).
      * apply returns_emit in H. apply returns_emit in H. apply returns_emit in H.
        destruct (Hrest f1 L1 H) as [R1 R2]. split; [exact R1 |].
        intros [| j] r c Hj Ha.
        -- injection Hj as <-. rewrite Ea in Ha. discriminate Ha.
        -- exact (R2 j r c Hj Ha).
      * apply returns_emit in H.
        apply returns_bind in H as (f2 & H2 & H).
        assert (S2 : is_Some (PQgetvalue0 column0 i)).
        { apply (scan_location_returns _ (count_visible f1)). exists f2. exact H2. }
        apply scan_location_inv in H2 as [_ N2].
        apply returns_bind in H as (l & _ & H).
        apply returns_bind in H as (f3 & H3 & H).
        pose proof (store_cell_length _ _ _ _ H3) as L3.
        rewrite N2 in L3. cbn [count_visible nodes] in L3. rewrite L1 in L3.
        apply returns_emit in H.
        destruct (Hrest f3 L3 H) as [R1 R2]. split; [exact R1 |].
        intros [| j] r c Hj Ha.
        -- injection Hj as <-. rewrite Ea in Ha. injection Ha as <-.
           rewrite Nat.add_0_r. exact S2.
        -- exact (R2 j r c Hj Ha).
    + intros [Hlen Hrows].
      assert (Hlt : (i < 50)%nat) by lia.
      assert (Hrest : forall f2, length (nodes f2) = 50%nat ->
                 returns (probe_nodes w rest (S i) f2)).
      { intros f2 L2. apply (IH (S i) f2 L2 Hlt). split; [lia |].
        intros j r c Hj Ha. replace (S i + j)%nat with (i + S j)%nat by lia.
        exact (Hrows (S j) r c Hj Ha). }
      destruct (store_cell_returns i
                  (fun c => mkCell (c_nodeId c) (c_xlog_location c) (Some false)) f)
        as (f1 & H1 & L1 & _); [lia |].
      rewrite Hf in L1.
      apply returns_bind. exists f1. split; [exact H1 |].
      apply returns_emit.
      destruct (answer w (n_conninfo row)) as [| | column0] eqn:Ea.
      * apply Hrest, L1.
      * do 3 apply returns_emit. apply Hrest, L1.
      * apply returns_emit.
        assert (S2 : is_Some (PQgetvalue0 column0 i)).
        { rewrite <- (Nat.add_0_r i). exact (Hrows 0%nat row column0 eq_refl Ea). }
        apply (scan_location_returns _ (count_visible f1)) in S2 as [f2 H2].
        apply returns_bind. exists f2. split; [exact H2 |].
        apply scan_location_inv in H2 as [_ N2].
        destruct (load_location_returns w f2) as [l Hl].
        apply returns_bind. exists l. split; [exact Hl |].
        destruct (store_cell_returns i
                    (fun _ => mkCell (Some (n_id row)) (Some l) (Some true)) f2)
          as (f3 & H3 & L3 & _).
        { rewrite N2. cbn [count_visible nodes]. lia. }
        apply returns_bind. exists f3. split; [exact H3 |].
        apply returns_emit. apply Hrest.
        rewrite L3, N2. exact L1.
Qed.

(** X1. With at most 50 standbys listed, as many as [nodes] holds, the
    probing loop of an election runs to its end exactly when every peer
    that answers the position query has, in its answer, a row at the
    peer's own index in the listing: for a missing row [sscanf] is handed
    a null pointer. *)
Theorem probing_completes (w : world) (res1 : list node_row) :
  (length res1 <= 50)%nat ->
  returns (probe_nodes w res1 0 entry_frame)
  <-> forall (i : nat) (row : node_row) (column0 : list string),
        res1 !! i = Some row ->
        answer w (n_conninfo row) = Tuples column0 ->
        is_Some (PQgetvalue0 column0 i).
Proof.
  intros Hlen.
  pose proof (probing_completes_from w res1 0 entry_frame) as H.
  cbn [Nat.add] in H. rewrite H.
  - split; [intros [_ R]; exact R | intros R; split; [exact Hlen | exact R]].
  - unfold entry_frame. cbn [nodes]. apply length_replicate.
  - lia.
Qed.

Lemma probing_completes_witness :
  returns (probe_nodes first_peer_world (repl_nodes first_peer_world) 0 entry_frame)
  /\ ~ returns (probe_nodes two_peer_world (repl_nodes two_peer_world) 0 entry_frame).
Proof.
  split.
  - apply (probing_completes first_peer_world (repl_nodes first_peer_world));
      [cbn; lia |].
    intros [| [| [| i]]] row c Hi Ha; try discriminate Hi;
      injection Hi as <-; try discriminate Ha.
    injection Ha as <-. eexists; reflexivity.
  - intros H.
    assert (Hlen : (length (repl_nodes two_peer_world) <= 50)%nat) by (cbn; lia).
    destruct (proj1 (probing_completes two_peer_world _ Hlen) H
                1%nat (mkNode 7 "" "host=seven") ["1/FFFFFFFF"] eq_refl eq_refl)
      as [x Hx].
    discriminate Hx.
Defined.

Lemma omap_none {B} (g : event -> option B) (l : list event) :
  Forall (fun e => g e = None) l -> omap g l = [].
Proof.
  induction 1 as [| e l He _ IH]; [reflexivity |].
  cbn. rewrite He. exact IH.
Qed.

Lemma omap_scan_location {B} (g : event -> option B) (t : option string) (f : frame) :
  (forall l m, g (EvLog l m) = None) -> omap g (events (scan_location t f)) = [].
Proof. intros H. apply omap_none, Forall_scan_location, H. Qed.

Lemma omap_load_location {B} (g : event -> option B) (w : world) (f : frame) :
  (forall p, g (EvIndeterminate p) = None) -> omap g (events (load_location w f)) = [].
Proof. intros H. apply omap_none, Forall_load_location, H. Qed.

Lemma probe_nodes_trace {B} (g : event -> option B) (w : world)
    (res1 : list node_row) (i : nat) (f f' : frame) :
  (forall l m, g (EvLog l m) = None) ->
  (forall p, g (EvIndeterminate p) = None) ->
  outcome (probe_nodes w res1 i f) = Ret f' ->
  omap g (events (probe_nodes w res1 i f))
  = flat_map
      (fun row =>
         omap g
           (EvConnect (n_conninfo row)
            :: if connected w row
               then [EvExec (PeerConn (n_conninfo row)) q_get_last_standby_location;
                     EvFinish (PeerConn (n_conninfo row))]
               else []))
      res1.
Proof.
  intros Hlog Hind. revert i f.
  induction res1 as [| row rest IH]; intros i f H; [reflexivity |].
  cbn [probe_nodes flat_map] in H |- *.
  apply bind_Ret_inv in H as (f1 & H1 & H).
  rewrite (bind_Ret _ _ f1 H1). cbn [events]. rewrite store_cell_events. cbn [app].
  rewrite bind_emit in H |- *. cbn [outcome events] in H |- *.
  destruct (answer w (n_conninfo row)) as [| | column0] eqn:Ea.
  - replace (connected w row) with false by (unfold connected; rewrite Ea; reflexivity).
    rewrite <- (IH _ _ H).
    change (EvConnect (n_conninfo row) :: events (probe_nodes w rest (S i) f1))
      with ([EvConnect (n_conninfo row)] ++ events (probe_nodes w rest (S i) f1)).
    apply omap_app.
  - replace (connected w row) with true by (unfold connected; rewrite Ea; reflexivity).
    unfold log_info in H |- *. rewrite !bind_emit in H |- *. cbn [outcome events] in H |- *.
    rewrite <- (IH _ _ H). cbn.
    rewrite Hlog.
    destruct (g (EvConnect (n_conninfo row))),
             (g (EvExec (PeerConn (n_conninfo row)) q_get_last_standby_location)),
             (g (EvFinish (PeerConn (n_conninfo row)))); reflexivity.
  - replace (connected w row) with true by (unfold connected; rewrite Ea; reflexivity).
    rewrite bind_emit in H |- *. cbn [outcome events] in H |- *.
    apply bind_Ret_inv in H as (f2 & H2 & H). rewrite (bind_Ret _ _ f2 H2).
    apply bind_Ret_inv in H as (l & Hl & H). rewrite (bind_Ret _ _ l Hl).
    apply bind_Ret_inv in H as (f3 & H3 & H). rewrite (bind_Ret _ _ f3 H3).
    rewrite bind_emit in H |- *. cbn [outcome events] in H |- *.
    rewrite store_cell_events. cbn [app].
    rewrite <- (IH _ _ H).
    change (EvConnect (n_conninfo row)
            :: EvExec (PeerConn (n_conninfo row)) q_get_last_standby_location
            :: events (scan_location (PQgetvalue0 column0 i) (count_visible f1))
               ++ events (load_location w f2)
               ++ EvFinish (PeerConn (n_conninfo row))
                  :: events (probe_nodes w rest (S i) f3))
      with ([EvConnect (n_conninfo row);
             EvExec (PeerConn (n_conninfo row)) q_get_last_standby_location]
            ++ events (scan_location (PQgetvalue0 column0 i) (count_visible f1))
            ++ events (load_location w f2)
            ++ [EvFinish (PeerConn (n_conninfo row))]
            ++ events (probe_nodes w rest (S i) f3)).
    rewrite !omap_app.
    rewrite (omap_scan_location g _ _ Hlog), (omap_load_location g _ _ Hind).
    cbn.
    destruct (g (EvConnect (n_conninfo row))),
             (g (EvExec (PeerConn (n_conninfo row)) q_get_last_standby_location)),
             (g (EvFinish (PeerConn (n_conninfo row)))); reflexivity.
Qed.

Lemma flat_map_singletons {A B} (h : A -> B) (l : list A) :
  flat_map (fun a => [h a]) l = map h l.
Proof. induction l as [| a l IH]; [reflexivity |]. cbn. rewrite IH. reflexivity. Qed.

Lemma flat_map_filtered {A B} (p : A -> bool) (h : A -> B) (l : list A) :
  flat_map (fun a => if p a then [h a] else []) l = map h (List.filter p l).
Proof.
  induction l as [| a l IH]; [reflexivity |].
  cbn. destruct (p a); cbn; rewrite IH; reflexivity.
Qed.

(** X2. A probing loop that runs to its end opens one connection per
    listed standby, in the order of the listing; it asks exactly the peers
    whose connection was established for their position, and calls
    [PQfinish] on exactly those: the handle of a peer that cannot be
    reached is never finished. *)
Theorem probing_closes_what_it_opened (w : world) (res1 : list node_row) (i : nat)
    (f f' : frame) :
  outcome (probe_nodes w res1 i f) = Ret f' ->
  connects (events (probe_nodes w res1 i f)) = map n_conninfo res1
  /\ peers_asked (events (probe_nodes w res1 i f))
     = map n_conninfo (List.filter (connected w) res1)
  /\ peers_finished (events (probe_nodes w res1 i f))
     = map n_conninfo (List.filter (connected w) res1).
Proof.
  intros H. unfold connects, peers_asked, peers_finished.
  rewrite !(probe_nodes_trace _ w res1 i f f') by (reflexivity || exact H).
  split; [| split].
  - rewrite <- flat_map_singletons. apply flat_map_ext. intros row.
    destruct (connected w row); reflexivity.
  - rewrite <- flat_map_filtered. apply flat_map_ext. intros row.
    destruct (connected w row); reflexivity.
  - rewrite <- flat_map_filtered. apply flat_map_ext. intros row.
    destruct (connected w row); reflexivity.
Qed.

Lemma probing_closes_what_it_opened_witness :
  exists f',
    outcome (probe_nodes first_peer_world (repl_nodes first_peer_world) 0 entry_frame)
    = Ret f'
    /\ connects (events (probe_nodes first_peer_world (repl_nodes first_peer_world) 0
                           entry_frame))
       = ["host=five"; "host=six"; "host=seven"]
    /\ peers_finished (events (probe_nodes first_peer_world (repl_nodes first_peer_world)
                                 0 entry_frame))
       = ["host=five"; "host=seven"].
Proof.
  eexists. split; [reflexivity |].
  destruct (probing_closes_what_it_opened first_peer_world
              (repl_nodes first_peer_world) 0 entry_frame _ eq_refl) as (H1 & _ & H3).
  split; [exact H1 | exact H3].
Defined.

(** ** What the probing loop leaves in [nodes] *)

Lemma cell_at_insert (i j : nat) (c : cell) (l : list cell) (f f' : frame) :
  nodes f = l -> nodes f' = <[i := c]> l ->
  cell_at f' j = if decide (i = j) then (if decide (i < length l)%nat then c else cell_at f j)
                 else cell_at f j.
Proof.
  intros E E'. unfold cell_at. rewrite E, E'.
  destruct (decide (i = j)) as [<- | N].
  - destruct (decide (i < length l)%nat) as [L | L].
    + rewrite list_lookup_insert_eq by exact L. reflexivity.
    + rewrite list_insert_ge by lia. reflexivity.
  - rewrite list_lookup_insert_ne by exact N. reflexivity.
Qed.

Lemma store_cell_cell_at (i : nat) (g : cell -> cell) (f f' : frame) (j : nat) :
  outcome (store_cell i g f) = Ret f' ->
  cell_at f' j = if decide (i = j) then g (cell_at f i) else cell_at f j.
Proof.
  intros H. apply store_cell_inv in H as (_ & _ & _ & c & Hc & E).
  rewrite (cell_at_insert i j (g c) (nodes f) f f' eq_refl E).
  destruct (decide (i = j)) as [<- | N]; [| reflexivity].
  apply lookup_lt_Some in Hc as L.
  destruct (decide (i < length (nodes f))%nat); [| lia].
  unfold cell_at. rewrite Hc. reflexivity.
Qed.

Lemma scan_location_cell_at (t : option string) (f f' : frame) (j : nat) :
  outcome (scan_location t f) = Ret f' -> cell_at f' j = cell_at (count_visible f) j.
Proof.
  intros H. apply scan_location_inv in H as [_ N]. unfold cell_at. rewrite N. reflexivity.
Qed.

Lemma scanned_location (w : world) (t : string) (a b : Z) (f f' : frame) (l : XLogRecPtr) :
  sscanf_XX t = ScanTwo a b ->
  outcome (scan_location (Some t) f) = Ret f' ->
  outcome (load_location w f') = Ret l ->
  l = mkXLogRecPtr a b.
Proof.
  intros Hs Hf Hl. unfold scan_location in Hf. rewrite Hs in Hf.
  injection Hf as <-. unfold load_location in Hl. cbn in Hl.
  injection Hl as <-. reflexivity.
Qed.

Lemma probe_nodes_cells (w : world) (rows : list node_row) (i : nat) (f f' : frame) :
  outcome (probe_nodes w rows i f) = Ret f' ->
  (forall j, (j < i)%nat -> cell_at f' j = cell_at f j)
  /\ forall j row, rows !! j = Some row ->
       match answer w (n_conninfo row) with
       | Tuples column0 =>
           exists l,
             cell_at f' (i + j) = mkCell (Some (n_id row)) (Some l) (Some true)
             /\ forall t a b,
                  PQgetvalue0 column0 (i + j) = Some t ->
                  sscanf_XX t = ScanTwo a b -> l = mkXLogRecPtr a b
       | _ =>
           cell_at f' (i + j)
           = mkCell (c_nodeId (cell_at f (i + j))) (c_xlog_location (cell_at f (i + j)))
                    (Some false)
       end.
Proof.
  revert i f. induction rows as [| row rest IH]; intros i f H.
  - cbn [probe_nodes] in H. injection H as <-. split; [reflexivity |].
    intros j r Hj. destruct j; discriminate Hj.
  - cbn [probe_nodes] in H.
    apply bind_Ret_inv in H as (f1 & H1 & H).
    rewrite bind_emit in H. cbn [outcome] in H.
    pose proof (store_cell_cell_at _ _ _ _ i H1) as C1.
    destruct (decide (i = i)) as [_ | N]; [| congruence].
    assert (O1 : forall j, i <> j -> cell_at f1 j = cell_at f j).
    { intros j N. rewrite (store_cell_cell_at _ _ _ _ j H1).
      destruct (decide (i = j)); [congruence | reflexivity]. }
    destruct (answer w (n_conninfo row)) as [| | column0] eqn:Ea.
    + destruct (IH _ _ H) as [B R]. split.
      * intros j L. rewrite B by lia. apply O1. lia.
      * intros [| j] r Hj.
        -- injection Hj as <-. rewrite Ea, Nat.add_0_r, B by lia. exact C1.
        -- specialize (R j r Hj). rewrite Nat.add_succ_r.
           cbn [Nat.add] in R. rewrite (O1 (S (i + j))) in R by lia. exact R.
    + unfold log_info in H. rewrite !bind_emit in H. cbn [outcome] in H.
      destruct (IH _ _ H) as [B R]. split.
      * intros j L. rewrite B by lia. apply O1. lia.
      * intros [| j] r Hj.
        -- injection Hj as <-. rewrite Ea, Nat.add_0_r, B by lia. exact C1.
        -- specialize (R j r Hj). rewrite Nat.add_succ_r.
           cbn [Nat.add] in R. rewrite (O1 (S (i + j))) in R by lia. exact R.
    + rewrite bind_emit in H. cbn [outcome] in H.
      apply bind_Ret_inv in H as (f2 & H2 & H).
      apply bind_Ret_inv in H as (l & Hl & H).
      apply bind_Ret_inv in H as (f3 & H3 & H).
      rewrite bind_emit in H. cbn [outcome] in H.
      assert (O3 : forall j, i <> j -> cell_at f3 j = cell_at f j).
      { intros j N. rewrite (store_cell_cell_at _ _ _ _ j H3).
        destruct (decide (i = j)); [congruence |].
        rewrite (scan_location_cell_at _ _ _ j H2). apply O1, N. }
      pose proof (store_cell_cell_at _ _ _ _ i H3) as C3.
      destruct (decide (i = i)) as [_ | N]; [| congruence].
      destruct (IH _ _ H) as [B R]. split.
      * intros j L. rewrite B by lia. apply O3. lia.
      * intros [| j] r Hj.
        -- injection Hj as <-. rewrite Ea, Nat.add_0_r, B by lia.
           exists l. split; [exact C3 |].
           intros t a b Ht Hs. destruct (PQgetvalue0 column0 i) as [t' |] eqn:Et;
             [| discriminate Ht].
           injection Ht as ->.
           exact (scanned_location w t a b _ _ l Hs H2 Hl).
        -- specialize (R j r Hj). rewrite Nat.add_succ_r.
           cbn [Nat.add] in R. rewrite (O3 (S (i + j))) in R by lia. exact R.
Qed.

Lemma cell_at_entry_frame (j : nat) : cell_at entry_frame j = blank.
Proof. exact (entry_frame_blank j). Qed.

(** X3. What a probing loop that runs to its end leaves in [nodes]: the
    element of a listed standby is marked ready exactly when the peer was
    reached and answered the position query; such an element holds the
    peer's id and, when the answer scans as two fields, the position it
    states; the element of a peer that was not seen holds neither an id
    nor a position; the elements past the listing are untouched. *)
Theorem probing_records (w : world) (res1 : list node_row) (f : frame) :
  outcome (probe_nodes w res1 0 entry_frame) = Ret f ->
  (forall i row,
      res1 !! i = Some row ->
      c_is_ready (cell_at f i) = Some (seen w row)
      /\ c_nodeId (cell_at f i) = (if seen w row then Some (n_id row) else None)
      /\ (seen w row = false -> c_xlog_location (cell_at f i) = None)
      /\ forall column0 t a b,
           answer w (n_conninfo row) = Tuples column0 ->
           PQgetvalue0 column0 i = Some t ->
           sscanf_XX t = ScanTwo a b ->
           c_xlog_location (cell_at f i) = Some (mkXLogRecPtr a b))
  /\ forall i, (length res1 <= i)%nat -> cell_at f i = blank.
Proof.
  intros H. split.
  - intros i row Hi.
    destruct (probe_nodes_cells _ _ _ _ _ H) as [_ R].
    specialize (R i row Hi). cbn [Nat.add] in R. unfold seen.
    destruct (answer w (n_conninfo row)) as [| | column0].
    + rewrite R, cell_at_entry_frame. cbn.
      repeat split; try reflexivity. intros ? ? ? ? E. discriminate E.
    + rewrite R, cell_at_entry_frame. cbn.
      repeat split; try reflexivity. intros ? ? ? ? E. discriminate E.
    + destruct R as (l & -> & Hl). cbn.
      repeat split; try reflexivity; [intros E; discriminate E |].
      intros c t a b E Ht Hs. injection E as <-. rewrite (Hl t a b Ht Hs). reflexivity.
  - intros i L. apply probe_nodes_frame in H as [_ U].
    unfold cell_at. rewrite (U i) by (cbn; lia). apply entry_frame_blank.
Qed.

Lemma probing_records_witness :
  exists f,
    outcome (probe_nodes first_peer_world (repl_nodes first_peer_world) 0 entry_frame)
    = Ret f
    /\ cell_at f 0 = mkCell (Some 5) (Some (mkXLogRecPtr 2 256)) (Some true)
    /\ c_is_ready (cell_at f 1) = Some false
    /\ cell_at f 3 = blank.
Proof.
  eexists. split; [reflexivity |].
  destruct (probing_records first_peer_world (repl_nodes first_peer_world) _ eq_refl)
    as [R B].
  split; [reflexivity |]. split.
  - exact (proj1 (R 1%nat (mkNode 6 "" "host=six") eq_refl)).
  - apply B. cbn. lia.
Defined.

(** ** The selection loop *)

Lemma XLByteLT_trans (a b c : XLogRecPtr) :
  XLByteLT a b = true -> XLByteLT b c = true -> XLByteLT a c = true.
Proof. unfold XLByteLT. lia. Qed.

Lemma XLByteLT_le_trans (a b c : XLogRecPtr) :
  XLByteLT a b = true -> XLByteLT c b = false -> XLByteLT a c = true.
Proof. unfold XLByteLT. lia. Qed.

Lemma XLByteLT_irrefl (a : XLogRecPtr) : XLByteLT a a = false.
Proof. unfold XLByteLT. lia. Qed.

Lemma load_outcome {A} (p : place) (o : option A) (j : A) :
  outcome (load p o j) = Ret (default j o).
Proof. destruct o; reflexivity. Qed.

Lemma pick_best_step (w : world) (f : frame) (i count : nat) (seed : nodeInfo) :
  outcome (pick_best w f i (S count) seed)
  = outcome (pick_best w f (S i) count
               match candidate_at w f i with
               | Some c => if XLByteLT (xlog_location seed) (xlog_location c) then c
                           else seed
               | None => seed
               end).
Proof.
  cbn [pick_best]. unfold candidate_at.
  rewrite outcome_bind, load_outcome.
  destruct (default (is_ready (stack_nodes (garbage w) i)) (c_is_ready (cell_at f i)));
    cbn [negb]; [| reflexivity].
  rewrite outcome_bind, load_outcome. cbn [xlog_location].
  destruct (XLByteLT (xlog_location seed)
              (default (junk_location w i) (c_xlog_location (cell_at f i))));
    [| reflexivity].
  rewrite outcome_bind, load_outcome. reflexivity.
Qed.

(** X4. The selection loop always comes back with a candidate: the one it
    started from or one of the elements it read as ready.  No element read
    as ready, and not the starting candidate either, is at a position
    strictly beyond the one chosen; and the starting candidate is kept
    unless an element read as ready is strictly beyond it. *)
Theorem selection_takes_a_maximum (w : world) (f : frame) (count i : nat)
    (seed : nodeInfo) :
  exists best,
    outcome (pick_best w f i count seed) = Ret best
    /\ (best = seed
        \/ exists j, (i <= j < i + count)%nat /\ candidate_at w f j = Some best)
    /\ XLByteLT (xlog_location best) (xlog_location seed) = false
    /\ (forall j c, (i <= j < i + count)%nat -> candidate_at w f j = Some c ->
          XLByteLT (xlog_location best) (xlog_location c) = false)
    /\ ((forall j c, (i <= j < i + count)%nat -> candidate_at w f j = Some c ->
           XLByteLT (xlog_location seed) (xlog_location c) = false) ->
        best = seed).
Proof.
  revert i seed. induction count as [| count IH]; intros i seed.
  - exists seed. cbn [pick_best]. split; [reflexivity |]. split; [left; reflexivity |].
    split; [apply XLByteLT_irrefl |]. split; [intros j c L; lia | reflexivity].
  - rewrite pick_best_step.
    destruct (candidate_at w f i) as [c0 |] eqn:E0.
    + destruct (XLByteLT (xlog_location seed) (xlog_location c0)) eqn:Lt.
      * destruct (IH (S i) c0) as (best & Hb & Hin & Hseed & Hmax & Hkeep).
        exists best. split; [exact Hb |]. split; [| split; [| split]].
        -- right. destruct Hin as [-> | (j & L & Ej)].
           ++ exists i. split; [lia | exact E0].
           ++ exists j. split; [lia | exact Ej].
        -- destruct (XLByteLT (xlog_location best) (xlog_location seed)) eqn:Lb;
             [| reflexivity].
           rewrite (XLByteLT_trans _ _ _ Lb Lt) in Hseed. discriminate Hseed.
        -- intros j c L Ej. destruct (decide (j = i)) as [-> | N].
           ++ rewrite E0 in Ej. injection Ej as <-. exact Hseed.
           ++ apply (Hmax j c); [lia | exact Ej].
        -- intros Hall. rewrite (Hall i c0) in Lt by (lia || exact E0). discriminate Lt.
      * destruct (IH (S i) seed) as (best & Hb & Hin & Hseed & Hmax & Hkeep).
        exists best. split; [exact Hb |]. split; [| split; [| split]].
        -- destruct Hin as [-> | (j & L & Ej)]; [left; reflexivity |].
           right. exists j. split; [lia | exact Ej].
        -- exact Hseed.
        -- intros j c L Ej. destruct (decide (j = i)) as [-> | N].
           ++ rewrite E0 in Ej. injection Ej as <-.
              destruct (XLByteLT (xlog_location best) (xlog_location c0)) eqn:Lb;
                [| reflexivity].
              rewrite (XLByteLT_le_trans _ _ _ Lb Lt) in Hseed. discriminate Hseed.
           ++ apply (Hmax j c); [lia | exact Ej].
        -- intros Hall. apply Hkeep. intros j c L Ej. apply (Hall j c); [lia | exact Ej].
    + destruct (IH (S i) seed) as (best & Hb & Hin & Hseed & Hmax & Hkeep).
      exists best. split; [exact Hb |]. split; [| split; [| split]].
      * destruct Hin as [-> | (j & L & Ej)]; [left; reflexivity |].
        right. exists j. split; [lia | exact Ej].
      * exact Hseed.
      * intros j c L Ej. destruct (decide (j = i)) as [-> | N].
        -- rewrite E0 in Ej. discriminate Ej.
        -- apply (Hmax j c); [lia | exact Ej].
      * intros Hall. apply Hkeep. intros j c L Ej. apply (Hall j c); [lia | exact Ej].
Qed.

(** ** The election as a whole *)

Lemma dispatches_probing (l : list event) :
  Forall probing_event l -> dispatches l = [].
Proof.
  intros H. apply omap_none. eapply Forall_impl; [exact H |].
  intros e He. destruct e as [| | | | | | | | | c |]; try reflexivity. destruct He.
Qed.

Lemma settled_bind {A B} (info : string) (m : run A) (k : A -> run B) :
  dispatches (events m) = [] ->
  (forall a, outcome m = Ret a -> settled info (k a)) ->
  settled info (m ≫= k).
Proof.
  intros Hm Hk. unfold settled. rewrite outcome_bind, events_bind.
  destruct (outcome m) as [a | st | c] eqn:E; [| exact Hm | exact Hm].
  specialize (Hk a eq_refl). unfold settled in Hk.
  destruct (outcome (k a)).
  - destruct Hk as (c & pre & -> & Hpre). exists c, (events m ++ pre).
    split; [apply app_assoc |].
    unfold dispatches in *. rewrite omap_app, Hm, Hpre. reflexivity.
  - unfold dispatches in *. rewrite omap_app, Hm, Hk. reflexivity.
  - unfold dispatches in *. rewrite omap_app, Hm, Hk. reflexivity.
Qed.

Lemma settled_emit {B} (info : string) (e : event) (k : unit -> run B) :
  dispatches [e] = [] -> settled info (k tt) -> settled info (emit e ≫= k).
Proof.
  intros He Hk. apply settled_bind; [exact He |]. intros [] _. exact Hk.
Qed.

Lemma elect_settled (d : daemon) (w : world) (res1 : list node_row) :
  settled (conninfo (local_options d)) (elect d w res1).
Proof.
  unfold elect.
  apply settled_bind; [apply dispatches_probing, probe_nodes_events |]. intros f _.
  apply settled_emit; [reflexivity |].
  destruct (visible_nodes f <? Z.quot (1 + Z.of_nat (length res1)) 2).
  - reflexivity.
  - apply settled_emit; [reflexivity |].
    apply settled_bind.
    { apply omap_scan_location. reflexivity. }
    intros f2 _.
    apply settled_bind.
    { apply omap_load_location. reflexivity. }
    intros l _.
    apply settled_bind; [apply dispatches_probing, pick_best_events |]. intros best _.
    destruct (nodeId best =? myLocalId d).
    + exists promote_command, []. split; reflexivity.
    + exists follow_command, []. split; reflexivity.
Qed.

(** X5. An election that comes back has handed exactly one command to
    [system], and the last two things it did were that call and the
    reconnection to the local database with the configured connection
    string; an election that ends the process, by [exit] or in a fault,
    has handed over none. *)
Theorem one_command_per_election (d : daemon) (w : world) :
  match outcome (do_failover d w) with
  | Ret _ =>
      exists c pre,
        events (do_failover d w)
        = pre ++ [EvSystem c; EvConnect (conninfo (local_options d))]
        /\ dispatches pre = []
  | _ => dispatches (events (do_failover d w)) = []
  end.
Proof.
  change (settled (conninfo (local_options d)) (do_failover d w)).
  unfold do_failover.
  apply settled_emit; [reflexivity |].
  destruct (replay_location w) as [l |]; [| reflexivity].
  apply settled_emit; [reflexivity |].
  apply settled_emit; [reflexivity |].
  destruct (standbys_listed w); [apply elect_settled | reflexivity].
Qed.

Lemma elect_exits (d : daemon) (w : world) (res1 : list node_row) (st : exit_status) :
  outcome (elect d w res1) = Exit st ->
  st = ERR_FAILOVER_FAIL
  /\ exists f, outcome (probe_nodes w res1 0 entry_frame) = Ret f
               /\ visible_nodes f < Z.quot (1 + Z.of_nat (length res1)) 2.
Proof.
  unfold elect. rewrite outcome_bind.
  destruct (outcome (probe_nodes w res1 0 entry_frame)) as [f | st' | c] eqn:E.
  - rewrite bind_emit. cbn [outcome].
    destruct (visible_nodes f <? Z.quot (1 + Z.of_nat (length res1)) 2) eqn:Q.
    + intros H. injection H as <-. split; [reflexivity |].
      exists f. split; [reflexivity | lia].
    + rewrite bind_emit. cbn [outcome]. rewrite outcome_bind.
      destruct (outcome (scan_location (stale_res2 (garbage w)) f)) as [f2 | st' | c] eqn:E2.
      * rewrite outcome_bind.
        destruct (load_location_returns w f2) as [l ->].
        rewrite outcome_bind.
        destruct (pick_best_returns w f2 (S (length res1)) 0
                    (mkNodeInfo (myLocalId d) l true)) as [b ->].
        destruct (nodeId b =? myLocalId d); discriminate.
      * intros _. destruct (never_exits_scan_location _ _ _ E2).
      * discriminate.
  - intros _. destruct (never_exits_probe_nodes _ _ _ _ _ E).
  - discriminate.
Qed.

(** X6. The three ways an election ends the daemon by [exit]: with the
    query-error status exactly when the local replay position cannot be
    read; with the bad-query status exactly when it can and the listing of
    the standbys fails; and otherwise only with the failover-fail status,
    after the probing loop ran to its end. *)
Theorem election_exit_statuses (d : daemon) (w : world) :
  (outcome (do_failover d w) = Exit ERR_DB_QUERY <-> replay_location w = None)
  /\ (outcome (do_failover d w) = Exit ERR_BAD_QUERY
      <-> is_Some (replay_location w) /\ standbys_listed w = false)
  /\ (forall st, outcome (do_failover d w) = Exit st ->
        st = ERR_DB_QUERY \/ st = ERR_BAD_QUERY
        \/ st = ERR_FAILOVER_FAIL
           /\ exists f,
                outcome (probe_nodes w (list_standbys w (myLocalId d) (myClusterName d))
                           0 entry_frame) = Ret f).
Proof.
  unfold do_failover. rewrite bind_emit. cbn [outcome].
  destruct (replay_location w) as [l |].
  - rewrite !bind_emit. cbn [outcome].
    destruct (standbys_listed w).
    + split; [| split].
      * split; [| discriminate]. intros H. apply elect_exits in H as [H _]. discriminate H.
      * split.
        -- intros H. apply elect_exits in H as [H _]. discriminate H.
        -- intros [_ H]. discriminate H.
      * intros st H. apply elect_exits in H as (-> & f & Hf & _). right. right.
        split; [reflexivity |]. exists f. exact Hf.
    + split; [| split].
      * split; discriminate.
      * split; [intros _; split; [eexists |]; reflexivity | reflexivity].
      * intros st H. injection H as <-. auto.
  - split; [| split].
    + split; reflexivity.
    + split; [discriminate |]. intros [[x H] _]. discriminate H.
    + intros st H. injection H as <-. auto.
Qed.

(** X7. With at most two standbys listed the quorum test cannot fail: the
    local node counts itself, and (1 + P) / 2 is at most 1.  A standby of
    a cluster of this size that reaches nobody still goes on to select a
    candidate and hand a command to [system]. *)
Theorem small_cluster_always_has_quorum (d : daemon) (w : world) :
  (length (list_standbys w (myLocalId d) (myClusterName d)) <= 2)%nat ->
  outcome (do_failover d w) <> Exit ERR_FAILOVER_FAIL.
Proof.
  intros L H. unfold do_failover in H. rewrite bind_emit in H. cbn [outcome] in H.
  destruct (replay_location w); [| discriminate H].
  rewrite !bind_emit in H. cbn [outcome] in H.
  destruct (standbys_listed w); [| discriminate H].
  apply elect_exits in H as (_ & f & Hf & Q).
  apply probe_nodes_frame in Hf as [V _]. cbn [visible_nodes entry_frame] in V.
  unfold count_seen in V.
  set (n := length (list_standbys w (myLocalId d) (myClusterName d))) in *.
  assert (Z.quot (1 + Z.of_nat n) 2 <= 1).
  { assert (Hn : n = 0%nat \/ n = 1%nat \/ n = 2%nat) by lia.
    destruct Hn as [-> | [-> | ->]]; vm_compute; discriminate. }
  lia.
Qed.

Lemma small_cluster_always_has_quorum_witness :
  (length (list_standbys isolated_world (myLocalId sample_daemon)
             (myClusterName sample_daemon)) <= 2)%nat
  /\ outcome (do_failover sample_daemon isolated_world) <> Exit ERR_FAILOVER_FAIL
  /\ dispatches (events (do_failover sample_daemon isolated_world)) = [promote_command].
Proof.
  split; [vm_compute; lia |]. split; [| reflexivity].
  apply small_cluster_always_has_quorum. vm_compute. lia.
Defined.

(** ** The first half of a tick *)

Lemma slept_app (l1 l2 : list event) : slept (l1 ++ l2) = slept l1 + slept l2.
Proof.
  induction l1 as [| e l1 IH]; [reflexivity |].
  cbn. fold (slept (l1 ++ l2)) (slept l1). rewrite IH. destruct e; lia.
Qed.

Lemma count_resets_app (l1 l2 : list event) :
  count_resets (l1 ++ l2) = (count_resets l1 + count_resets l2)%nat.
Proof. unfold count_resets. rewrite List.filter_app, length_app. reflexivity. Qed.

Lemma count_discoveries_app (l1 l2 : list event) :
  count_discoveries (l1 ++ l2) = (count_discoveries l1 + count_discoveries l2)%nat.
Proof. unfold count_discoveries. rewrite List.filter_app, length_app. reflexivity. Qed.

Lemma retry_primary_from (t : tick) (left c : nat) (d : daemon) :
  exists r,
    outcome (retry_primary t c left d)
    = Ret (if (r =? c)%nat then d else set_pending 0 d, r)
    /\ (c <= r <= c + left)%nat
    /\ (forall j, (c <= j < r)%nat -> status_after t j = false)
    /\ ((r < c + left)%nat -> status_after t r = true)
    /\ slept (events (retry_primary t c left d)) = 20 * Z.of_nat (r - c)
    /\ count_resets (events (retry_primary t c left d)) = (r - c)%nat.
Proof.
  revert c d. induction left as [| left IH]; intros c d.
  - exists c. cbn [retry_primary]. rewrite Nat.eqb_refl, Nat.sub_diag.
    repeat split; try reflexivity; lia.
  - cbn [retry_primary]. destruct (status_after t c) eqn:Ec.
    + exists c. rewrite Nat.eqb_refl, Nat.sub_diag.
      split; [destruct (0 <? c)%nat; reflexivity |].
      split; [lia |]. split; [intros j L; lia |]. split; [intros _; exact Ec |].
      destruct (0 <? c)%nat; split; reflexivity.
    + destruct (IH (S c) (set_pending 0 d)) as (r & Ho & Hr & Hlost & Hok & Hs & Hc).
      exists r. unfold log_warning. rewrite !bind_emit. cbn [outcome events].
      replace (r =? c)%nat with false by (symmetry; apply Nat.eqb_neq; lia).
      split.
      { rewrite Ho. destruct (r =? S c)%nat; reflexivity. }
      split; [lia |]. split.
      { intros j L. destruct (decide (j = c)) as [-> | N]; [exact Ec |].
        apply Hlost. lia. }
      split; [intros L; apply Hok; lia |].
      split.
      * change (slept (EvLog LOG_WARNING connection_lost :: EvSleep 20 :: EvReset
                        :: events (retry_primary t (S c) left (set_pending 0 d))))
          with (20 + slept (events (retry_primary t (S c) left (set_pending 0 d)))).
        rewrite Hs. lia.
      * change (count_resets (EvLog LOG_WARNING connection_lost :: EvSleep 20 :: EvReset
                        :: events (retry_primary t (S c) left (set_pending 0 d))))
          with (S (count_resets (events (retry_primary t (S c) left (set_pending 0 d))))).
        rewrite Hc. lia.
Qed.

(** X8. The reconnecting loop of a tick always comes back, after r calls
    of [PQreset] and 20 r seconds of sleep, where r is the number of the
    first check that finds the connection in order, and 15 when none of
    the first 15 does; it leaves the daemon as it was when the first check
    succeeds, and with nothing pending on the fresh session otherwise. *)
Theorem reconnecting_stops_at_first_success (t : tick) (d : daemon) :
  exists r,
    outcome (retry_primary t 0 15 d)
    = Ret (if (r =? 0)%nat then d else set_pending 0 d, r)
    /\ (r <= 15)%nat
    /\ (forall j, (j < r)%nat -> status_after t j = false)
    /\ ((r < 15)%nat -> status_after t r = true)
    /\ slept (events (retry_primary t 0 15 d)) = 20 * Z.of_nat r
    /\ count_resets (events (retry_primary t 0 15 d)) = r.
Proof.
  destruct (retry_primary_from t 15 0 d) as (r & Ho & Hr & Hlost & Hok & Hs & Hc).
  exists r. rewrite Nat.sub_0_r in Hs, Hc.
  split; [exact Ho |]. split; [lia |].
  split; [intros j L; apply Hlost; lia |].
  split; [intros L; apply Hok; lia |]. split; assumption.
Qed.

Lemma rediscover_none (t : tick) (left c : nat) (d : daemon) :
  (forall k, (c <= k < c + left)%nat -> discovered t k = None) ->
  outcome (rediscover t c left d) = Ret None
  /\ slept (events (rediscover t c left d)) = 300 * Z.of_nat left
  /\ count_discoveries (events (rediscover t c left d)) = left.
Proof.
  revert c d. induction left as [| left IH]; intros c d H.
  - repeat split.
  - cbn [rediscover]. rewrite bind_emit. cbn [outcome events].
    rewrite (H c) by lia. unfold log_err. rewrite !bind_emit. cbn [outcome events].
    destruct (IH (S c) (set_pending 0 d)) as (Ho & Hs & Hc).
    { intros k L. apply H. lia. }
    split; [exact Ho |]. split.
    + change (slept (EvDiscover :: EvLog LOG_ERR no_new_master_yet :: EvSleep 300
                     :: events (rediscover t (S c) left (set_pending 0 d))))
        with (300 + slept (events (rediscover t (S c) left (set_pending 0 d)))).
      rewrite Hs. lia.
    + change (count_discoveries
                (EvDiscover :: EvLog LOG_ERR no_new_master_yet :: EvSleep 300
                 :: events (rediscover t (S c) left (set_pending 0 d))))
        with (S (count_discoveries
                   (events (rediscover t (S c) left (set_pending 0 d))))).
      rewrite Hc. reflexivity.
Qed.

Lemma rediscover_some (t : tick) (left c k : nat) (id : Z) (d : daemon) :
  (c <= k < c + left)%nat ->
  (forall j, (c <= j < k)%nat -> discovered t j = None) ->
  discovered t k = Some id ->
  outcome (rediscover t c left d) = Ret (Some (set_primary id d))
  /\ slept (events (rediscover t c left d)) = 300 * Z.of_nat (k - c)
  /\ count_discoveries (events (rediscover t c left d)) = S (k - c).
Proof.
  revert c d. induction left as [| left IH]; intros c d L Hnone Hk; [lia |].
  cbn [rediscover]. rewrite bind_emit. cbn [outcome events].
  destruct (decide (k = c)) as [-> | N].
  - rewrite Hk. unfold log_err. rewrite bind_emit. cbn [outcome events].
    rewrite Nat.sub_diag. repeat split.
  - rewrite (Hnone c) by lia. unfold log_err. rewrite !bind_emit. cbn [outcome events].
    destruct (IH (S c) (set_pending 0 d)) as (Ho & Hs & Hc);
      [lia | intros j Lj; apply Hnone; lia | exact Hk |].
    split; [exact Ho |]. split.
    + change (slept (EvDiscover :: EvLog LOG_ERR no_new_master_yet :: EvSleep 300
                     :: events (rediscover t (S c) left (set_pending 0 d))))
        with (300 + slept (events (rediscover t (S c) left (set_pending 0 d)))).
      rewrite Hs. lia.
    + change (count_discoveries
                (EvDiscover :: EvLog LOG_ERR no_new_master_yet :: EvSleep 300
                 :: events (rediscover t (S c) left (set_pending 0 d))))
        with (S (count_discoveries
                   (events (rediscover t (S c) left (set_pending 0 d))))).
      rewrite Hc. lia.
Qed.

Lemma retry_primary_lost (t : tick) (d : daemon) :
  (forall j, (j <= 15)%nat -> status_after t j = false) ->
  outcome (retry_primary t 0 15 d) = Ret (set_pending 0 d, 15%nat)
  /\ slept (events (retry_primary t 0 15 d)) = 300
  /\ count_resets (events (retry_primary t 0 15 d)) = 15%nat.
Proof.
  intros Hlost.
  destruct (retry_primary_from t 15 0 d) as (r & Ho & Hr & _ & Hok & Hs & Hc).
  rewrite Nat.sub_0_r in Hs, Hc.
  assert (r = 15%nat) as ->.
  { destruct (decide (r = 15%nat)) as [E | N]; [exact E |].
    rewrite Hlost in Hok by lia. discriminate Hok. lia. }
  split; [exact Ho |]. split; [rewrite Hs; reflexivity | exact Hc].
Qed.

Lemma slept_log (l : level) (m : message) (rest : list event) :
  slept (EvLog l m :: rest) = slept rest.
Proof. reflexivity. Qed.

Lemma count_discoveries_log (l : level) (m : message) (rest : list event) :
  count_discoveries (EvLog l m :: rest) = count_discoveries rest.
Proof. reflexivity. Qed.

Lemma retry_primary_discovers_nothing (t : tick) (left c : nat) (d : daemon) :
  count_discoveries (events (retry_primary t c left d)) = 0%nat.
Proof.
  revert c d. induction left as [| left IH]; intros c d; [reflexivity |].
  cbn [retry_primary]. destruct (status_after t c).
  - destruct (0 <? c)%nat; reflexivity.
  - unfold log_warning. rewrite !bind_emit. cbn [events]. exact (IH (S c) _).
Qed.

(** X9. Under the manual policy, once the connection to the primary is
    lost for good, the tick waits 300 seconds in the reconnecting loop and
    then calls [getMasterConnection] up to six times, 300 seconds apart.
    When none of the six calls finds a primary the daemon exits with the
    connection status, having slept 2100 seconds in all; when the call
    number k, counted from 0, is the first to find one, the tick goes on
    after 300 + 300 k seconds of sleep with that node as its primary and
    nothing pending. *)
Theorem manual_policy_waits_for_a_promotion (t : tick) (d : daemon) :
  failover (local_options d) = MANUAL_FAILOVER ->
  (forall j, (j <= 15)%nat -> status_after t j = false) ->
  ((forall k, (k < 6)%nat -> discovered t k = None) ->
   outcome (check_primary t d) = Exit ERR_DB_CON
   /\ slept (events (check_primary t d)) = 2100
   /\ count_discoveries (events (check_primary t d)) = 6%nat)
  /\ (forall k id,
        (k < 6)%nat ->
        (forall j, (j < k)%nat -> discovered t j = None) ->
        discovered t k = Some id ->
        outcome (check_primary t d) = Ret (set_primary id d)
        /\ slept (events (check_primary t d)) = 300 + 300 * Z.of_nat k
        /\ count_discoveries (events (check_primary t d)) = S k).
Proof.
  intros Hpolicy Hlost.
  destruct (retry_primary_lost t d Hlost) as (Ho & Hs & _).
  pose proof (retry_primary_discovers_nothing t 15 0 d) as Hd.
  unfold check_primary. rewrite (bind_Ret _ _ _ Ho). cbn [outcome events].
  rewrite (Hlost 15%nat) by lia.
  change (failover (local_options (set_pending 0 d))) with (failover (local_options d)).
  rewrite Hpolicy. unfold log_err. rewrite bind_emit. cbn [outcome events].
  rewrite slept_app, count_discoveries_app, Hs, Hd.
  split.
  - intros Hnone.
    destruct (rediscover_none t 6 0 (set_pending 0 d)) as (Hr & Hrs & Hrd).
    { intros k L. apply Hnone. lia. }
    rewrite (bind_Ret _ _ _ Hr). cbn [outcome events].
    split; [reflexivity |].
    rewrite slept_log, count_discoveries_log, slept_app, count_discoveries_app, Hrs, Hrd.
    split; reflexivity.
  - intros k id L Hnone Hk.
    destruct (rediscover_some t 6 0 k id (set_pending 0 d)) as (Hr & Hrs & Hrd);
      [lia | intros j Lj; apply Hnone; lia | exact Hk |].
    rewrite Nat.sub_0_r in Hrs, Hrd.
    rewrite (bind_Ret _ _ _ Hr). cbn [outcome events].
    split; [reflexivity |].
    rewrite slept_log, count_discoveries_log, app_nil_r, Hrs, Hrd.
    split; [lia | reflexivity].
Qed.

Lemma manual_policy_waits_for_a_promotion_witness :
  outcome (check_primary (lost_primary_tick partitioned_world) manual_daemon)
  = Exit ERR_DB_CON
  /\ slept (events (check_primary (lost_primary_tick partitioned_world) manual_daemon))
     = 2100
  /\ outcome (check_primary promoted_peer_tick manual_daemon)
     = Ret (set_primary 3 manual_daemon)
  /\ slept (events (check_primary promoted_peer_tick manual_daemon)) = 900.
Proof.
  destruct (manual_policy_waits_for_a_promotion (lost_primary_tick partitioned_world)
              manual_daemon eq_refl (fun _ _ => eq_refl)) as [G _].
  destruct (G (fun _ _ => eq_refl)) as (G1 & G2 & _).
  destruct (manual_policy_waits_for_a_promotion promoted_peer_tick
              manual_daemon eq_refl (fun _ _ => eq_refl)) as [_ F].
  destruct (F 2%nat 3 ltac:(lia)
              ltac:(intros [| [| j]] L; [reflexivity | reflexivity | lia]) eq_refl)
    as (F1 & F2 & _).
  repeat split; assumption.
Defined.

(** ** Ticks *)

Lemma CancelQuery_keeps {X} (g : daemon -> X) (stops : bool) (d d' : daemon) :
  (forall n d, g (set_pending n d) = g d) ->
  outcome (CancelQuery stops d) = Ret d' -> g d' = g d.
Proof.
  intros Hg. unfold CancelQuery. rewrite bind_emit. cbn [outcome].
  destruct stops.
  - intros [= <-]. apply Hg.
  - unfold log_warning. rewrite bind_emit. cbn [outcome]. intros [= <-]. reflexivity.
Qed.

Lemma CancelQuery_returns (stops : bool) (d : daemon) : returns (CancelQuery stops d).
Proof.
  unfold CancelQuery. apply returns_emit. destruct stops.
  - eexists; reflexivity.
  - apply returns_emit. eexists; reflexivity.
Qed.

Lemma sample_keeps {X} (g : daemon -> X) (t : tick) (d d' : daemon) :
  (forall n d, g (set_pending n d) = g d) ->
  outcome (sample t d) = Ret d' -> g d' = g d.
Proof.
  intros Hg. unfold sample. intros H.
  apply bind_Ret_inv in H as (d1 & H1 & H).
  assert (C1 : g d1 = g d).
  { destruct (PQisBusy t d); [exact (CancelQuery_keeps g _ _ _ Hg H1) |].
    injection H1 as <-. reflexivity. }
  apply bind_Ret_inv in H as (_ & _ & H).
  destruct (local_positions t) as [[[ts received] applied] |].
  2:{ apply bind_Ret_inv in H as (_ & _ & H). injection H as <-. exact C1. }
  apply bind_Ret_inv in H as (_ & _ & H).
  destruct (primary_location t) as [primary |].
  2:{ apply bind_Ret_inv in H as (_ & _ & H). injection H as <-.
      rewrite Hg. exact C1. }
  apply bind_Ret_inv in H as (b1 & _ & H).
  apply bind_Ret_inv in H as (b2 & _ & H).
  apply bind_Ret_inv in H as (b3 & _ & H).
  apply bind_Ret_inv in H as (_ & _ & H).
  destruct (send_accepted t).
  - injection H as <-. rewrite !Hg. exact C1.
  - apply bind_Ret_inv in H as (_ & _ & H). injection H as <-. rewrite Hg. exact C1.
Qed.

Lemma sample_returns (t : tick) (d : daemon) : returns (sample t d).
Proof.
  unfold sample. apply returns_bind.
  assert (R : returns (if PQisBusy t d then CancelQuery (cancel_stops t) d else mret d)).
  { destruct (PQisBusy t d); [apply CancelQuery_returns | eexists; reflexivity]. }
  destruct R as [d1 R]. exists d1. split; [exact R |].
  apply returns_emit.
  destruct (local_positions t) as [[[ts received] applied] |].
  2:{ apply returns_emit. eexists; reflexivity. }
  apply returns_emit.
  destruct (primary_location t) as [primary |].
  2:{ apply returns_emit. eexists; reflexivity. }
  apply returns_bind. eexists. split; [apply walLocationToBytes_returns |].
  apply returns_bind. eexists. split; [apply walLocationToBytes_returns |].
  apply returns_bind. eexists. split; [apply walLocationToBytes_returns |].
  apply returns_emit.
  destruct (send_accepted t); [eexists; reflexivity |].
  apply returns_emit. eexists; reflexivity.
Qed.

Lemma sample_row (t : tick) (d : daemon) (a : bool) (row : monitor_row) :
  In (EvSend a (q_insert_monitor row)) (events (sample t d)) ->
  m_standby_node row = node (local_options d)
  /\ m_primary_node row = primary_node d
  /\ a = send_accepted t.
Proof.
  unfold sample. intros H.
  apply In_events_bind in H as [H | (d1 & H1 & H)].
  { exfalso. destruct (PQisBusy t d); [| destruct H].
    unfold CancelQuery in H. destruct (cancel_stops t); cbn in H;
      repeat (destruct H as [H | H]; [discriminate H |]); exact H. }
  assert (C1 : node (local_options d1) = node (local_options d)
               /\ primary_node d1 = primary_node d).
  { destruct (PQisBusy t d).
    - split.
      + exact (CancelQuery_keeps (fun d => node (local_options d)) _ _ _
                 (fun _ _ => eq_refl) H1).
      + exact (CancelQuery_keeps primary_node _ _ _ (fun _ _ => eq_refl) H1).
    - injection H1 as <-. split; reflexivity. }
  apply In_events_emit in H as [H | H]; [discriminate H |].
  destruct (local_positions t) as [[[ts received] applied] |].
  2:{ exfalso. cbn in H. destruct H as [H | H]; [discriminate H | exact H]. }
  apply In_events_emit in H as [H | H]; [discriminate H |].
  destruct (primary_location t) as [primary |].
  2:{ exfalso. cbn in H. destruct H as [H | H]; [discriminate H | exact H]. }
  rewrite (bind_Ret _ _ _ (walLocationToBytes_returns primary)) in H.
  cbn [events] in H. apply in_app_or in H as [H | H].
  { exfalso. exact (walLocationToBytes_no_send _ _ _ H). }
  rewrite (bind_Ret _ _ _ (walLocationToBytes_returns received)) in H.
  cbn [events] in H. apply in_app_or in H as [H | H].
  { exfalso. exact (walLocationToBytes_no_send _ _ _ H). }
  rewrite (bind_Ret _ _ _ (walLocationToBytes_returns applied)) in H.
  cbn [events] in H. apply in_app_or in H as [H | H].
  { exfalso. exact (walLocationToBytes_no_send _ _ _ H). }
  apply In_events_emit in H as [H | H].
  - injection H as Ha Hrow. subst row. cbn. destruct C1 as [C1 C2].
    repeat split; assumption.
  - exfalso. destruct (send_accepted t); cbn in H; [exact H |].
    destruct H as [H | H]; [discriminate H | exact H].
Qed.

Lemma retry_primary_keeps {X} (g : daemon -> X) (t : tick) (left c : nat)
    (d d' : daemon) (r : nat) :
  (forall n d, g (set_pending n d) = g d) ->
  outcome (retry_primary t c left d) = Ret (d', r) -> g d' = g d.
Proof.
  intros Hg H.
  destruct (retry_primary_from t left c d) as (r' & Ho & _).
  rewrite Ho in H. injection H as <- _.
  destruct (r' =? c)%nat; [reflexivity | apply Hg].
Qed.

Lemma do_failover_config (d d' : daemon) (w : world) :
  same_config d d' -> do_failover d' w = do_failover d w.
Proof.
  intros (H1 & H2 & H3 & _). unfold do_failover, elect. rewrite H1, H2, H3. reflexivity.
Qed.

Lemma check_primary_automatic (t : tick) (d d' : daemon) :
  failover (local_options d) = AUTOMATIC_FAILOVER ->
  outcome (check_primary t d) = Ret d' -> primary_node d' = primary_node d.
Proof.
  intros Hpolicy. unfold check_primary. intros H.
  apply bind_Ret_inv in H as ([d1 r] & H1 & H).
  pose proof (retry_primary_keeps primary_node _ _ _ _ _ _ (fun _ _ => eq_refl) H1) as K.
  pose proof (retry_primary_keeps local_options _ _ _ _ _ _ (fun _ _ => eq_refl) H1) as O.
  destruct (status_after t r).
  - injection H as <-. exact K.
  - rewrite O, Hpolicy in H.
    apply bind_Ret_inv in H as (_ & _ & H). injection H as <-. exact K.
Qed.

Lemma MonitorExecute_automatic (t : tick) (d d' : daemon) :
  failover (local_options d) = AUTOMATIC_FAILOVER ->
  outcome (MonitorExecute t d) = Ret d' -> primary_node d' = primary_node d.
Proof.
  intros Hpolicy. unfold MonitorExecute. intros H.
  apply bind_Ret_inv in H as (d1 & H1 & H).
  pose proof (check_primary_automatic _ _ _ Hpolicy H1) as K.
  destruct (is_standby t).
  - rewrite (sample_keeps primary_node _ _ _ (fun _ _ => eq_refl) H). exact K.
  - apply bind_Ret_inv in H as (_ & _ & H).
    apply bind_Ret_inv in H as (_ & _ & H). discriminate H.
Qed.

Lemma MonitorExecute_row (t : tick) (d : daemon) (a : bool) (row : monitor_row) :
  In (EvSend a (q_insert_monitor row)) (events (MonitorExecute t d)) ->
  m_standby_node row = node (local_options d)
  /\ (failover (local_options d) = AUTOMATIC_FAILOVER ->
      m_primary_node row = primary_node d).
Proof.
  unfold MonitorExecute. intros H.
  apply In_events_bind in H as [H | (d1 & H1 & H)].
  { exfalso. exact (Forall_In _ _ _ (check_primary_events t d) H). }
  destruct (is_standby t).
  - apply sample_row in H as (Hs & Hp & _).
    pose proof (check_primary_config _ _ _ H1) as (_ & _ & O & _).
    rewrite O in Hs. split; [exact Hs |].
    intros Hpolicy. rewrite Hp. exact (check_primary_automatic _ _ _ Hpolicy H1).
  - exfalso.
    apply In_events_emit in H as [H | H]; [discriminate H |].
    apply In_events_bind in H as [H | (_ & _ & H)]; [| destruct H].
    exact (CloseConnections_no_send _ _ _ _ _ H).
Qed.

(** X10. Every row the monitoring loop sends names the configured node as
    the standby.  Under the automatic policy it names, as the primary, the
    node the loop started with, in every tick: an election that hands a
    command to [system] and comes back does not change what the daemon
    takes for its primary. *)
Theorem rows_name_the_first_primary (ticks : list tick) (d : daemon) (a : bool)
    (row : monitor_row) :
  In (EvSend a (q_insert_monitor row)) (events (MonitorCheck ticks d)) ->
  m_standby_node row = node (local_options d)
  /\ (failover (local_options d) = AUTOMATIC_FAILOVER ->
      m_primary_node row = primary_node d).
Proof.
  revert d. induction ticks as [| t rest IH]; intros d; cbn [MonitorCheck].
  - intros [].
  - intros H. apply In_events_bind in H as [H | (d1 & H1 & H)].
    + exact (MonitorExecute_row _ _ _ _ H).
    + apply In_events_emit in H as [H | H]; [discriminate H |].
      apply IH in H as [Hs Hp].
      pose proof (MonitorExecute_config _ _ _ H1) as (_ & _ & O & _).
      rewrite O in Hs, Hp. split; [exact Hs |].
      intros Hpolicy. rewrite (Hp Hpolicy).
      exact (MonitorExecute_automatic _ _ _ Hpolicy H1).
Qed.

Lemma rows_name_the_first_primary_witness :
  In (EvSystem promote_command) (events (MonitorCheck [failed_over_tick] sample_daemon))
  /\ In (EvSend true (q_insert_monitor
                        (mkMonitor 1 2 "2011-02-10 12:00:00+00" "2/0" "2/0" 0 0)))
        (events (MonitorCheck [failed_over_tick] sample_daemon))
  /\ m_primary_node (mkMonitor 1 2 "2011-02-10 12:00:00+00" "2/0" "2/0" 0 0)
     = primary_node sample_daemon.
Proof.
  split; [find_event |].
  assert (H : In (EvSend true (q_insert_monitor
                                 (mkMonitor 1 2 "2011-02-10 12:00:00+00" "2/0" "2/0" 0 0)))
                 (events (MonitorCheck [failed_over_tick] sample_daemon)))
    by find_event.
  split; [exact H |].
  exact (proj2 (rows_name_the_first_primary _ _ _ _ H) eq_refl).
Defined.

Lemma do_failover_exits (d : daemon) (w : world) (st : exit_status) :
  outcome (do_failover d w) = Exit st ->
  st = ERR_DB_QUERY \/ st = ERR_BAD_QUERY \/ st = ERR_FAILOVER_FAIL.
Proof.
  unfold do_failover. rewrite bind_emit. cbn [outcome].
  destruct (replay_location w) as [l |].
  - rewrite !bind_emit. cbn [outcome]. destruct (standbys_listed w).
    + intros H. apply elect_exits in H as [-> _]. auto.
    + intros [= <-]. auto.
  - intros [= <-]. auto.
Qed.

Lemma rediscover_returns (t : tick) (left c : nat) (d : daemon) :
  returns (rediscover t c left d).
Proof.
  revert c d. induction left as [| left IH]; intros c d; cbn [rediscover].
  - eexists; reflexivity.
  - apply returns_emit. destruct (discovered t c).
    + apply returns_emit. eexists; reflexivity.
    + do 2 apply returns_emit. apply IH.
Qed.

Lemma check_primary_ends (t : tick) (d : daemon) :
  match outcome (check_primary t d) with
  | Ret _ => True
  | Exit st =>
      failover (local_options d) = MANUAL_FAILOVER /\ st = ERR_DB_CON
      \/ failover (local_options d) = AUTOMATIC_FAILOVER
         /\ outcome (do_failover d (election t)) = Exit st
  | Crash c =>
      failover (local_options d) = AUTOMATIC_FAILOVER
      /\ outcome (do_failover d (election t)) = Crash c
  end.
Proof.
  unfold check_primary.
  destruct (retry_primary_from t 15 0 d) as (r & Ho & _).
  rewrite outcome_bind, Ho.
  set (d1 := if (r =? 0)%nat then d else set_pending 0 d).
  assert (C : same_config d d1).
  { unfold d1. destruct (r =? 0)%nat;
      [apply same_config_refl | apply same_config_set_pending]. }
  destruct (status_after t r); [exact I |].
  destruct C as (C1 & C2 & C3 & C4). rewrite C3.
  destruct (failover (local_options d)) eqn:Hpolicy.
  - unfold log_err. rewrite bind_emit. cbn [outcome]. rewrite outcome_bind.
    destruct (rediscover_returns t 6 0 d1) as [[d2 |] ->]; [exact I |].
    rewrite bind_emit. cbn [outcome]. left. split; reflexivity.
  - rewrite outcome_bind.
    rewrite (do_failover_config d d1 (election t)) by (repeat split; assumption).
    destruct (outcome (do_failover d (election t))); [exact I | right | ]; split; reflexivity.
Qed.

Lemma CloseConnections_returns (busy stops : bool) (d : daemon) :
  returns (CloseConnections busy stops d).
Proof.
  unfold CloseConnections. apply returns_bind.
  assert (R : returns (if busy then CancelQuery stops d else mret d)).
  { destruct busy; [apply CancelQuery_returns | eexists; reflexivity]. }
  destruct R as [d1 R]. exists d1. split; [exact R |].
  apply returns_emit. destruct (myLocalMode d); eexists; reflexivity.
Qed.

(** X11. How a tick can end the daemon.  A tick that finds the primary
    reachable at its first check, and the local node still a standby,
    always comes back, whatever its queries answer.  It exits with the
    promoted status exactly when the first half comes back and the local
    node is no longer a standby.  Any other exit is the connection status
    under the manual policy, or the status an election exits with under
    the automatic one; and a tick ends in a fault only inside an
    election. *)
Theorem tick_ends_the_daemon_only_by (t : tick) (d : daemon) :
  (status_after t 0 = true -> is_standby t = true -> returns (MonitorExecute t d))
  /\ (outcome (MonitorExecute t d) = Exit ERR_PROMOTED
      <-> returns (check_primary t d) /\ is_standby t = false)
  /\ (forall st, outcome (MonitorExecute t d) = Exit st ->
        st = ERR_PROMOTED
        \/ failover (local_options d) = MANUAL_FAILOVER /\ st = ERR_DB_CON
        \/ failover (local_options d) = AUTOMATIC_FAILOVER
           /\ outcome (do_failover d (election t)) = Exit st)
  /\ (forall c, outcome (MonitorExecute t d) = Crash c ->
        failover (local_options d) = AUTOMATIC_FAILOVER
        /\ outcome (do_failover d (election t)) = Crash c).
Proof.
  pose proof (check_primary_ends t d) as E.
  assert (P : forall d1, outcome (log_err seems_promoted;;
                                  CloseConnections (PQisBusy t d1) (cancel_stops t) d1;;
                                  exit ERR_PROMOTED : run daemon) = Exit ERR_PROMOTED).
  { intros d1. unfold log_err. rewrite bind_emit. cbn [outcome]. rewrite outcome_bind.
    destruct (CloseConnections_returns (PQisBusy t d1) (cancel_stops t) d1) as [[] ->].
    reflexivity. }
  split; [| split; [| split]].
  - intros Hs Hb. unfold MonitorExecute. apply returns_bind.
    exists d. split.
    + unfold check_primary. cbn [retry_primary]. rewrite Hs. cbn. rewrite Hs. reflexivity.
    + rewrite Hb. apply sample_returns.
  - unfold MonitorExecute. rewrite outcome_bind. split.
    + intros H. destruct (outcome (check_primary t d)) as [d1 | st | c] eqn:Ec.
      * split; [exists d1; exact Ec |].
        destruct (is_standby t); [| reflexivity].
        destruct (sample_returns t d1) as [d2 R]. rewrite R in H. discriminate H.
      * injection H as ->. exfalso.
        destruct E as [[_ E] | [_ E]]; [discriminate E |].
        apply do_failover_exits in E as [E | [E | E]]; discriminate E.
      * discriminate H.
    + intros [[d1 R] Hb]. rewrite R, Hb. apply P.
  - intros st. unfold MonitorExecute. rewrite outcome_bind.
    destruct (outcome (check_primary t d)) as [d1 | st' | c].
    + destruct (is_standby t).
      * destruct (sample_returns t d1) as [d2 ->]. discriminate.
      * rewrite P. intros [= <-]. left. reflexivity.
    + intros [= <-]. right. exact E.
    + discriminate.
  - intros c. unfold MonitorExecute. rewrite outcome_bind.
    destruct (outcome (check_primary t d)) as [d1 | st' | c'].
    + destruct (is_standby t).
      * destruct (sample_returns t d1) as [d2 ->]. discriminate.
      * rewrite P. discriminate.
    + discriminate.
    + intros [= <-]. exact E.
Qed.

(** ** An election nobody answers *)

Lemma pick_best_none (w : world) (f : frame) (count i : nat) (seed : nodeInfo) :
  (forall j, (i <= j < i + count)%nat -> candidate_at w f j = None) ->
  outcome (pick_best w f i count seed) = Ret seed.
Proof.
  revert i. induction count as [| count IH]; intros i H; [reflexivity |].
  rewrite pick_best_step, (H i) by lia. apply IH. intros j L. apply H. lia.
Qed.

Lemma dispatches_app (l1 l2 : list event) :
  dispatches (l1 ++ l2) = dispatches l1 ++ dispatches l2.
Proof. apply omap_app. Qed.

Lemma elect_dispatches (d : daemon) (w : world) (res1 : list node_row)
    (f f2 : frame) (l : XLogRecPtr) (best : nodeInfo) :
  outcome (probe_nodes w res1 0 entry_frame) = Ret f ->
  (visible_nodes f <? Z.quot (1 + Z.of_nat (length res1)) 2) = false ->
  outcome (scan_location (stale_res2 (garbage w)) f) = Ret f2 ->
  outcome (load_location w f2) = Ret l ->
  outcome (pick_best w f2 0 (S (length res1)) (mkNodeInfo (myLocalId d) l true))
  = Ret best ->
  outcome (elect d w res1) = Ret tt
  /\ dispatches (events (elect d w res1))
     = [if nodeId best =? myLocalId d then promote_command else follow_command].
Proof.
  intros Hf Hq H2 Hl Hb. unfold elect.
  rewrite (bind_Ret _ _ _ Hf). cbn [outcome events].
  rewrite bind_emit. cbn [outcome events]. rewrite Hq.
  rewrite bind_emit. cbn [outcome events].
  rewrite (bind_Ret _ _ _ H2). cbn [outcome events].
  rewrite (bind_Ret _ _ _ Hl). cbn [outcome events].
  rewrite (bind_Ret _ _ _ Hb). cbn [outcome events].
  split.
  - destruct (nodeId best =? myLocalId d); reflexivity.
  - rewrite dispatches_app, (dispatches_probing _ (probe_nodes_events _ _ _ _)).
    cbn [app].
    change (dispatches (EvFinish LocalConn :: EvIndeterminate handle_res2 :: ?l))
      with (dispatches l).
    rewrite !dispatches_app.
    unfold dispatches at 1. rewrite omap_scan_location by reflexivity.
    unfold dispatches at 1. rewrite omap_load_location by reflexivity.
    rewrite (dispatches_probing _ (pick_best_events _ _ _ _ _)).
    destruct (nodeId best =? myLocalId d); reflexivity.
Qed.

(** X12. A standby that reaches none of its peers promotes itself whenever
    at most two standbys are listed.  Precisely: when the local position
    is read, the listing succeeds with at most two rows, no listed peer
    answers the position query, the read through the released [res2]
    gives some text, and the element past the listing reads as not ready,
    then the election comes back and the one command it hands to [system]
    is the promote command. *)
Theorem isolated_standby_promotes_itself (d : daemon) (w : world) (stale : string) :
  is_Some (replay_location w) ->
  standbys_listed w = true ->
  (length (list_standbys w (myLocalId d) (myClusterName d)) <= 2)%nat ->
  (forall row, In row (list_standbys w (myLocalId d) (myClusterName d)) ->
               seen w row = false) ->
  stale_res2 (garbage w) = Some stale ->
  is_ready (stack_nodes (garbage w)
              (length (list_standbys w (myLocalId d) (myClusterName d)))) = false ->
  outcome (do_failover d w) = Ret tt
  /\ dispatches (events (do_failover d w)) = [promote_command].
Proof.
  intros [l Hl] Hlisted Hlen Hunseen Hstale Hpast.
  destruct (do_failover_listed d w l Hl Hlisted) as [Ho He].
  cbv zeta in Ho, He. rewrite Ho, He. clear Ho He.
  set (res1 := list_standbys w (myLocalId d) (myClusterName d)) in *.
  assert (Hret : returns (probe_nodes w res1 0 entry_frame)).
  { apply (probing_completes_from w res1 0 entry_frame).
    - unfold entry_frame. cbn [nodes]. apply length_replicate.
    - lia.
    - split; [cbn; lia |]. intros j row c Hj Ha.
      assert (Hs : seen w row = false).
      { apply Hunseen. apply list_elem_of_In. eapply list_elem_of_lookup_2, Hj. }
      unfold seen in Hs. rewrite Ha in Hs. discriminate Hs. }
  destruct Hret as [f Hf].
  destruct (probe_nodes_frame _ _ _ _ _ Hf) as [Hv Hpastf].
  destruct (probe_nodes_cells _ _ _ _ _ Hf) as [_ Hcells].
  assert (Hcount : count_seen w res1 = 0).
  { unfold count_seen. replace (List.filter (seen w) res1) with (@nil node_row);
      [reflexivity |].
    symmetry. clear -Hunseen. induction res1 as [| r rest IH]; [reflexivity |].
    cbn. rewrite (Hunseen r) by (left; reflexivity).
    apply IH. intros row Hin. apply Hunseen. right. exact Hin. }
  cbn [visible_nodes entry_frame] in Hv. rewrite Hcount in Hv.
  assert (Hq : (visible_nodes f <? Z.quot (1 + Z.of_nat (length res1)) 2) = false).
  { rewrite Hv. apply Z.ltb_ge.
    assert (Hn : length res1 = 0%nat \/ length res1 = 1%nat \/ length res1 = 2%nat)
      by lia.
    destruct Hn as [-> | [-> | ->]]; vm_compute; discriminate. }
  destruct (proj2 (scan_location_returns (stale_res2 (garbage w)) f)) as [f2 H2].
  { rewrite Hstale. eexists; reflexivity. }
  destruct (load_location_returns w f2) as [p Hp].
  assert (Hnone : forall j, (0 <= j < 0 + S (length res1))%nat ->
                            candidate_at w f2 j = None).
  { intros j L. unfold candidate_at.
    rewrite (scan_location_cell_at _ _ _ j H2).
    change (cell_at (count_visible f) j) with (cell_at f j).
    destruct (res1 !! j) as [row |] eqn:Ej.
    - specialize (Hcells j row Ej). cbn [Nat.add] in Hcells.
      assert (Hs : seen w row = false).
      { apply Hunseen. apply list_elem_of_In. eapply list_elem_of_lookup_2, Ej. }
      unfold seen in Hs.
      destruct (answer w (n_conninfo row)); [| | discriminate Hs];
        rewrite Hcells; reflexivity.
    - apply lookup_ge_None in Ej.
      assert (j = length res1) as -> by lia.
      unfold cell_at. rewrite (Hpastf (length res1)) by (cbn; lia).
      rewrite entry_frame_blank. cbn [c_is_ready blank default]. rewrite Hpast.
      reflexivity. }
  pose proof (pick_best_none w f2 (S (length res1)) 0
                (mkNodeInfo (myLocalId d) p true) Hnone) as Hb.
  destruct (elect_dispatches d w res1 f f2 p _ Hf Hq H2 Hp Hb) as [Ho Hd].
  split; [exact Ho |].
  rewrite dispatches_app, Hd. cbn [nodeId]. rewrite Z.eqb_refl. reflexivity.
Qed.

Lemma isolated_standby_promotes_itself_witness :
  outcome (do_failover sample_daemon isolated_world) = Ret tt
  /\ dispatches (events (do_failover sample_daemon isolated_world)) = [promote_command].
Proof.
  apply (isolated_standby_promotes_itself sample_daemon isolated_world "0/0").
  - eexists; reflexivity.
  - reflexivity.
  - vm_compute. lia.
  - intros row Hin. reflexivity.
  - reflexivity.
  - reflexivity.
Defined.

(** ** An answer without its row *)

Lemma probe_nodes_null (w : world) (k : nat) (rows : list node_row) (i : nat)
    (f : frame) (row : node_row) (column0 : list string) :
  length (nodes f) = 50%nat -> (i + k < 50)%nat ->
  rows !! k = Some row ->
  answer w (n_conninfo row) = Tuples column0 ->
  PQgetvalue0 column0 (i + k) = None ->
  (forall j r c, (j < k)%nat -> rows !! j = Some r ->
                 answer w (n_conninfo r) = Tuples c ->
                 is_Some (PQgetvalue0 c (i + j))) ->
  outcome (probe_nodes w rows i f) = Crash NullString.
Proof.
  revert rows i f. induction k as [| k IH]; intros rows i f Hf Hi Hk Ha Hnone Hbefore.
  - destruct rows as [| r0 rest]; [discriminate Hk |]. injection Hk as ->.
    cbn [probe_nodes].
    destruct (store_cell_returns i
                (fun c => mkCell (c_nodeId c) (c_xlog_location c) (Some false)) f)
      as (f1 & H1 & _); [lia |].
    rewrite outcome_bind, H1, bind_emit. cbn [outcome]. rewrite Ha.
    rewrite bind_emit. cbn [outcome]. rewrite outcome_bind.
    rewrite Nat.add_0_r in Hnone. rewrite Hnone. reflexivity.
  - destruct rows as [| r0 rest]; [discriminate Hk |].
    change (rest !! k = Some row) in Hk.
    cbn [probe_nodes].
    destruct (store_cell_returns i
                (fun c => mkCell (c_nodeId c) (c_xlog_location c) (Some false)) f)
      as (f1 & H1 & L1 & _); [lia |].
    rewrite Hf in L1.
    rewrite outcome_bind, H1, bind_emit. cbn [outcome].
    assert (Hrest : forall f2, length (nodes f2) = 50%nat ->
               outcome (probe_nodes w rest (S i) f2) = Crash NullString).
    { intros f2 L2. apply (IH rest (S i) f2 L2); [lia | exact Hk | exact Ha | |].
      - replace (S i + k)%nat with (i + S k)%nat by lia. exact Hnone.
      - intros j r c Hj Hr Hc. replace (S i + j)%nat with (i + S j)%nat by lia.
        apply (Hbefore (S j) r c); [lia | exact Hr | exact Hc]. }
    destruct (answer w (n_conninfo r0)) as [| | c0] eqn:E0.
    + apply Hrest, L1.
    + unfold log_info. rewrite !bind_emit. cbn [outcome]. apply Hrest, L1.
    + rewrite bind_emit. cbn [outcome].
      assert (S0 : is_Some (PQgetvalue0 c0 i)).
      { rewrite <- (Nat.add_0_r i). apply (Hbefore 0%nat r0 c0); [lia | reflexivity | exact E0]. }
      apply (scan_location_returns _ (count_visible f1)) in S0 as [f2 H2].
      rewrite outcome_bind, H2.
      apply scan_location_inv in H2 as [_ N2].
      destruct (load_location_returns w f2) as [l Hl].
      rewrite outcome_bind, Hl.
      destruct (store_cell_returns i
                  (fun _ => mkCell (Some (n_id r0)) (Some l) (Some true)) f2)
        as (f3 & H3 & L3 & _).
      { rewrite N2. cbn [count_visible nodes]. lia. }
      rewrite outcome_bind, H3, bind_emit. cbn [outcome].
      apply Hrest. rewrite L3, N2. exact L1.
Qed.

Lemma do_failover_settled (d : daemon) (w : world) :
  settled (conninfo (local_options d)) (do_failover d w).
Proof.
  unfold do_failover.
  apply settled_emit; [reflexivity |].
  destruct (replay_location w) as [l |]; [| reflexivity].
  apply settled_emit; [reflexivity |].
  apply settled_emit; [reflexivity |].
  destruct (standbys_listed w); [apply elect_settled | reflexivity].
Qed.

(** C1, where the code fails it.  The probing loop reads the answer of the
    peer at index i of the listing at row i of the peer's result, which
    has the one row 0.  So whenever a listed peer, among the first 50,
    answers the position query with a result that has no row at the peer's
    own index (and the peers before it, if they answered, had theirs), the
    election hands [sscanf] a null pointer inside the loop: it never gets
    to the quorum test, never exits with the failover-fail status, and
    hands no command to [system], however few peers it has seen. *)
Theorem answer_without_its_row_ends_the_election (d : daemon) (w : world)
    (i : nat) (row : node_row) (column0 : list string) :
  is_Some (replay_location w) ->
  standbys_listed w = true ->
  list_standbys w (myLocalId d) (myClusterName d) !! i = Some row ->
  (i < 50)%nat ->
  answer w (n_conninfo row) = Tuples column0 ->
  PQgetvalue0 column0 i = None ->
  (forall j r c,
      (j < i)%nat ->
      list_standbys w (myLocalId d) (myClusterName d) !! j = Some r ->
      answer w (n_conninfo r) = Tuples c ->
      is_Some (PQgetvalue0 c j)) ->
  outcome (do_failover d w) = Crash NullString
  /\ dispatches (events (do_failover d w)) = [].
Proof.
  intros [l Hl] Hlisted Hi H50 Ha Hnone Hbefore.
  assert (Ho : outcome (do_failover d w) = Crash NullString).
  { destruct (do_failover_listed d w l Hl Hlisted) as [Ho _]. cbv zeta in Ho.
    rewrite Ho. unfold elect. rewrite outcome_bind.
    rewrite (probe_nodes_null w i _ 0 entry_frame row column0); try assumption.
    - reflexivity.
    - unfold entry_frame. cbn [nodes]. apply length_replicate. }
  split; [exact Ho |].
  pose proof (do_failover_settled d w) as S. unfold settled in S.
  rewrite Ho in S. exact S.
Qed.

(** Five standbys are listed and only the second answers: one peer seen,
    two nodes visible, fewer than (1 + 5) / 2 = 3; the run ends in
    [sscanf], not with the failover-fail status. *)
Lemma answer_without_its_row_ends_the_election_witness :
  1 + count_seen second_peer_world
        (list_standbys second_peer_world (myLocalId sample_daemon)
           (myClusterName sample_daemon))
  < (1 + Z.of_nat (length (list_standbys second_peer_world (myLocalId sample_daemon)
                             (myClusterName sample_daemon)))) ÷ 2
  /\ outcome (do_failover sample_daemon second_peer_world) = Crash NullString
  /\ outcome (do_failover sample_daemon second_peer_world) <> Exit ERR_FAILOVER_FAIL.
Proof.
  split; [reflexivity |].
  destruct (answer_without_its_row_ends_the_election sample_daemon second_peer_world
              1 (mkNode 6 "" "host=six") ["2/100"]) as [Ho _].
  - eexists; reflexivity.
  - reflexivity.
  - reflexivity.
  - lia.
  - reflexivity.
  - reflexivity.
  - intros [| j] r c Hj Hr Hc; [| lia].
    injection Hr as <-. discriminate Hc.
  - split; [exact Ho |]. rewrite Ho. discriminate.
Defined.

(** ** Start of the daemon *)

Lemma In_bind_l {A B} (e : event) (m : run A) (k : A -> run B) :
  In e (events m) -> In e (events (m ≫= k)).
Proof.
  intros H. rewrite events_bind. destruct (outcome m); [| exact H | exact H].
  apply in_or_app. left. exact H.
Qed.

Lemma In_bind_r {A B} (e : event) (m : run A) (k : A -> run B) (a : A) :
  outcome m = Ret a -> In e (events (k a)) -> In e (events (m ≫= k)).
Proof.
  intros Hm H. rewrite events_bind, Hm. apply in_or_app. right. exact H.
Qed.

Lemma In_emit_r {B} (e e' : event) (k : unit -> run B) :
  In e (events (k tt)) -> In e (events (emit e' ≫= k)).
Proof. intros H. rewrite bind_emit. right. exact H. Qed.

Lemma CloseConnections_idle (d : daemon) :
  outcome (CloseConnections false false d) = Ret tt
  /\ Forall checking_event (events (CloseConnections false false d)).
Proof.
  unfold CloseConnections. rewrite bind_ret, bind_emit. cbn [outcome events].
  destruct (myLocalMode d); split; repeat constructor.
Qed.

Lemma checkClusterConfiguration_outcome (b : boot) (d : daemon) :
  outcome (checkClusterConfiguration b d)
  = if negb (tables_query_ok b) then Exit ERR_DB_QUERY
    else if negb (tables_found b) then Exit ERR_BAD_CONFIG
    else Ret tt.
Proof.
  unfold checkClusterConfiguration, log_info, log_err.
  rewrite !bind_emit. cbn [outcome].
  destruct (CloseConnections_idle d) as [Hc _].
  destruct (negb (tables_query_ok b)).
  { rewrite ?bind_emit. cbn [outcome]. rewrite outcome_bind, Hc. reflexivity. }
  destruct (negb (tables_found b)); [| reflexivity].
  rewrite ?bind_emit. cbn [outcome]. rewrite outcome_bind, Hc. reflexivity.
Qed.

Lemma checkClusterConfiguration_checking (b : boot) (d : daemon) :
  Forall checking_event (events (checkClusterConfiguration b d)).
Proof.
  destruct (CloseConnections_idle d) as [_ Hc].
  unfold checkClusterConfiguration.
  apply Forall_bind; [repeat constructor | intros _ _].
  apply Forall_bind; [repeat constructor | intros _ _].
  destruct (negb (tables_query_ok b)).
  { apply Forall_bind; [repeat constructor | intros _ _].
    apply Forall_bind; [exact Hc | intros _ _]. constructor. }
  destruct (negb (tables_found b)); [| constructor].
  apply Forall_bind; [repeat constructor | intros _ _].
  apply Forall_bind; [exact Hc | intros _ _]. constructor.
Qed.

Lemma checkNodeConfiguration_outcome (e : registration) (d : daemon) (db : node_tables) :
  outcome (checkNodeConfiguration e d db)
  = if negb (select_ok e) then Exit ERR_BAD_CONFIG
    else match select_node (node (local_options d)) (cluster_name (local_options d))
                 (local_view d db) with
         | [] =>
             match inserted e with
             | InsertNull => Exit ERR_BAD_CONFIG
             | InsertError => Ret db
             | InsertDone =>
                 Ret (insert_node (mkNode (node (local_options d))
                                          (cluster_name (local_options d))
                                          (conninfo (local_options d))) db)
             end
         | _ :: _ => Ret db
         end.
Proof.
  unfold checkNodeConfiguration, log_info, log_err.
  rewrite !bind_emit. cbn [outcome].
  destruct (CloseConnections_idle d) as [Hc _].
  destruct (negb (select_ok e)).
  { rewrite ?bind_emit. cbn [outcome]. rewrite outcome_bind, Hc. reflexivity. }
  destruct (select_node _ _ _); [| reflexivity].
  cbv zeta. rewrite ?bind_emit. cbn [outcome].
  destruct (inserted e); try reflexivity.
  rewrite ?bind_emit. cbn [outcome]. rewrite outcome_bind, Hc. reflexivity.
Qed.

(** The events of [checkNodeConfiguration] are those of a check, but for
    the insert and the second release of [res] after it. *)
Lemma checkNodeConfiguration_checking (e : registration) (d : daemon) (db : node_tables)
    (x : event) :
  In x (events (checkNodeConfiguration e d db)) ->
  checking_event x
  \/ select_ok e = true
     /\ select_node (node (local_options d)) (cluster_name (local_options d))
          (local_view d db) = []
     /\ (x = EvExec PrimaryConn (q_insert_node (mkNode (node (local_options d))
                                                   (cluster_name (local_options d))
                                                   (conninfo (local_options d))))
         \/ x = EvIndeterminate handle_res /\ inserted e <> InsertNull).
Proof.
  destruct (CloseConnections_idle d) as [_ Hc].
  unfold checkNodeConfiguration, log_info, log_err. intros H.
  apply In_events_emit in H as [-> | H]; [left; exact I |].
  apply In_events_emit in H as [-> | H]; [left; exact I |].
  destruct (select_ok e); cbn [negb] in H.
  2:{ apply In_events_emit in H as [-> | H]; [left; exact I |].
      apply In_events_bind in H as [H | (_ & _ & H)]; [| destruct H].
      left. exact (Forall_In _ _ _ Hc H). }
  destruct (select_node _ _ _) eqn:Es; [| destruct H].
  cbv zeta in H.
  apply In_events_emit in H as [-> | H]; [left; exact I |].
  apply In_events_emit in H as [-> | H]; [right; auto |].
  destruct (inserted e).
  - apply In_events_emit in H as [-> | H]; [left; exact I |].
    apply In_events_bind in H as [H | (_ & _ & H)]; [| destruct H].
    left. exact (Forall_In _ _ _ Hc H).
  - apply In_events_emit in H as [-> | H]; [| destruct H].
    right. split; [reflexivity |]. split; [reflexivity |]. right.
    split; [reflexivity | discriminate].
  - apply In_events_emit in H as [-> | H]; [| destruct H].
    right. split; [reflexivity |]. split; [reflexivity |]. right.
    split; [reflexivity | discriminate].
Qed.

Lemma checkNodeConfiguration_inserts (e : registration) (d : daemon) (db : node_tables) :
  select_ok e = true ->
  select_node (node (local_options d)) (cluster_name (local_options d))
    (local_view d db) = [] ->
  In (EvExec PrimaryConn (q_insert_node (mkNode (node (local_options d))
                                           (cluster_name (local_options d))
                                           (conninfo (local_options d)))))
     (events (checkNodeConfiguration e d db)).
Proof.
  intros Hs He. unfold checkNodeConfiguration, log_info.
  do 2 apply In_emit_r. rewrite Hs, He. cbn [negb]. cbv zeta.
  apply In_emit_r. rewrite bind_emit. left. reflexivity.
Qed.

Lemma Forall_checking_starting (b : boot) (l : list event) :
  Forall checking_event l -> Forall (starting_event b) l.
Proof. intros H. eapply Forall_impl; [exact H |]. intros e He. left. exact He. Qed.

Lemma insert_not_checking (r : node_row) (c : conn) (l : list event) :
  Forall checking_event l -> ~ In (EvExec c (q_insert_node r)) l.
Proof.
  intros F H. pose proof (Forall_In _ _ _ F H) as C. destruct c; exact C.
Qed.

Lemma bind_log_info {B} (m : message) (k : unit -> run B) :
  log_info m ≫= k = mkRun (outcome (k tt)) (EvLog LOG_INFO m :: events (k tt)).
Proof. reflexivity. Qed.

Lemma bind_Exit {A B} (m : run A) (k : A -> run B) (st : exit_status) :
  outcome m = Exit st -> m ≫= k = mkRun (Exit st) (events m).
Proof. intros H. unfold mbind, run_bind. rewrite H. reflexivity. Qed.

Lemma connect_stage (b : boot) :
  let d0 := set_mode (if standby b then STANDBY_MODE else PRIMARY_MODE)
                     (set_local_options (parsed b) at_load) in
  let stage :=
    match myLocalMode d0 with
    | PRIMARY_MODE => mret (set_primary (node (local_options d0)) d0)
    | STANDBY_MODE =>
        log_info connecting_to_primary;;
        emit EvDiscover;;
        match master b with
        | Some id => mret (set_primary id d0)
        | None => emit (EvFinish LocalConn);; exit ERR_BAD_CONFIG
        end
    end in
  Forall checking_event (events stage)
  /\ (standby b = true /\ master b = None /\ outcome stage = Exit ERR_BAD_CONFIG
      \/ (standby b = true -> is_Some (master b))
         /\ outcome stage = Ret (role_daemon b)
         /\ finishes (events stage) = []).
Proof.
  unfold role_daemon. destruct (standby b); cbn [myLocalMode set_mode].
  - destruct (master b) as [id |].
    + split; [repeat constructor |]. right. split; [eauto |]. split; reflexivity.
    + split; [repeat constructor |]. left. auto.
  - split; [constructor |]. right. split; [discriminate |]. split; reflexivity.
Qed.

Lemma checkClusterConfiguration_open (b : boot) (d : daemon) :
  outcome (checkClusterConfiguration b d) = Ret tt ->
  finishes (events (checkClusterConfiguration b d)) = [].
Proof.
  rewrite checkClusterConfiguration_outcome.
  unfold checkClusterConfiguration, log_info.
  destruct (negb (tables_query_ok b)); [discriminate |].
  destruct (negb (tables_found b)); [discriminate |]. reflexivity.
Qed.

Lemma checkNodeConfiguration_open (e : registration) (d : daemon) (db db1 : node_tables) :
  outcome (checkNodeConfiguration e d db) = Ret db1 ->
  finishes (events (checkNodeConfiguration e d db)) = [].
Proof.
  rewrite checkNodeConfiguration_outcome.
  unfold checkNodeConfiguration, log_info.
  destruct (negb (select_ok e)); [discriminate |].
  destruct (select_node _ _ _); [| reflexivity].
  destruct (inserted e); [discriminate | reflexivity | reflexivity].
Qed.

Lemma main_cases (b : boot) (db : node_tables) :
  (~ checks_pass b
   /\ Forall checking_event (events (main b db))
   /\ (outcome (main b db) = Exit ERR_BAD_CONFIG
       \/ outcome (main b db) = Exit ERR_DB_QUERY /\ tables_query_ok b = false))
  \/ (checks_pass b /\ own_rows b db = [] /\ inserted (reg b) = InsertNull
      /\ outcome (main b db) = Exit ERR_BAD_CONFIG
      /\ In (insert_own_row b) (events (main b db))
      /\ Forall (starting_event b) (events (main b db)))
  \/ (startup_passes b db
      /\ exists pre,
           Forall (starting_event b) pre
           /\ (In (insert_own_row b) pre <-> own_rows b db = [])
           /\ finishes pre = []
           /\ main b db
              = mkRun (outcome (after_startup b db))
                      (pre ++ settled_line b :: events (after_startup b db))).
Proof.
  unfold main.
  change (node (local_options (set_local_options (parsed b) at_load)))
    with (node (parsed b)).
  destruct (node (parsed b) =? -1) eqn:En.
  { left. split; [intros (N & _); apply Z.eqb_eq in En; contradiction |].
    split; [repeat constructor | left; reflexivity]. }
  apply Z.eqb_neq in En.
  rewrite (bind_log_info connecting_to_database), (bind_emit (EvConnect _)),
    (bind_log_info checking_state).
  cbn [outcome events].
  destruct (version_ok b) eqn:Ev; cbn [negb].
  2:{ left. split; [intros (_ & N & _); congruence |].
      split; [repeat constructor | left; reflexivity]. }
  destruct (connect_stage b) as [F1 [(Hs & Hm & Ho) | (Hm & Ho & G1)]];
    cbv zeta in F1, Ho; [| cbv zeta in G1].
  { left. split.
    { intros (_ & _ & N & _). destruct (N Hs) as [x Hx]. rewrite Hm in Hx.
      discriminate Hx. }
    rewrite (bind_Exit _ _ _ Ho). cbn [outcome events].
    split; [repeat constructor; exact F1 | left; reflexivity]. }
  rewrite (bind_Ret _ _ _ Ho). cbn [outcome events].
  pose proof (checkClusterConfiguration_outcome b (role_daemon b)) as Hcc.
  pose proof (checkClusterConfiguration_checking b (role_daemon b)) as Fcc.
  destruct (tables_query_ok b) eqn:Etq; cbn [negb] in Hcc.
  2:{ left. split; [intros (_ & _ & _ & N & _); congruence |].
      rewrite (bind_Exit _ _ _ Hcc). cbn [outcome events].
      split; [| right; split; reflexivity].
      repeat constructor. apply Forall_app. split; assumption. }
  destruct (tables_found b) eqn:Etf; cbn [negb] in Hcc.
  2:{ left. split; [intros (_ & _ & _ & _ & N & _); congruence |].
      rewrite (bind_Exit _ _ _ Hcc). cbn [outcome events].
      split; [| left; reflexivity].
      repeat constructor. apply Forall_app. split; assumption. }
  pose proof (checkClusterConfiguration_open b (role_daemon b) Hcc) as Gcc.
  rewrite (bind_Ret _ _ _ Hcc). cbn [outcome events].
  assert (Hview : local_view (role_daemon b) db
                  = if standby b then standby_copy db else primary_copy db).
  { unfold local_view, role_daemon. destruct (standby b); reflexivity. }
  assert (Hmode : myLocalMode (role_daemon b)
                  = if standby b then STANDBY_MODE else PRIMARY_MODE) by reflexivity.
  assert (Hcn : outcome (checkNodeConfiguration (reg b) (role_daemon b) db)
                = if negb (select_ok (reg b)) then Exit ERR_BAD_CONFIG
                  else match own_rows b db with
                       | [] =>
                           match inserted (reg b) with
                           | InsertNull => Exit ERR_BAD_CONFIG
                           | InsertError => Ret db
                           | InsertDone => Ret (insert_node (own_row b) db)
                           end
                       | _ :: _ => Ret db
                       end).
  { rewrite checkNodeConfiguration_outcome. unfold own_rows, own_row.
    rewrite Hview. reflexivity. }
  assert (Fcn : forall x,
             In x (events (checkNodeConfiguration (reg b) (role_daemon b) db)) ->
             checking_event x
             \/ select_ok (reg b) = true /\ own_rows b db = []
                /\ (x = insert_own_row b
                    \/ x = EvIndeterminate handle_res /\ inserted (reg b) <> InsertNull)).
  { intros x Hx. apply checkNodeConfiguration_checking in Hx.
    unfold own_rows. rewrite <- Hview. exact Hx. }
  assert (Icn : select_ok (reg b) = true -> own_rows b db = [] ->
                In (insert_own_row b)
                   (events (checkNodeConfiguration (reg b) (role_daemon b) db))).
  { intros Hsel Hown. apply checkNodeConfiguration_inserts; [exact Hsel |].
    rewrite Hview. exact Hown. }
  set (cn := checkNodeConfiguration (reg b) (role_daemon b) db) in *.
  set (cc := checkClusterConfiguration b (role_daemon b)) in *.
  match type of F1 with
  | Forall _ (events ?st) => set (stage := st) in *
  end.
  assert (Fpre : forall l,
             Forall (starting_event b) l ->
             Forall (starting_event b)
               (EvLog LOG_INFO connecting_to_database
                :: EvConnect (conninfo (local_options
                                          (set_local_options (parsed b) at_load)))
                   :: EvLog LOG_INFO checking_state
                      :: events stage ++ events cc ++ l)).
  { intros l Fl. repeat (constructor; [left; exact I |]).
    apply Forall_app. split; [apply Forall_checking_starting, F1 |].
    apply Forall_app. split; [apply Forall_checking_starting, Fcc | exact Fl]. }
  assert (Npre : forall l,
             In (insert_own_row b)
               (EvLog LOG_INFO connecting_to_database
                :: EvConnect (conninfo (local_options
                                          (set_local_options (parsed b) at_load)))
                   :: EvLog LOG_INFO checking_state
                      :: events stage ++ events cc ++ l) ->
             In (insert_own_row b) l).
  { intros l H. repeat (destruct H as [H | H]; [discriminate H |]).
    apply in_app_or in H as [H | H];
      [destruct (insert_not_checking _ _ _ F1 H) |].
    apply in_app_or in H as [H | H];
      [destruct (insert_not_checking _ _ _ Fcc H) | exact H]. }
  destruct (select_ok (reg b)) eqn:Esel; cbn [negb] in Hcn.
  2:{ left. split; [intros (_ & _ & _ & _ & _ & N); congruence |].
      rewrite (bind_Exit _ _ _ Hcn). cbn [outcome events].
      split; [| left; reflexivity].
      repeat constructor. apply Forall_app. split; [exact F1 |].
      apply Forall_app. split; [exact Fcc |].
      apply Forall_forall. intros x Hx. apply list_elem_of_In in Hx.
      destruct (Fcn x Hx) as [C | (N & _)]; [exact C | discriminate N]. }
  assert (Hchecks : checks_pass b).
  { unfold checks_pass. repeat split; assumption. }
  assert (Fev : Forall (starting_event b) (events cn)).
  { apply Forall_forall. intros x Hx. apply list_elem_of_In in Hx.
    destruct (Fcn x Hx) as [C | (_ & _ & [-> | [-> _]])];
      [left; exact C | right; right; reflexivity | right; left; reflexivity]. }
  assert (Hpass : forall db1,
             (own_rows b db = [] -> inserted (reg b) <> InsertNull) ->
             outcome cn = Ret db1 -> registered b db = db1 ->
             startup_passes b db
             /\ exists pre,
                  Forall (starting_event b) pre
                  /\ (In (insert_own_row b) pre <-> own_rows b db = [])
                  /\ finishes pre = []
                  /\ mkRun
                       (outcome
                          (cn ≫= fun db0 =>
                             match myLocalMode (role_daemon b) with
                             | STANDBY_MODE =>
                                 log_info starting_monitoring;;
                                 d ← MonitorCheck (ticks b) (role_daemon b);
                                 mret (d, db0)
                             | PRIMARY_MODE =>
                                 log_info primary_node_exiting;;
                                 emit (EvFinish PrimaryConn);;
                                 mret (role_daemon b, db0)
                             end))
                       (EvLog LOG_INFO connecting_to_database
                        :: EvConnect (conninfo (local_options
                                                  (set_local_options (parsed b) at_load)))
                           :: EvLog LOG_INFO checking_state
                              :: events stage ++ events cc
                                 ++ events
                                      (cn ≫= fun db0 =>
                                         match myLocalMode (role_daemon b) with
                                         | STANDBY_MODE =>
                                             log_info starting_monitoring;;
                                             d ← MonitorCheck (ticks b) (role_daemon b);
                                             mret (d, db0)
                                         | PRIMARY_MODE =>
                                             log_info primary_node_exiting;;
                                             emit (EvFinish PrimaryConn);;
                                             mret (role_daemon b, db0)
                                         end))
                     = mkRun (outcome (after_startup b db))
                             (pre ++ settled_line b :: events (after_startup b db))).
  { intros db1 Hins Ho1 Hreg. split; [split; assumption |].
    exists (EvLog LOG_INFO connecting_to_database
            :: EvConnect (conninfo (local_options
                                      (set_local_options (parsed b) at_load)))
               :: EvLog LOG_INFO checking_state
                  :: events stage ++ events cc ++ events cn).
    split; [apply Fpre, Fev |]. split.
    { split.
      - intros H. apply Npre in H.
        destruct (Fcn _ H) as [C | (_ & Hown & _)]; [destruct C | exact Hown].
      - intros Hown. do 3 right. apply in_or_app. right. apply in_or_app. right.
        apply Icn; [reflexivity | exact Hown]. }
    split.
    { change (finishes (events stage ++ events cc ++ events cn) = []).
      unfold finishes in *. rewrite !omap_app, G1, Gcc.
      exact (checkNodeConfiguration_open _ _ _ _ Ho1). }
    rewrite (bind_Ret _ _ _ Ho1). cbn [outcome events].
    rewrite Hmode. unfold after_startup, settled_line. rewrite Hreg.
    destruct (standby b).
    - rewrite bind_log_info. cbn [outcome events app].
      rewrite <- !app_assoc. reflexivity.
    - rewrite bind_log_info. cbn [outcome events app].
      rewrite <- !app_assoc. reflexivity. }
  destruct (own_rows b db) as [| r rs] eqn:Eown.
  2:{ right. right.
      apply (Hpass db); [discriminate | exact Hcn |].
      unfold registered. rewrite Eown. reflexivity. }
  destruct (inserted (reg b)) eqn:Eins.
  - right. left.
    split; [exact Hchecks |]. split; [reflexivity |]. split; [reflexivity |].
    rewrite (bind_Exit _ _ _ Hcn). cbn [outcome events].
    split; [reflexivity |]. split.
    + do 3 right. apply in_or_app. right. apply in_or_app. right.
      apply Icn; reflexivity.
    + apply Fpre, Fev.
  - right. right.
    apply (Hpass db); [discriminate | exact Hcn |].
    unfold registered. rewrite Eown, Eins. reflexivity.
  - right. right.
    apply (Hpass (insert_node (own_row b) db)); [discriminate | exact Hcn |].
    unfold registered. rewrite Eown, Eins. reflexivity.
Qed.

Lemma settled_line_not_starting (b : boot) : ~ starting_event b (settled_line b).
Proof.
  unfold starting_event, settled_line, insert_own_row.
  intros [C | [E | E]]; [| discriminate E | discriminate E].
  destruct (standby b); exact C.
Qed.

Lemma insert_starting (b : boot) (c : conn) (r : node_row) :
  starting_event b (EvExec c (q_insert_node r)) -> c = PrimaryConn /\ r = own_row b.
Proof.
  unfold starting_event, insert_own_row.
  intros [C | [E | E]]; [destruct c; destruct C | discriminate E |].
  injection E as -> ->. split; reflexivity.
Qed.

(** X13. The start of the daemon goes through, up to the line that
    announces the monitoring on a standby and the exit on a primary,
    exactly when the node is configured, the server reports a version, a
    standby finds its primary, the cluster's tables are found, the query
    for the node's row succeeds, and the row is there or the [INSERT]
    gives a result.  Otherwise [main] exits with the bad-configuration
    status, or with the query status when the query for the tables
    failed. *)
Theorem startup_settles_iff (b : boot) (db : node_tables) :
  (In (settled_line b) (events (main b db)) <-> startup_passes b db)
  /\ (~ startup_passes b db ->
      outcome (main b db) = Exit ERR_BAD_CONFIG
      \/ outcome (main b db) = Exit ERR_DB_QUERY /\ tables_query_ok b = false).
Proof.
  destruct (main_cases b db)
    as [(N & F & O) | [(C & Eo & Ei & O & Hin & F) | (P & pre & Fp & Ip & Gp & E)]].
  - split; [| intros _; exact O]. split.
    + intros H. destruct (settled_line_not_starting b). left.
      exact (Forall_In _ _ _ F H).
    + intros [C _]. contradiction.
  - split; [| intros _; left; exact O]. split.
    + intros H. destruct (settled_line_not_starting b (Forall_In _ _ _ F H)).
    + intros [_ H]. destruct (H Eo Ei).
  - split; [| intros N; contradiction]. split; [intros _; exact P |].
    intros _. rewrite E. cbn [events]. apply in_or_app. right. left. reflexivity.
Qed.

(** X14. [main] sends the [INSERT] for the node's row exactly when all the
    checks before it passed and the query through the local connection
    found no row for the configured node and cluster; the statement goes
    to the primary and carries the configured id, cluster and connection
    string.  No tick of the monitoring loop ever sends it. *)
Theorem node_row_is_inserted_iff (b : boot) (db : node_tables) (c : conn) (r : node_row) :
  In (EvExec c (q_insert_node r)) (events (main b db))
  <-> c = PrimaryConn /\ r = own_row b /\ checks_pass b /\ own_rows b db = [].
Proof.
  destruct (main_cases b db)
    as [(N & F & O) | [(C & Eo & Ei & O & Hin & F) | (P & pre & Fp & Ip & Gp & E)]].
  - split.
    + intros H. destruct (insert_not_checking _ _ _ F H).
    + intros (_ & _ & C & _). contradiction.
  - split.
    + intros H. destruct (insert_starting b c r (Forall_In _ _ _ F H)) as [-> ->].
      auto.
    + intros (-> & -> & _). exact Hin.
  - split.
    + intros H. rewrite E in H. cbn [events] in H.
      apply in_app_or in H as [H | [H | H]].
      * destruct (insert_starting b c r (Forall_In _ _ _ Fp H)) as [-> ->].
        split; [reflexivity |]. split; [reflexivity |].
        split; [exact (proj1 P) | apply Ip, H].
      * unfold settled_line in H. discriminate H.
      * exfalso. unfold after_startup in H. destruct (standby b).
        -- apply In_events_bind in H as [H | (d & _ & H)]; [| destruct H].
           pose proof (Forall_In _ _ _ (MonitorCheck_events _ _) H) as M.
           destruct c; exact M.
        -- cbn in H. destruct H as [H | H]; [discriminate H | exact H].
    + intros (-> & -> & _ & Hown). rewrite E. cbn [events].
      apply in_or_app. left. apply Ip, Hown.
Qed.

Lemma checking_is_startup (e : event) : checking_event e -> startup_event e.
Proof.
  destruct e as [[] [] | | | | | | [] [] | | | |]; cbn; tauto.
Qed.

Lemma starting_is_startup (b : boot) (e : event) : starting_event b e -> startup_event e.
Proof.
  intros [C | [-> | ->]]; [apply checking_is_startup, C | exact I | exact I].
Qed.

(** X15. Started on a primary, the daemon only checks and registers: it
    never sleeps, never sends a row for [repl_monitor] and never runs an
    election, whatever ticks would follow.  When the start goes through,
    [main] returns, with the node itself as the daemon's primary, and the
    last thing it does is the one call of [PQfinish] on the connection
    that serves as both the local and the primary one. *)
Theorem daemon_on_a_primary (b : boot) (db : node_tables) :
  standby b = false ->
  Forall startup_event (events (main b db))
  /\ (returns (main b db) <-> startup_passes b db)
  /\ (startup_passes b db ->
      outcome (main b db) = Ret (role_daemon b, registered b db)
      /\ primary_node (role_daemon b) = node (parsed b)
      /\ exists pre,
           events (main b db) = pre ++ [settled_line b; EvFinish PrimaryConn]
           /\ finishes pre = []).
Proof.
  intros Hs.
  destruct (main_cases b db)
    as [(N & F & O) | [(C & Eo & Ei & O & Hin & F) | (P & pre & Fp & Ip & Gp & E)]].
  - split; [eapply Forall_impl; [exact F | apply checking_is_startup] |].
    split; [| intros [C _]; contradiction]. split.
    + intros [a Ha]. destruct O as [O | [O _]]; rewrite O in Ha; discriminate Ha.
    + intros [C _]. contradiction.
  - split; [eapply Forall_impl; [exact F | apply starting_is_startup] |].
    split; [| intros [_ H]; destruct (H Eo Ei)]. split.
    + intros [a Ha]. rewrite O in Ha. discriminate Ha.
    + intros [_ H]. destruct (H Eo Ei).
  - assert (T : after_startup b db
                = mkRun (Ret (role_daemon b, registered b db)) [EvFinish PrimaryConn]).
    { unfold after_startup. rewrite Hs. reflexivity. }
    rewrite T in E. cbn [outcome events] in E. rewrite E. cbn [outcome events].
    split.
    { apply Forall_app. split.
      - eapply Forall_impl; [exact Fp | apply starting_is_startup].
      - repeat constructor. }
    split; [split; [intros _; exact P | intros _; eexists; reflexivity] |].
    intros _. split; [reflexivity |].
    split; [unfold role_daemon; rewrite Hs; reflexivity |].
    exists pre. split; [reflexivity | exact Gp].
Qed.

Lemma daemon_on_a_primary_witness :
  outcome (main (mkBoot sample_options true false None true true
                        (mkRegistration true InsertDone) [])
                (mkTables [] []))
  = Ret (set_primary 2 (set_mode PRIMARY_MODE (set_local_options sample_options at_load)),
         mkTables [mkNode 2 "test" "host=two"] []).
Proof.
  apply (daemon_on_a_primary
           (mkBoot sample_options true false None true true
                   (mkRegistration true InsertDone) [])
           (mkTables [] []) eq_refl).
  split.
  - repeat split; try reflexivity; discriminate.
  - discriminate.
Defined.

(** ** Byte positions and the order of log positions *)

Lemma wrap32_range (z : Z) : 0 <= wrap32 z < 2 ^ 32.
Proof. unfold wrap32. apply Z.mod_pos_bound. reflexivity. Qed.

Lemma scan_X_range (s : string) (v : Z) (rest : string) :
  scan_X s = Converted v rest -> 0 <= v < 2 ^ 32.
Proof.
  unfold scan_X. destruct (skip_space s) as [| c t]; [discriminate |].
  destruct (code c =? 45); [| destruct (code c =? 43)];
    match goal with
    | |- context [scan_magnitude ?x] => destruct (scan_magnitude x) as [[v' r] |]
    end;
    try discriminate; intros [= <- _]; apply wrap32_range.
Qed.

Lemma sscanf_XX_range (s : string) (a b : Z) :
  sscanf_XX s = ScanTwo a b -> 0 <= a < 2 ^ 32 /\ 0 <= b < 2 ^ 32.
Proof.
  unfold sscanf_XX. destruct (scan_X s) as [| | a' rest] eqn:E1; try discriminate.
  destruct rest as [| c rest']; [discriminate |].
  destruct c as [[] [] [] [] [] [] [] []]; try discriminate.
  destruct (scan_X rest') as [| | b' r2] eqn:E2; try discriminate.
  intros [= <- <-]. split; [exact (scan_X_range _ _ _ E1) | exact (scan_X_range _ _ _ E2)].
Qed.

Lemma bytes_of_scanned (s : string) (a b : Z) :
  sscanf_XX s = ScanTwo a b -> bytes_of s = a * 0xFF000000 + b.
Proof.
  intros H. destruct (sscanf_XX_range s a b H) as [Ha Hb].
  unfold bytes_of, walLocationToBytes. rewrite H. cbn [outcome mret run_ret].
  apply bytes_formula; assumption.
Qed.

(** X16. The byte position [walLocationToBytes] computes keeps the order
    of the log positions, the one an election compares candidates by, as
    long as the offsets stay below 0xFF000000: of two texts that scan as
    two fields, one is strictly before the other as a log position exactly
    when its byte position is strictly smaller, and the byte positions
    agree only when both fields do. *)
Theorem byte_positions_keep_the_order (s1 s2 : string) (a1 b1 a2 b2 : Z) :
  sscanf_XX s1 = ScanTwo a1 b1 ->
  sscanf_XX s2 = ScanTwo a2 b2 ->
  b1 < 0xFF000000 ->
  b2 < 0xFF000000 ->
  (bytes_of s1 < bytes_of s2
   <-> XLByteLT (mkXLogRecPtr a1 b1) (mkXLogRecPtr a2 b2) = true)
  /\ (bytes_of s1 = bytes_of s2 <-> a1 = a2 /\ b1 = b2).
Proof.
  intros H1 H2 L1 L2.
  destruct (sscanf_XX_range _ _ _ H1) as [Ra1 Rb1].
  destruct (sscanf_XX_range _ _ _ H2) as [Ra2 Rb2].
  rewrite (bytes_of_scanned _ _ _ H1), (bytes_of_scanned _ _ _ H2).
  unfold XLByteLT. cbn [xlogid xrecoff].
  rewrite Bool.orb_true_iff, Bool.andb_true_iff, Z.ltb_lt, Z.eqb_eq, Z.ltb_lt.
  split; split; intros H; nia.
Qed.

Lemma byte_positions_keep_the_order_witness :
  (bytes_of "1/FFFFFF" < bytes_of "2/100"
   <-> XLByteLT (mkXLogRecPtr 1 0xFFFFFF) (mkXLogRecPtr 2 0x100) = true)
  /\ (bytes_of "1/FFFFFF" = bytes_of "2/100" <-> 1 = 2 /\ 0xFFFFFF = 0x100).
Proof.
  apply (byte_positions_keep_the_order "1/FFFFFF" "2/100" 1 0xFFFFFF 2 0x100);
    reflexivity.
Defined.

(** ** One row per tick *)

Lemma rows_sent_app (l1 l2 : list event) :
  rows_sent (l1 ++ l2) = rows_sent l1 ++ rows_sent l2.
Proof. apply omap_app. Qed.

Lemma rows_sent_none (l : list event) :
  (forall a q, ~ In (EvSend a q) l) -> rows_sent l = [].
Proof.
  intros H. apply omap_none. apply Forall_forall. intros e He.
  apply list_elem_of_In in He.
  destruct e as [| | | | | | | a q | | |]; try reflexivity.
  destruct (H a q He).
Qed.

Lemma rows_sent_supervising (id : Z) (c : string) (l : list event) :
  Forall (supervising_event id c) l -> rows_sent l = [].
Proof.
  intros F. apply rows_sent_none. intros a q H.
  exact (Forall_In _ _ _ F H).
Qed.

Lemma rows_sent_bytes (s : string) : rows_sent (events (walLocationToBytes s)) = [].
Proof. apply rows_sent_none. intros a q. apply walLocationToBytes_no_send. Qed.

Lemma sample_rows (t : tick) (d : daemon) :
  (length (rows_sent (events (sample t d))) <= 1)%nat
  /\ (rows_sent (events (sample t d)) <> []
      <-> is_Some (local_positions t) /\ is_Some (primary_location t)).
Proof.
  unfold sample.
  assert (R : exists d1,
             outcome (if PQisBusy t d then CancelQuery (cancel_stops t) d else mret d)
             = Ret d1
             /\ rows_sent (events (if PQisBusy t d
                                   then CancelQuery (cancel_stops t) d else mret d))
                = []).
  { destruct (PQisBusy t d).
    - destruct (CancelQuery_returns (cancel_stops t) d) as [d1 H1]. exists d1.
      split; [exact H1 |]. unfold CancelQuery. destruct (cancel_stops t); reflexivity.
    - exists d. split; reflexivity. }
  destruct R as (d1 & H1 & E1).
  rewrite (bind_Ret _ _ _ H1). cbn [events]. rewrite rows_sent_app, E1. cbn [app].
  rewrite bind_emit. cbn [events].
  destruct (local_positions t) as [[[ts received] applied] |].
  2:{ cbn. split; [lia |]. split; [intros N; destruct (N eq_refl) |].
      intros [[x Hx] _]. discriminate Hx. }
  rewrite bind_emit. cbn [events].
  destruct (primary_location t) as [primary |].
  2:{ cbn. split; [lia |]. split; [intros N; destruct (N eq_refl) |].
      intros [_ [x Hx]]. discriminate Hx. }
  rewrite (bind_Ret _ _ _ (walLocationToBytes_returns primary)). cbn [events].
  rewrite (bind_Ret _ _ _ (walLocationToBytes_returns received)). cbn [events].
  rewrite (bind_Ret _ _ _ (walLocationToBytes_returns applied)). cbn [events].
  rewrite bind_emit. cbn [events].
  change (rows_sent (EvExec LocalConn q_local_positions
                     :: EvExec PrimaryConn q_current_location :: ?l))
    with (rows_sent l).
  rewrite !rows_sent_app, !rows_sent_bytes. cbn [app].
  destruct (send_accepted t); cbn.
  - split; [lia |]. split; [intros _; split; eexists; reflexivity | discriminate].
  - split; [lia |]. split; [intros _; split; eexists; reflexivity | discriminate].
Qed.

(** C4, as the code has it.  A tick hands at most one row for
    [repl_monitor] to [PQsendQuery], and it hands one over exactly when its
    first half comes back, the local node is still a standby and both
    position queries give a result: no row is held back for the sign or
    the size of its lags.  Every row handed over carries, as its two lags,
    the differences of the byte positions reduced to a signed 64-bit
    integer: the difference itself whenever it lies between -2^63 and
    2^63 - 1, negative values included, neither clamped nor dropped. *)
Theorem recorded_lag (t : tick) (d : daemon) :
  (length (rows_sent (events (MonitorExecute t d))) <= 1)%nat
  /\ (rows_sent (events (MonitorExecute t d)) <> []
      <-> returns (check_primary t d)
          /\ is_standby t = true
          /\ is_Some (local_positions t)
          /\ is_Some (primary_location t))
  /\ forall (a : bool) (row : monitor_row),
       In (EvSend a (q_insert_monitor row)) (events (MonitorExecute t d)) ->
       exists ts received applied primary,
         local_positions t = Some (ts, received, applied)
         /\ primary_location t = Some primary
         /\ m_primary_location row = primary
         /\ m_standby_received row = received
         /\ m_behind_receive row = signed64 (bytes_of primary - bytes_of received)
         /\ m_behind_apply row = signed64 (bytes_of received - bytes_of applied)
         /\ (- 2 ^ 63 <= bytes_of primary - bytes_of received < 2 ^ 63 ->
             m_behind_receive row = bytes_of primary - bytes_of received)
         /\ (- 2 ^ 63 <= bytes_of received - bytes_of applied < 2 ^ 63 ->
             m_behind_apply row = bytes_of received - bytes_of applied).
Proof.
  assert (Hquiet : forall d1,
             rows_sent
               (events (log_err seems_promoted;;
                        CloseConnections (PQisBusy t d1) (cancel_stops t) d1;;
                        exit ERR_PROMOTED : run daemon)) = []).
  { intros d1. apply rows_sent_none. intros a q H.
    apply In_events_emit in H as [H | H]; [discriminate H |].
    apply In_events_bind in H as [H | (_ & _ & H)]; [| destruct H].
    exact (CloseConnections_no_send _ _ _ _ _ H). }
  pose proof (rows_sent_supervising _ _ _ (check_primary_events t d)) as E0.
  assert (Hrows : rows_sent (events (MonitorExecute t d))
                  = match outcome (check_primary t d) with
                    | Ret d1 => if is_standby t then rows_sent (events (sample t d1))
                                else []
                    | _ => []
                    end).
  { unfold MonitorExecute. rewrite events_bind.
    destruct (outcome (check_primary t d)) as [d1 | st | c]; [| exact E0 | exact E0].
    rewrite rows_sent_app, E0. cbn [app].
    destruct (is_standby t); [reflexivity | apply Hquiet]. }
  split; [| split].
  - rewrite Hrows. destruct (outcome (check_primary t d)) as [d1 | st | c];
      [| cbn [length]; lia | cbn [length]; lia].
    destruct (is_standby t); [apply sample_rows | cbn [length]; lia].
  - rewrite Hrows. unfold returns.
    destruct (outcome (check_primary t d)) as [d1 | st | c].
    + destruct (is_standby t).
      * rewrite (proj2 (sample_rows t d1)). split.
        -- intros [Hl Hp]. split; [eexists; reflexivity | auto].
        -- intros (_ & _ & Hl & Hp). auto.
      * split; [intros N; destruct (N eq_refl) |].
        intros (_ & N & _). discriminate N.
    + split; [intros N; destruct (N eq_refl) |].
      intros ([x Hx] & _). discriminate Hx.
    + split; [intros N; destruct (N eq_refl) |].
      intros ([x Hx] & _). discriminate Hx.
  - intros a row H. unfold MonitorExecute in H.
    apply In_events_bind in H as [H | (d1 & _ & H)].
    { exfalso. exact (Forall_In _ _ _ (check_primary_events t d) H). }
    destruct (is_standby t).
    + apply sample_sends in H
        as (ts & received & applied & primary & H1 & H2 & H3 & H4 & H5 & H6).
      exists ts, received, applied, primary.
      rewrite lag_signed in H5, H6.
      repeat (split; [assumption |]).
      split; intros R; [rewrite H5 | rewrite H6]; apply signed64_small; exact R.
    + exfalso.
      apply In_events_emit in H as [H | H]; [discriminate H |].
      apply In_events_bind in H as [H | (_ & _ & H)]; [| destruct H].
      exact (CloseConnections_no_send _ _ _ _ _ H).
Qed.

(** With the primary at 1/20 and the standby at 1/40 the tick hands its
    row over, with the lag -0x20. *)
Lemma recorded_lag_witness :
  rows_sent (events (MonitorExecute (quiet_tick "1/20" "1/40") sample_daemon)) <> []
  /\ forall a row,
       In (EvSend a (q_insert_monitor row))
          (events (MonitorExecute (quiet_tick "1/20" "1/40") sample_daemon)) ->
       m_behind_receive row = - 0x20.
Proof.
  destruct (recorded_lag (quiet_tick "1/20" "1/40") sample_daemon) as (_ & Hsent & Hrow).
  split.
  - apply Hsent. split; [eexists; reflexivity |].
    split; [reflexivity |]. split; eexists; reflexivity.
  - intros a row H.
    destruct (Hrow a row H) as (ts & r & ap & pr & Hl & Hp & _ & _ & E & _).
    injection Hl as <- <- <-. injection Hp as <-.
    rewrite E. reflexivity.
Defined.

(** X17. A tick sends at most one row for [repl_monitor]; it sends one
    exactly when its first half comes back, the local node is still a
    standby, and both position queries give a result.  In every other
    tick nothing is handed to [PQsendQuery]. *)
Theorem one_row_per_tick (t : tick) (d : daemon) :
  (length (rows_sent (events (MonitorExecute t d))) <= 1)%nat
  /\ (rows_sent (events (MonitorExecute t d)) <> []
      <-> returns (check_primary t d)
          /\ is_standby t = true
          /\ is_Some (local_positions t)
          /\ is_Some (primary_location t)).
Proof.
  unfold MonitorExecute.
  pose proof (rows_sent_supervising _ _ _ (check_primary_events t d)) as E0.
  rewrite events_bind.
  destruct (outcome (check_primary t d)) as [d1 | st | c] eqn:Ho.
  - rewrite rows_sent_app, E0. cbn [app].
    destruct (is_standby t).
    + destruct (sample_rows t d1) as [L I']. split; [exact L |].
      rewrite I'. split.
      * intros [Hl Hp]. split; [exists d1; exact Ho | auto].
      * intros (_ & _ & Hl & Hp). auto.
    + assert (E : rows_sent
                    (events (log_err seems_promoted;;
                             CloseConnections (PQisBusy t d1) (cancel_stops t) d1;;
                             exit ERR_PROMOTED : run daemon)) = []).
      { apply rows_sent_none. intros a q H.
        apply In_events_emit in H as [H | H]; [discriminate H |].
        apply In_events_bind in H as [H | (_ & _ & H)]; [| destruct H].
        exact (CloseConnections_no_send _ _ _ _ _ H). }
      rewrite E. split; [cbn [length]; lia |].
      split; [intros N; destruct (N eq_refl) |].
      intros (_ & N & _). discriminate N.
  - rewrite E0. split; [cbn [length]; lia |].
    split; [intros N; destruct (N eq_refl) |].
    intros ([a Ha] & _). rewrite Ho in Ha. discriminate Ha.
  - rewrite E0. split; [cbn [length]; lia |].
    split; [intros N; destruct (N eq_refl) |].
    intros ([a Ha] & _). rewrite Ho in Ha. discriminate Ha.
Qed.
